(** * tree: the traversal, filter, sort and render engine of [fiatjaf/tree]

    A shallow embedding of [node.go] (the [Node] type, [Visit], [match],
    [sort], [dirRecursiveSize], [print], [formatBytes]) and of the
    comparator [CTimeSort], with the properties of the engine stated and
    proved over it.

    Conventions.
    - A Go [string] is a sequence of bytes: [string] here.
    - A Go [error] is kept as its [Error()] text.
    - A nil pointer dereference and a slice index out of range are the
      result [Panic]; a recursion that did not finish within the fuel it
      was given is [OutOfFuel].
    - The map [vpaths] is one object shared by every [Node] of a
      traversal (children and followed links copy the reference), so it
      is one store threaded through [Visit] and [print].
    - What is written to [opts.OutFile] is returned as the list of the
      writes, one element per [Fprint] call, in order. *)

From Stdlib Require Import ZArith String Ascii List Lia.
From stdpp Require Import base option list gmap strings pretty.

#[local] Open Scope string_scope.
#[local] Open Scope nat_scope.
#[local] Open Scope list_scope.
Set Warnings "-register-all".

(* ===================================================================== *)
(** ** Results of fallible computations *)
(* ===================================================================== *)

Inductive res (A : Type) : Type :=
  | Ok (a : A)
  | Panic
  | OutOfFuel.
Arguments Ok {A} a.
Arguments Panic {A}.
Arguments OutOfFuel {A}.

#[global] Instance res_ret : MRet res := fun A a => Ok a.
#[global] Instance res_bind : MBind res := fun A B f m =>
  match m with
  | Ok a => f a
  | Panic => Panic
  | OutOfFuel => OutOfFuel
  end.

(* ===================================================================== *)
(** ** The functions of package [strings] and [fmt] the engine uses *)
(* ===================================================================== *)

Definition nonempty (s : string) : bool :=
  match s with
  | EmptyString => false
  | String _ _ => true
  end.

(** [strings.HasPrefix(s, p)] *)
Definition HasPrefix (s p : string) : bool := String.prefix p s.

(** [strings.Contains(s, sub)] *)
Fixpoint Contains (s sub : string) : bool :=
  String.prefix sub s ||
  match s with
  | EmptyString => false
  | String _ s' => Contains s' sub
  end.

(** [strings.Split(s, sep)] for a non-empty [sep]: [s] is cut at every
    occurrence of [sep], found from the left and not overlapping.  [skip]
    counts the bytes of an occurrence still to be dropped and [cur] is the
    segment read so far. *)
Fixpoint Split_go (sep s : string) (skip : nat) (cur : string) : list string :=
  match s with
  | EmptyString => [cur]
  | String c s' =>
      match skip with
      | S k => Split_go sep s' k cur
      | O =>
          if String.prefix sep s
          then cur :: Split_go sep s' (String.length sep - 1) ""
          else Split_go sep s' 0 (cur +:+ String c "")
      end
  end.

Definition Split (s sep : string) : list string := Split_go sep s 0 "".

(** [strings.Join(elems, sep)] *)
Fixpoint Join (elems : list string) (sep : string) : string :=
  match elems with
  | [] => ""
  | [e] => e
  | e :: rest => e +:+ sep +:+ Join rest sep
  end.

Fixpoint spaces (n : nat) : string :=
  match n with
  | O => ""
  | S n' => String " " (spaces n')
  end.

(** [%Ns]: right-justified in a field of [w] bytes. *)
Definition padLeft (w : nat) (s : string) : string :=
  spaces (w - String.length s) +:+ s.

(** [%-Ns]: left-justified in a field of [w] bytes. *)
Definition padRight (w : nat) (s : string) : string :=
  s +:+ spaces (w - String.length s).

(** [strconv.Itoa] and [%d] *)
Definition Itoa (z : Z) : string := pretty z.

(** [bytes.IndexAny(b, "\n\r")] *)
Fixpoint IndexNewline (s : string) : option nat :=
  match s with
  | EmptyString => None
  | String c s' =>
      if (Ascii.eqb c "010" || Ascii.eqb c "013")%char then Some O
      else S <$> IndexNewline s'
  end.

(** [s[a:b]] for [a <= b <= len(s)] *)
Definition slice (s : string) (a b : nat) : string := String.substring a (b - a) s.

(* ===================================================================== *)
(** ** 64-bit integers *)
(* ===================================================================== *)

(** The value of an [int64] after an arithmetic operation overflowed. *)
Definition wrap64 (z : Z) : Z := ((z + 2 ^ 63) mod 2 ^ 64 - 2 ^ 63)%Z.

Definition int64_add (a b : Z) : Z := wrap64 (a + b).

Definition is_int64 (z : Z) : Prop := (- 2 ^ 63 <= z < 2 ^ 63)%Z.

(* ===================================================================== *)
(** ** Data model *)
(* ===================================================================== *)

Definition error := string.

(** [time.Time], as the nanoseconds elapsed since the zero time. *)
Definition Time := Z.
Definition Time_IsZero (t : Time) : bool := (t =? 0)%Z.
Definition Time_Before (t u : Time) : bool := (t <? u)%Z.

(** [syscall.Stat_t], the fields the engine reads. *)
Record Stat_t := {
  Ino : Z;
  Dev : Z;
  Uid : Z;
  Gid : Z;
  Ctim_Sec : Z
}.

(** A value of [os.FileInfo]: what its methods return. *)
Record FileInfo := {
  fiName : string;
  fiSize : Z;
  fiMode : Z;
  fiModTime : Time;
  fiIsDir : bool;
  fiSys : option Stat_t
}.

(** [os.ModeSymlink] *)
Definition ModeSymlink : Z := Z.shiftl 1 27.

(** [Node].  [info] is the embedded [os.FileInfo], nil until [Stat] has
    succeeded.  A nil and an empty [nodes] slice behave alike in every
    use ([range], [len], [append]) and are both the empty list. *)
Inductive Node : Type := mkNode {
  info : option FileInfo;
  path : string;
  depth : Z;
  err : option error;
  nodes : list Node
}.

(** The interface [Fs]. *)
Record FsT := {
  Stat : string -> option FileInfo * option error;
  ReadDir : string -> list string * option error
}.

(** [Options].  [OutFile] is the list of writes the renderer returns. *)
Record Options := {
  Fs : FsT;
  (* List *)
  All : bool;
  DirsOnly : bool;
  FullPath : bool;
  IgnoreCase : bool;
  FollowLink : bool;
  DeepLevel : Z;
  Pattern : string;
  IPattern : string;
  MatchDirs : bool;
  Prune : bool;
  (* File *)
  Contents : bool;
  ByteSize : bool;
  UnitSize : bool;
  FileMode : bool;
  ShowUid : bool;
  ShowGid : bool;
  LastMod : bool;
  Quotes : bool;
  Inodes : bool;
  Device : bool;
  (* Sort *)
  NoSort : bool;
  VerSort : bool;
  ModSort : bool;
  DirSort : bool;
  NameSort : bool;
  SizeSort : bool;
  CTimeSort : bool;
  ReverSort : bool;
  (* Graphics *)
  NoIndent : bool;
  Colorize : bool;
  Color : option (Node -> string -> string);
  Now : Time
}.

(** A comparator of two [os.FileInfo], either of which may be nil. *)
Definition SortFunc := option FileInfo -> option FileInfo -> bool.

(** What the engine takes from the operating system, from the packages
    [path/filepath], [regexp], [os/user], [os/exec] and [time], and from
    the files of the repository that hold the colours and the comparators
    other than [CTimeSort]. *)
Record World := {
  filepath_Abs : string -> string * option error;
  filepath_Clean : string -> string;
  filepath_Join : string -> string -> string;
  filepath_Base : string -> string;
  filepath_EvalSymlinks : string -> string * option error;
  os_Readlink : string -> string * option error;
  (** [regexp.Compile]: an error, or the compiled expression as the
      function that gives the bounds of its leftmost match in a text. *)
  regexp_Compile : string -> option (string -> option (nat * nat));
  user_LookupId : string -> option string;
  time_Now : Time;
  Time_Year : Time -> Z;
  Time_Format : Time -> string -> string;
  FileMode_String : Z -> string;
  (** the output of [file --mime-type --brief -P bytes=200 path] *)
  exec_file_mime : string -> string;
  (** [os.Open] then one [Read] into the 60 bytes of [reusable]: the open
      failed ([None]), the read failed ([Some None]), or the bytes read *)
  os_Open_Read : string -> option (option string);
  ANSIColor : Node -> string -> string;
  ModSort_fn : SortFunc;
  DirSort_fn : SortFunc;
  VerSort_fn : SortFunc;
  SizeSort_fn : SortFunc;
  NameSort_fn : SortFunc
}.

(** [New] *)
Definition New (p : string) : Node :=
  {| info := None; path := p; depth := 0; err := None; nodes := [] |}.

Definition set_info (node : Node) (fi : FileInfo) : Node :=
  {| info := Some fi; path := path node; depth := depth node;
     err := err node; nodes := nodes node |}.

Definition set_err (node : Node) (e : error) : Node :=
  {| info := info node; path := path node; depth := depth node;
     err := Some e; nodes := nodes node |}.

Definition set_nodes (node : Node) (ns : list Node) : Node :=
  {| info := info node; path := path node; depth := depth node;
     err := err node; nodes := ns |}.

(** The methods a [Node] has through the embedded [os.FileInfo]: calling
    one on a node whose [FileInfo] is nil is a nil dereference. *)
Definition Node_method {A} (f : FileInfo -> A) (node : Node) : res A :=
  match info node with
  | Some fi => Ok (f fi)
  | None => Panic
  end.

Definition Node_Name := Node_method fiName.
Definition Node_IsDir := Node_method fiIsDir.
Definition Node_Size := Node_method fiSize.
Definition Node_Mode := Node_method fiMode.
Definition Node_ModTime := Node_method fiModTime.

(* ===================================================================== *)
(** ** Package [sort]: [sort.Sort] over a [sort.Interface] *)
(* ===================================================================== *)

(** An algorithm of package [sort] sees the data only through [Less] and
    [Swap]: it is a program over these two calls.  [Spent] is a loop that
    did not end within its fuel. *)
Inductive SortM (R : Type) : Type :=
  | Done (r : R)
  | DoLess (i j : nat) (k : bool -> SortM R)
  | DoSwap (i j : nat) (k : SortM R)
  | Spent.
Arguments Done {R} r.
Arguments DoLess {R} i j k.
Arguments DoSwap {R} i j k.
Arguments Spent {R}.

Fixpoint SortM_bind {R S} (f : R -> SortM S) (m : SortM R) : SortM S :=
  match m with
  | Done r => f r
  | DoLess i j k => DoLess i j (fun b => SortM_bind f (k b))
  | DoSwap i j k => DoSwap i j (SortM_bind f k)
  | Spent => Spent
  end.

#[global] Instance SortM_ret : MRet SortM := fun R r => Done r.
#[global] Instance SortM_mbind : MBind SortM := fun R S f m => SortM_bind f m.

Definition Less (i j : nat) : SortM bool := DoLess i j Done.
Definition Swap (i j : nat) : SortM unit := DoSwap i j (Done tt).

Module sort.

(** The inner loop of [insertionSort]:
    [for j := i; j > a && data.Less(j, j-1); j-- { data.Swap(j, j-1) }] *)
Fixpoint insertionSort_inner (a j : nat) : SortM unit :=
  match j with
  | O => Done tt
  | S j' =>
      if a <? j then
        c ← Less j j';
        if c : bool then Swap j j';; insertionSort_inner a j' else Done tt
      else Done tt
  end.

(** [for i := ...; i < b; i++], with [n] the iterations left *)
Fixpoint insertionSort_outer (a i n : nat) : SortM unit :=
  match n with
  | O => Done tt
  | S n' => insertionSort_inner a i;; insertionSort_outer a (S i) n'
  end.

Definition insertionSort (a b : nat) : SortM unit :=
  insertionSort_outer a (a + 1) (b - (a + 1)).

(** [siftDown]; the loop runs at most [hi] times. *)
Fixpoint siftDown_loop (fuel root hi first : nat) : SortM unit :=
  match fuel with
  | O => Spent
  | S fuel' =>
      let child := 2 * root + 1 in
      if hi <=? child then Done tt else
      c1 ← (if child + 1 <? hi then Less (first + child) (first + child + 1)
            else Done false);
      let child := if c1 : bool then child + 1 else child in
      c2 ← Less (first + root) (first + child);
      if c2 : bool then
        Swap (first + root) (first + child);; siftDown_loop fuel' child hi first
      else Done tt
  end.

Definition siftDown (lo hi first : nat) : SortM unit :=
  siftDown_loop (S hi) lo hi first.

(** [for i := m; i >= 0; i--] *)
Fixpoint downto (i : nat) (body : nat -> SortM unit) : SortM unit :=
  match i with
  | O => body O
  | S i' => body i;; downto i' body
  end.

Definition heapSort (a b : nat) : SortM unit :=
  let first := a in
  let lo := 0 in
  let hi := b - a in
  downto ((hi - 1) / 2) (fun i => siftDown i hi first);;
  match hi with
  | O => Done tt
  | S h => downto h (fun i => Swap first (first + i);; siftDown lo i first)
  end.

(** [partition]: the two scans,
    [for i <= j && data.Less(i, a) { i++ }] and
    [for i <= j && !data.Less(j, a) { j-- }] *)
Fixpoint scan_i (a j i n : nat) : SortM nat :=
  if i <=? j then
    match n with
    | O => Spent
    | S n' => c ← Less i a; if c : bool then scan_i a j (S i) n' else Done i
    end
  else Done i.

Fixpoint scan_j (a i j : nat) : SortM nat :=
  if i <=? j then
    match j with
    | O => c ← Less j a; if c : bool then Done j else Spent
    | S j' => c ← Less j a; if c : bool then Done j else scan_j a i j'
    end
  else Done j.

Fixpoint partition_loop (fuel a i j : nat) : SortM nat :=
  match fuel with
  | O => Spent
  | S fuel' =>
      i ← scan_i a j i (S (j - i));
      j ← scan_j a i j;
      if j <? i then Done j
      else Swap i j;; partition_loop fuel' a (S i) (j - 1)
  end.

Definition partition (a b pivot : nat) : SortM (nat * bool) :=
  Swap a pivot;;
  i ← scan_i a (b - 1) (a + 1) (S (b - 1 - (a + 1)));
  j ← scan_j a i (b - 1);
  if j <? i then Swap j a;; Done (j, true)
  else
    Swap i j;;
    j ← partition_loop (S b) a (S i) (j - 1);
    Swap j a;; Done (j, false).

(** [partitionEqual]: [for i <= j && !data.Less(a, i) { i++ }] and
    [for i <= j && data.Less(a, j) { j-- }] *)
Fixpoint scanEq_i (a j i n : nat) : SortM nat :=
  if i <=? j then
    match n with
    | O => Spent
    | S n' => c ← Less a i; if c : bool then Done i else scanEq_i a j (S i) n'
    end
  else Done i.

Fixpoint scanEq_j (a i j : nat) : SortM nat :=
  if i <=? j then
    match j with
    | O => c ← Less a j; if c : bool then Spent else Done j
    | S j' => c ← Less a j; if c : bool then scanEq_j a i j' else Done j
    end
  else Done j.

Fixpoint partitionEqual_loop (fuel a i j : nat) : SortM nat :=
  match fuel with
  | O => Spent
  | S fuel' =>
      i ← scanEq_i a j i (S (j - i));
      j ← scanEq_j a i j;
      if j <? i then Done i
      else Swap i j;; partitionEqual_loop fuel' a (S i) (j - 1)
  end.

Definition partitionEqual (a b pivot : nat) : SortM nat :=
  Swap a pivot;;
  partitionEqual_loop (S b) a (a + 1) (b - 1).

Inductive sortedHint := unknownHint | increasingHint | decreasingHint.

(** [order2], [median], [medianAdjacent]: the counter behind the pointer
    [swaps] is passed in and returned. *)
Definition order2 (a b swaps : nat) : SortM (nat * nat * nat) :=
  c ← Less b a;
  if c : bool then Done (b, a, S swaps) else Done (a, b, swaps).

Definition median (a b c swaps : nat) : SortM (nat * nat) :=
  '(a, b, swaps) ← order2 a b swaps;
  '(b, c, swaps) ← order2 b c swaps;
  '(a, b, swaps) ← order2 a b swaps;
  Done (b, swaps).

Definition medianAdjacent (a swaps : nat) : SortM (nat * nat) :=
  median (a - 1) a (a + 1) swaps.

Definition shortestNinther : nat := 50.
Definition maxSwaps : nat := 4 * 3.

Definition choosePivot (a b : nat) : SortM (nat * sortedHint) :=
  let l := b - a in
  let i := a + l / 4 * 1 in
  let j := a + l / 4 * 2 in
  let k := a + l / 4 * 3 in
  '(j, swaps) ←
    (if 8 <=? l then
       '(i, j, k, swaps) ←
         (if shortestNinther <=? l then
            '(i, swaps) ← medianAdjacent i 0;
            '(j, swaps) ← medianAdjacent j swaps;
            '(k, swaps) ← medianAdjacent k swaps;
            Done (i, j, k, swaps)
          else Done (i, j, k, 0));
       median i j k swaps
     else Done (j, 0));
  if swaps =? 0 then Done (j, increasingHint)
  else if swaps =? maxSwaps then Done (j, decreasingHint)
  else Done (j, unknownHint).

(** [reverseRange] *)
Fixpoint reverseRange_loop (fuel i j : nat) : SortM unit :=
  if i <? j then
    match fuel with
    | O => Spent
    | S fuel' => Swap i j;; reverseRange_loop fuel' (S i) (j - 1)
    end
  else Done tt.

Definition reverseRange (a b : nat) : SortM unit :=
  match b with
  | O => Done tt
  | S b' => reverseRange_loop b a b'
  end.

Definition maxSteps : nat := 5.
Definition shortestShifting : nat := 50.

(** [partialInsertionSort]: [for i < b && !data.Less(i, i-1) { i++ }] *)
Fixpoint pis_scan (b i n : nat) : SortM nat :=
  if i <? b then
    match n with
    | O => Spent
    | S n' => c ← Less i (i - 1); if c : bool then Done i else pis_scan b (S i) n'
    end
  else Done i.

(** [for j := i - 1; j >= 1; j-- { if !data.Less(j, j-1) { break }; data.Swap(j, j-1) }] *)
Fixpoint pis_left (j : nat) : SortM unit :=
  match j with
  | O => Done tt
  | S j' => c ← Less j j'; if c : bool then Swap j j';; pis_left j' else Done tt
  end.

(** [for j := i + 1; j < b; j++ { if !data.Less(j, j-1) { break }; data.Swap(j, j-1) }] *)
Fixpoint pis_right (b j n : nat) : SortM unit :=
  if j <? b then
    match n with
    | O => Spent
    | S n' =>
        c ← Less j (j - 1);
        if c : bool then Swap j (j - 1);; pis_right b (S j) n' else Done tt
    end
  else Done tt.

Fixpoint pis_steps (steps a b i : nat) : SortM bool :=
  match steps with
  | O => Done false
  | S steps' =>
      i ← pis_scan b i (b - i);
      if i =? b then Done true
      else if b - a <? shortestShifting then Done false
      else
        Swap i (i - 1);;
        (if 2 <=? i - a then pis_left (i - 1) else Done tt);;
        (if 2 <=? b - i then pis_right b (i + 1) (b - (i + 1)) else Done tt);;
        pis_steps steps' a b i
  end.

Definition partialInsertionSort (a b : nat) : SortM bool :=
  pis_steps maxSteps a b (a + 1).

(** [bits.Len] *)
Definition bits_Len (n : nat) : nat :=
  match n with
  | O => 0
  | _ => S (Nat.log2 n)
  end.

(** [xorshift.Next], on 64 bits *)
Definition xorshift_Next (r : Z) : Z :=
  let m := (2 ^ 64)%Z in
  let r := Z.lxor r (Z.shiftl r 13 mod m) in
  let r := Z.lxor r (Z.shiftr r 7) in
  let r := Z.lxor r (Z.shiftl r 17 mod m) in
  r.

Definition nextPowerOfTwo (length : nat) : Z := Z.shiftl 1 (Z.of_nat (bits_Len length)).

Fixpoint breakPatterns_loop (n i a idx length : nat) (random modulus : Z) : SortM unit :=
  match n with
  | O => Done tt
  | S n' =>
      let random := xorshift_Next random in
      let other := Z.to_nat (Z.land random (modulus - 1)) in
      let other := if length <=? other then other - length else other in
      Swap (idx - 1 + i) (a + other);;
      breakPatterns_loop n' (S i) a idx length random modulus
  end.

Definition breakPatterns (a b : nat) : SortM unit :=
  let length := b - a in
  if 8 <=? length then
    breakPatterns_loop 3 0 a (a + length / 4 * 2 - 1) length
      (Z.of_nat length) (nextPowerOfTwo length)
  else Done tt.

Definition maxInsertion : nat := 12.

(** [pdqsort]: one unit of fuel per turn of its loop; the recursive call
    starts a loop of its own with both flags true. *)
Fixpoint pdqsort_loop (fuel a b limit : nat) (wasBalanced wasPartitioned : bool)
  : SortM unit :=
  match fuel with
  | O => Spent
  | S fuel' =>
      let length := b - a in
      if length <=? maxInsertion then insertionSort a b
      else if limit =? 0 then heapSort a b
      else
        limit ← (if negb wasBalanced then breakPatterns a b;; Done (limit - 1)
                 else Done limit);
        '(pivot, hint) ← choosePivot a b;
        '(pivot, hint) ←
          (match hint with
           | decreasingHint =>
               reverseRange a b;; Done ((b - 1) - (pivot - a), increasingHint)
           | _ => Done (pivot, hint)
           end);
        sorted ←
          (match hint with
           | increasingHint =>
               if wasBalanced && wasPartitioned then partialInsertionSort a b
               else Done false
           | _ => Done false
           end);
        if sorted : bool then Done tt
        else
          eq ← (if 0 <? a then c ← Less (a - 1) pivot; Done (negb c) else Done false);
          if eq : bool then
            mid ← partitionEqual a b pivot;
            pdqsort_loop fuel' mid b limit wasBalanced wasPartitioned
          else
            '(mid, alreadyPartitioned) ← partition a b pivot;
            let leftLen := mid - a in
            let rightLen := b - mid in
            let balanceThreshold := length / 8 in
            if leftLen <? rightLen then
              pdqsort_loop fuel' a mid limit true true;;
              pdqsort_loop fuel' (mid + 1) b limit
                (balanceThreshold <=? leftLen) alreadyPartitioned
            else
              pdqsort_loop fuel' (mid + 1) b limit true true;;
              pdqsort_loop fuel' a mid limit
                (balanceThreshold <=? rightLen) alreadyPartitioned
  end.

Definition pdqsort (a b limit : nat) : SortM unit :=
  pdqsort_loop (S (b - a)) a b limit true true.

(** [sort.Sort], for data of length [n] *)
Definition Sort (n : nat) : SortM unit :=
  if n <=? 1 then Done tt else pdqsort 0 n (bits_Len n).

End sort.

(** A [sort.Interface] over a slice of [A]: [Len] and [Swap] are those of
    the slice, [Less] is the implementation's. *)
Record Interface (A : Type) := {
  Interface_Less : list A -> nat -> nat -> res bool
}.
Arguments Interface_Less {A} _ _ _ _.

(** [data[i], data[j] = data[j], data[i]] *)
Definition slice_Swap {A} (data : list A) (i j : nat) : res (list A) :=
  match data !! i, data !! j with
  | Some x, Some y => Ok (<[j:=x]> (<[i:=y]> data))
  | _, _ => Panic
  end.

Fixpoint run {A R} (I : Interface A) (p : SortM R) (data : list A) : res (R * list A) :=
  match p with
  | Done r => Ok (r, data)
  | DoLess i j k => c ← Interface_Less I data i j; run I (k c) data
  | DoSwap i j k => data' ← slice_Swap data i j; run I k data'
  | Spent => OutOfFuel
  end.

Definition sort_Sort {A} (I : Interface A) (data : list A) : res (list A) :=
  '(_, data') ← run I (sort.Sort (length data)) data; Ok data'.

(** [sort.Reverse]: [Less(i, j)] is the wrapped [Less(j, i)]. *)
Definition sort_Reverse {A} (I : Interface A) : Interface A :=
  {| Interface_Less data i j := Interface_Less I data j i |}.

(* ===================================================================== *)
(** ** The engine *)
(* ===================================================================== *)

Section Engine.

Variable W : World.

(** [CTimeSort] (the Linux and the BSD file differ only in the name of
    the field of [Stat_t]).  [fiSys] is [None] when [Sys()] is not a
    [*syscall.Stat_t]. *)
Definition CTimeSort_fn (f1 f2 : option FileInfo) : bool :=
  match f1, f2 with
  | Some i1, Some i2 =>
      match fiSys i1, fiSys i2 with
      | Some s1, Some s2 => (Ctim_Sec s1 <? Ctim_Sec s2)%Z
      | _, _ => ModSort_fn W f1 f2
      end
  | _, _ => match f2 with None => true | Some _ => false end
  end.

(** Modelled from the spec: [ByFunc], the [sort.Interface] over the
    children of a node, is not in the sources at hand; its [Less] applies
    the comparator to the [FileInfo] of the two nodes, the "comparator
    [less(a, b)] over two metadata records" of the section on the sorter,
    with the signature [CTimeSort] shows. *)
Definition ByFunc (fn : SortFunc) : Interface Node :=
  {| Interface_Less data i j :=
       match data !! i, data !! j with
       | Some x, Some y => Ok (fn (info x) (info y))
       | _, _ => Panic
       end |}.

(** The [switch] of [sort]. *)
Definition sort_fn (opts : Options) : SortFunc :=
  if ModSort opts then ModSort_fn W
  else if CTimeSort opts then CTimeSort_fn
  else if DirSort opts then DirSort_fn W
  else if VerSort opts then VerSort_fn W
  else if SizeSort opts then SizeSort_fn W
  else if NameSort opts then NameSort_fn W
  else NameSort_fn W.

(** [(node *Node) sort]: the new value of [node.nodes]. *)
Definition Node_sort (opts : Options) (ns : list Node) : res (list Node) :=
  let fn := sort_fn opts in
  if ReverSort opts then sort_Sort (sort_Reverse (ByFunc fn)) ns
  else sort_Sort (ByFunc fn) ns.

(** [FindString] of a compiled [Regexp]: the text of the leftmost match, or the
    empty string when there is none. *)
Definition FindString (re : string -> option (nat * nat)) (s : string) : string :=
  match re s with
  | None => ""
  | Some (a, b) => slice s a b
  end.

(** [(node *Node) match] *)
Definition Node_match (node : Node) (pattern : string) (opt : Options) : res bool :=
  let prefix := if IgnoreCase opt then "(?i)" else "" in
  search ← Node_Name node;
  let search := if Contains pattern "*" then path node else search in
  match regexp_Compile W (prefix +:+ pattern) with
  | None => Ok false
  | Some re => Ok (nonempty (FindString re search))
  end.

Definition VisitResult : Type := Node * (Z * Z) * gmap string bool.

(** The decision taken on a visited child [nnode] that recorded no error:
    [true] when one of the [continue] statements drops it. *)
Definition dropChild (opts : Options) (dirMatch : bool) (nnode : Node) (f : Z)
  : res bool :=
  isDir ← Node_IsDir nnode;
  if isDir : bool then
    if Prune opts && (f =? 0)%Z then Ok true
    else if MatchDirs opts && nonempty (IPattern opts) then
      Node_match nnode (IPattern opts) opts
    else Ok false
  else
    if DirsOnly opts then Ok true
    else
      c ← (if negb dirMatch && nonempty (Pattern opts) then
             m ← Node_match nnode (Pattern opts) opts; Ok (negb m)
           else Ok false);
      if c : bool then Ok true
      else if nonempty (IPattern opts) then Node_match nnode (IPattern opts) opts
      else Ok false.

(** The loop of [Visit] over the names [ReadDir] returned; [visit] is the
    recursive call.  The state is the children kept so far, the two
    counters and the shared [vpaths]. *)
Fixpoint visitNames (visit : Node -> gmap string bool -> res VisitResult)
    (opts : Options) (node : Node) (dirMatch : bool) (names : list string)
    (kept : list Node) (dirs files : Z) (vp : gmap string bool)
  : res (list Node * (Z * Z) * gmap string bool) :=
  match names with
  | [] => Ok (kept, (dirs, files), vp)
  | name :: rest =>
      if negb (All opts) && HasPrefix name "." then
        visitNames visit opts node dirMatch rest kept dirs files vp
      else
        let nnode := {| info := None;
                        path := filepath_Join W (path node) name;
                        depth := depth node + 1;
                        err := None;
                        nodes := [] |} in
        '(nnode, (d, f), vp) ← visit nnode vp;
        drop ← (match err nnode with
                | Some _ => Ok false
                | None => dropChild opts dirMatch nnode f
                end);
        if drop : bool then
          visitNames visit opts node dirMatch rest kept dirs files vp
        else
          visitNames visit opts node dirMatch rest (kept ++ [nnode])
            (dirs + d)%Z (files + f)%Z vp
  end.

(** [(node *Node) Visit]: the node as the call leaves it, the two
    counters and the shared [vpaths]. *)
Fixpoint Visit (fuel : nat) (opts : Options) (node : Node) (vp : gmap string bool)
  : res VisitResult :=
  match fuel with
  | O => OutOfFuel
  | S fuel' =>
      (* visited paths *)
      let vp := match filepath_Abs W (path node) with
                | (p, None) => <[filepath_Clean W p := true]> vp
                | (_, Some _) => vp
                end in
      (* stat *)
      match Stat (Fs opts) (path node) with
      | (_, Some e) => Ok (set_err node e, (0, 0)%Z, vp)
      | (None, None) => Panic
      | (Some fi, None) =>
          let node := set_info node fi in
          if negb (fiIsDir fi) then Ok (node, (0, 1)%Z, vp)
          else
            let dirs := if (depth node =? 0)%Z then 0%Z else 1%Z in
            (* DeepLevel option *)
            if (0 <? DeepLevel opts)%Z && (DeepLevel opts <=? depth node)%Z
            then Ok (node, (dirs, 0%Z), vp)
            else
              (* MatchDirs option *)
              '(dirMatch, stop) ←
                (if negb (depth node =? 0)%Z && MatchDirs opts then
                   if nonempty (Pattern opts) then
                     m ← Node_match node (Pattern opts) opts; Ok (m, false)
                   else if nonempty (IPattern opts) then
                     m ← Node_match node (IPattern opts) opts; Ok (false, m)
                   else Ok (false, false)
                 else Ok (false, false));
              if stop : bool then Ok (node, (dirs, 0%Z), vp)
              else
                match ReadDir (Fs opts) (path node) with
                | (_, Some e) => Ok (set_err node e, (dirs, 0%Z), vp)
                | (names, None) =>
                    '(kept, (dirs, files), vp) ←
                      visitNames (Visit fuel' opts) opts node dirMatch names
                        [] dirs 0%Z vp;
                    (* Sorting *)
                    kept ← (if NoSort opts then Ok kept else Node_sort opts kept);
                    Ok (set_nodes node kept, (dirs, files), vp)
                end
      end
  end.

(** The loop of [dirRecursiveSize] over [node.nodes]; [rec] is the
    recursive call, [size] an [int64]. *)
Fixpoint sizeLoop (rec : Node -> res (Z * option error)) (ns : list Node)
    (size : Z) (e0 : option error) : res (Z * option error) :=
  match ns with
  | [] => Ok (size, e0)
  | nnode :: rest =>
      match err nnode with
      | Some e => sizeLoop rec rest size (Some e)
      | None =>
          isDir ← Node_IsDir nnode;
          if isDir : bool then
            '(nsize, e) ← rec nnode;
            sizeLoop rec rest (int64_add size nsize)
              (match e with Some _ => e | None => e0 end)
          else
            sz ← Node_Size nnode;
            sizeLoop rec rest (int64_add size sz) e0
      end
  end.

(** [dirRecursiveSize] *)
Fixpoint dirRecursiveSize (opts : Options) (node : Node) : res (Z * option error) :=
  let err0 :=
    if (0 <? DeepLevel opts)%Z && (DeepLevel opts <=? depth node)%Z
    then Some "Depth too high" else None in
  sizeLoop (dirRecursiveSize opts) (nodes node) 0%Z err0.

End Engine.

(* ===================================================================== *)
(** ** [formatBytes] *)
(* ===================================================================== *)

Definition KB : Z := Z.shiftl 1 10.
Definition MB : Z := Z.shiftl 1 20.
Definition GB : Z := Z.shiftl 1 30.
Definition TB : Z := Z.shiftl 1 40.
Definition PB : Z := Z.shiftl 1 50.
Definition EB : Z := Z.shiftl 1 60.

(** A [float64] that is [mant / 2 ^ binexp] exactly.  Every value
    [formatBytes] computes has this form: the conversion of an [int64],
    and its quotient by a power of two (exact in binary floating point,
    the quotient being neither an overflow nor subnormal). *)
Record float64 := {
  mant : Z;
  binexp : Z
}.

(** The integer nearest to [num / den], halves going to the even one,
    for [0 <= num] and [0 < den]. *)
Definition roundHalfEven (num den : Z) : Z :=
  let q := (num / den)%Z in
  let r := (num mod den)%Z in
  if (den <? 2 * r)%Z || ((2 * r =? den)%Z && Z.odd q) then (q + 1)%Z else q.

(** [float64(i)] for an [int64]: [i] itself when it has at most 53
    significant bits, else the nearest value that has, ties to even. *)
Definition float64_of_int64 (i : Z) : float64 :=
  let a := Z.abs i in
  if (a <? 2 ^ 53)%Z then {| mant := i; binexp := 0 |}
  else
    let e := (Z.log2 a - 52)%Z in
    {| mant := (Z.sgn i * (roundHalfEven a (2 ^ e) * 2 ^ e))%Z; binexp := 0 |}.

(** [x / float64(2 ^ s)] *)
Definition float64_div_pow2 (x : float64) (s : Z) : float64 :=
  {| mant := mant x; binexp := (binexp x + s)%Z |}.

(** [n >= 10] *)
Definition float64_ge10 (x : float64) : bool := (10 * 2 ^ binexp x <=? mant x)%Z.

Fixpoint zeros (n : nat) : string :=
  match n with
  | O => EmptyString
  | S n' => String "0" (zeros n')
  end.

(** [fmt.Sprintf("%.<prec>f", x)]: the decimal expansion of [x] rounded
    to [prec] digits after the point, halves to even. *)
Definition Sprintf_f (prec : nat) (x : float64) : string :=
  let p := (10 ^ Z.of_nat prec)%Z in
  let d := roundHalfEven (Z.abs (mant x) * p) (2 ^ binexp x) in
  let frac := pretty (d mod p)%Z in
  (if (mant x <? 0)%Z then "-" else "") +:+ pretty (d / p)%Z +:+
  (match prec with
   | O => ""
   | S _ => "." +:+ zeros (prec - String.length frac) +:+ frac
   end).

(** [strings.Trim(s, " ")] *)
Fixpoint TrimLeft_space (s : string) : string :=
  match s with
  | String " " s' => TrimLeft_space s'
  | _ => s
  end.

Fixpoint TrimRight_space (s : string) : string :=
  match s with
  | EmptyString => EmptyString
  | String c s' =>
      match c, TrimRight_space s' with
      | " "%char, EmptyString => EmptyString
      | _, t => String c t
      end
  end.

Definition Trim_space (s : string) : string := TrimRight_space (TrimLeft_space s).

(** [formatBytes]; [sFmt] is kept as the precision it asks for. *)
Definition formatBytes (i : Z) : string :=
  let f := float64_of_int64 i in
  let '(sFmt, eFmt, n) :=
    if (i >? EB)%Z then (1, "E", float64_div_pow2 f 60)
    else if (i >? PB)%Z then (1, "P", float64_div_pow2 f 50)
    else if (i >? TB)%Z then (1, "T", float64_div_pow2 f 40)
    else if (i >? GB)%Z then (1, "G", float64_div_pow2 f 30)
    else if (i >? MB)%Z then (1, "M", float64_div_pow2 f 20)
    else if (i >? KB)%Z then (1, "K", float64_div_pow2 f 10)
    else (0, "", f) in
  let sFmt := if nonempty eFmt && float64_ge10 n then 0 else sFmt in
  Trim_space (Sprintf_f sFmt n +:+ eFmt).

(* ===================================================================== *)
(** ** The renderer *)
(* ===================================================================== *)

(** One call that writes to [opts.OutFile], by the place that makes it. *)
Inductive Write :=
  | WError (s : string)     (* the line of a node that recorded an error *)
  | WProps (s : string)     (* the annotation block *)
  | WName (s : string)      (* the name of a node that recorded no error *)
  | WContent (s : string)   (* the content preview *)
  | WNewline                (* the end of the line of such a node *)
  | WGlyph (s : string).    (* the indentation before a child *)

Definition newline : string := String "010"%char EmptyString.
Definition dquote : string := String "034"%char EmptyString.

Definition Write_bytes (w : Write) : string :=
  match w with
  | WError s | WProps s | WName s | WContent s | WGlyph s => s
  | WNewline => newline
  end.

(** The bytes [opts.OutFile] received. *)
Definition output (ws : list Write) : string :=
  foldr (fun w acc => Write_bytes w +:+ acc) EmptyString ws.

Section Render.

Variable W : World.

(** [(opts *Options) color] *)
Definition Options_color (opts : Options) (node : Node) (s : string) : string :=
  match Color opts with
  | Some f => f node s
  | None => ANSIColor W node s
  end.

(** Modelled from the spec: [getStat] is not in the sources at hand; it
    reads the "opaque platform-specific stat handle (used only by
    owner/inode/device/ctime annotations)" and says whether there is one. *)
Definition getStat (node : Node) : res (bool * Z * Z * Z * Z) :=
  sys ← Node_method fiSys node;
  match sys with
  | Some st => Ok (true, Ino st, Dev st, Uid st, Gid st)
  | None => Ok (false, 0, 0, 0, 0)%Z
  end.

(** The size annotation, [%4s] of [formatBytes] or [%11d]. *)
Definition sizeProp (opts : Options) (size : Z) : string :=
  if UnitSize opts then padLeft 4 (formatBytes size)
  else padLeft 11 (Itoa size).

(** The annotations of a node that is not a directory. *)
Definition fileProps (opts : Options) (node : Node) : res (list string) :=
  '(ok, inode, device, uid, gid) ← getStat node;
  let props := [] in
  (* inodes *)
  let props := if ok && Inodes opts then props ++ [Itoa inode] else props in
  (* device *)
  let props := if ok && Device opts then props ++ [padLeft 3 (Itoa device)] else props in
  (* Mode *)
  props ← (if FileMode opts then
             m ← Node_Mode node; Ok (props ++ [FileMode_String W m])
           else Ok props);
  (* Owner/Uid *)
  let props :=
    if ok && ShowUid opts then
      let uidStr := Itoa uid in
      match user_LookupId W uidStr with
      | None => props ++ [padRight 8 uidStr]
      | Some username => props ++ [padRight 8 username]
      end
    else props in
  (* Group/Gid *)
  let props := if ok && ShowGid opts then props ++ [padRight 4 (Itoa gid)] else props in
  (* Size *)
  props ← (if ByteSize opts || UnitSize opts then
             sz ← Node_Size node; Ok (props ++ [sizeProp opts sz])
           else Ok props);
  (* Last modification *)
  if LastMod opts then
    let t := if Time_IsZero (Now opts) then time_Now W else Now opts in
    mt ← Node_ModTime node;
    let format :=
      if (Time_Year W mt =? Time_Year W t)%Z then "Jan 02 15:04" else "Jan 02  2006" in
    Ok (props ++ [Time_Format W mt format])
  else Ok props.

(** The annotations of a directory. *)
Definition dirProps (opts : Options) (node : Node) : res (list string) :=
  if ByteSize opts || UnitSize opts then
    '(rsize, e) ← dirRecursiveSize opts node;
    let size :=
      if bool_decide (e ≠ None) && (rsize <=? 0)%Z then
        if UnitSize opts then spaces 4 else spaces 11
      else sizeProp opts rsize in
    Ok [size]
  else Ok [].

(** [if len(props) > 0 { fmt.Fprintf(opts.OutFile, "[%s]  ", ...) }] *)
Definition writeProps (props : list string) : list Write :=
  match props with
  | [] => []
  | _ => [WProps ("[" +:+ Join props " " +:+ "]  ")]
  end.

(** The text an error is rendered with: the second segment of the split
    at [": "] when there is one. *)
Definition shortError (e : error) : string :=
  match Split e ": " with
  | _ :: m1 :: _ => m1
  | _ => e
  end.

(** The content preview, [if opts.Contents { ... }]. *)
Definition printContents (opts : Options) (node : Node) : res (list Write) :=
  if Contents opts then
    let mime := exec_file_mime W (path node) in
    match String.length mime with
    | O => Panic
    | S n =>
        if String.eqb (slice mime 0 n) "text/plain" then
          match os_Open_Read W (path node) with
          | Some (Some buf) =>
              let n := String.length buf in
              let n := match IndexNewline buf with Some k => k | None => n end in
              let hasMore := n =? 60 in
              let n := if hasMore then 59 else n in
              Ok [WContent " => `"; WContent (slice buf 0 n);
                  WContent (if hasMore then "…`" else "`")]
          | _ => Ok []
          end
        else Ok []
    end
  else Ok [].

(** The block [if node.Mode()&os.ModeSymlink == os.ModeSymlink { ... }]:
    the name to print, the node and the shared [vpaths] as the block
    leaves them.  [visit] is the call of [Visit]. *)
Definition printSymlink (visit : Node -> gmap string bool -> res VisitResult)
    (opts : Options) (node : Node) (name : string) (vp : gmap string bool)
  : res (string * Node * gmap string bool) :=
  let vtarget := match os_Readlink W (path node) with
                 | (t, None) => t
                 | (_, Some _) => path node
                 end in
  let targetPath := match filepath_EvalSymlinks W (path node) with
                    | (t, None) => t
                    | (_, Some _) => vtarget
                    end in
  let fi := fst (Stat (Fs opts) targetPath) in
  let vtarget :=
    match fi with
    | Some i =>
        if Colorize opts then
          Options_color opts
            {| info := Some i; path := vtarget; depth := 0; err := None; nodes := [] |}
            vtarget
        else vtarget
    | None => vtarget
    end in
  let name := name +:+ " -> " +:+ vtarget in
  (* Follow symbolic links like directories *)
  if FollowLink opts then
    match filepath_Abs W targetPath, fi with
    | (p, None), Some i =>
        if fiIsDir i then
          match vp !! filepath_Clean W p with
          | None =>
              let inf := {| info := Some i; path := targetPath; depth := 0;
                            err := None; nodes := [] |} in
              '(inf, _, vp) ← visit inf vp;
              Ok (name, set_nodes node (nodes inf), vp)
          | Some _ => Ok (name +:+ " [recursive, not followed]", node, vp)
          end
        else Ok (name, node, vp)
    | _, _ => Ok (name, node, vp)
    end
  else Ok (name, node, vp).

Definition PrintResult : Type := list Write * Node * gmap string bool.

(** The loop of [print] over [node.nodes]; [pr] is the recursive call.
    The children are printed in place: the loop returns them as the calls
    left them. *)
Fixpoint printNodes (pr : string -> Node -> gmap string bool -> res PrintResult)
    (opts : Options) (indent : string) (ns : list Node) (vp : gmap string bool)
  : res (list Write * list Node * gmap string bool) :=
  match ns with
  | [] => Ok ([], [], vp)
  | nnode :: rest =>
      let last := match rest with [] => true | _ => false end in
      let glyph :=
        if NoIndent opts then []
        else if last then [WGlyph (indent +:+ "└── ")]
        else [WGlyph (indent +:+ "├── ")] in
      let add :=
        if NoIndent opts then ""
        else if last then "    " else "│   " in
      '(out1, nnode, vp) ← pr (indent +:+ add) nnode vp;
      '(out2, rest, vp) ← printNodes pr opts indent rest vp;
      Ok (glyph ++ out1 ++ out2, nnode :: rest, vp)
  end.

(** [(node *Node) print]: the writes made, the node and the shared
    [vpaths] as the call leaves them. *)
Fixpoint print (fuel : nat) (indent : string) (opts : Options) (node : Node)
    (vp : gmap string bool) : res PrintResult :=
  match fuel with
  | O => OutOfFuel
  | S fuel' =>
      match err node with
      | Some e =>
          let name := if FullPath opts then path node
                      else filepath_Base W (path node) in
          Ok ([WError (name +:+ " [" +:+ shortError e +:+ "]" +:+ newline)], node, vp)
      | None =>
          isDir ← Node_IsDir node;
          props ← (if isDir : bool then dirProps opts node else fileProps opts node);
          (* name/path *)
          name ← (if (depth node =? 0)%Z || FullPath opts then Ok (path node)
                  else Node_Name node);
          (* Quotes *)
          let name := if Quotes opts then dquote +:+ name +:+ dquote else name in
          (* Colorize *)
          let name := if Colorize opts then Options_color opts node name else name in
          (* IsSymlink *)
          mode ← Node_Mode node;
          '(name, node, vp) ←
            (if (Z.land mode ModeSymlink =? ModeSymlink)%Z
             then printSymlink (Visit W fuel' opts) opts node name vp
             else Ok (name, node, vp));
          (* Print first line of content *)
          contents ← printContents opts node;
          (* tree stuff *)
          '(out, children, vp) ←
            printNodes (fun ind n v => print fuel' ind opts n v) opts indent
              (nodes node) vp;
          Ok (writeProps props ++ [WName name] ++ contents ++ [WNewline] ++ out,
              set_nodes node children, vp)
      end
  end.

(** [(node *Node) Print] *)
Definition Print (fuel : nat) (opts : Options) (node : Node) (vp : gmap string bool)
  : res PrintResult :=
  print fuel EmptyString opts node vp.

End Render.

(* ===================================================================== *)
(** ** A world to run the engine in: the doubles of [node_test.go] *)
(* ===================================================================== *)

Module Mock.

(** A small regular-expression engine that stands in for package
    [regexp]: literal bytes, [.], [*], [|], groups and the flag [(?i)],
    with the leftmost match and, at that start, the match a backtracking
    search finds first. *)
Inductive rx :=
  | REmpty
  | RChar (c : ascii)
  | RAny
  | RSeq (a b : rx)
  | RAlt (a b : rx)
  | RStar (a : rx).

Definition lower (c : ascii) : ascii :=
  let n := nat_of_ascii c in
  if (65 <=? n) && (n <=? 90) then ascii_of_nat (n + 32) else c.

Definition ceq (ci : bool) (c d : ascii) : bool :=
  if ci then Ascii.eqb (lower c) (lower d) else Ascii.eqb c d.

Fixpoint rmatch (ci : bool) (r : rx) (s : string) (pos : nat)
    (k : string -> nat -> option nat) {struct r} : option nat :=
  match r with
  | REmpty => k s pos
  | RChar c =>
      match s with
      | String d s' => if ceq ci c d then k s' (S pos) else None
      | EmptyString => None
      end
  | RAny =>
      match s with
      | String d s' => if Ascii.eqb d "010" then None else k s' (S pos)
      | EmptyString => None
      end
  | RSeq a b => rmatch ci a s pos (fun s' p' => rmatch ci b s' p' k)
  | RAlt a b =>
      match rmatch ci a s pos k with
      | Some e => Some e
      | None => rmatch ci b s pos k
      end
  | RStar a =>
      (fix star (n : nat) (s : string) (pos : nat) {struct n} : option nat :=
         match n with
         | O => k s pos
         | S n' =>
             match rmatch ci a s pos
                     (fun s' p' => if p' =? pos then None else star n' s' p') with
             | Some e => Some e
             | None => k s pos
             end
         end) (S (String.length s)) s pos
  end.

Fixpoint find_from (ci : bool) (r : rx) (s : string) (pos : nat) : option (nat * nat) :=
  match rmatch ci r s pos (fun _ e => Some e) with
  | Some e => Some (pos, e)
  | None =>
      match s with
      | String _ s' => find_from ci r s' (S pos)
      | EmptyString => None
      end
  end.

Definition parse_atom (alt : string -> option (rx * string)) (s : string)
  : option (rx * string) :=
  match s with
  | String "(" s' =>
      match alt s' with
      | Some (r, String ")" s'') => Some (r, s'')
      | _ => None
      end
  | String ")" _ | String "|" _ | String "*" _ | EmptyString => None
  | String "." s' => Some (RAny, s')
  | String c s' => Some (RChar c, s')
  end.

Fixpoint parse_seq (alt : string -> option (rx * string)) (n : nat) (s : string)
    (acc : rx) : option (rx * string) :=
  match n with
  | O => None
  | S n' =>
      match s with
      | EmptyString | String ")" _ | String "|" _ => Some (acc, s)
      | _ =>
          match parse_atom alt s with
          | Some (r, String "*" s') => parse_seq alt n' s' (RSeq acc (RStar r))
          | Some (r, s') => parse_seq alt n' s' (RSeq acc r)
          | None => None
          end
      end
  end.

Fixpoint parse_alt (fuel : nat) (s : string) : option (rx * string) :=
  match fuel with
  | O => None
  | S f =>
      match parse_seq (parse_alt f) fuel s REmpty with
      | Some (r, String "|" s') =>
          match parse_alt f s' with
          | Some (r2, s'') => Some (RAlt r r2, s'')
          | None => None
          end
      | other => other
      end
  end.

Definition Compile (p : string) : option (string -> option (nat * nat)) :=
  let ci := String.prefix "(?i)" p in
  let p := if ci then slice p 4 (String.length p) else p in
  match parse_alt (S (String.length p)) p with
  | Some (r, EmptyString) => Some (fun s => find_from ci r s 0)
  | _ => None
  end.

(** The text after the last [/]. *)
Fixpoint Base_go (s cur : string) : string :=
  match s with
  | EmptyString => cur
  | String "/" s' => Base_go s' EmptyString
  | String c s' => Base_go s' (cur +:+ String c EmptyString)
  end.

Definition nilOr (f : FileInfo -> FileInfo -> bool) : SortFunc :=
  fun f1 f2 =>
    match f1, f2 with
    | Some a, Some b => f a b
    | _, _ => match f2 with None => true | Some _ => false end
    end.

(** The world of the tests: nothing of the mock file system exists on
    disk, so [Readlink] and [EvalSymlinks] fail; paths are relative to a
    working directory [/cwd] and already clean.  The comparators are
    modelled from the spec: by modification time, directories first, by
    name, by size; the version order is taken to be the order by name. *)
Definition world : World := {|
  filepath_Abs p := ("/cwd/" +:+ p, None);
  filepath_Clean p := p;
  filepath_Join a b := a +:+ "/" +:+ b;
  filepath_Base p := Base_go p EmptyString;
  filepath_EvalSymlinks p := (EmptyString, Some "lstat: no such file or directory");
  os_Readlink p := (EmptyString, Some "readlink: no such file or directory");
  regexp_Compile := Compile;
  user_LookupId _ := None;
  time_Now := 0%Z;
  Time_Year t := 0%Z;
  Time_Format t f := f;
  FileMode_String m := EmptyString;
  exec_file_mime _ := "inode/x-empty" +:+ newline;
  os_Open_Read _ := None;
  ANSIColor _ s := s;
  ModSort_fn := nilOr (fun a b => Time_Before (fiModTime a) (fiModTime b));
  DirSort_fn := nilOr (fun a b => fiIsDir a && negb (fiIsDir b));
  VerSort_fn := nilOr (fun a b => String.ltb (fiName a) (fiName b));
  SizeSort_fn := nilOr (fun a b => (fiSize a <? fiSize b)%Z);
  NameSort_fn := nilOr (fun a b => String.ltb (fiName a) (fiName b))
|}.

(** The mock [file] of the tests. *)
Inductive file := mkfile {
  f_name : string;
  f_size : Z;
  f_files : option (list file);
  f_lastMod : Time;
  f_stat : option Stat_t;
  f_mode : Z
}.

Definition zeroStat : Stat_t :=
  {| Ino := 0; Dev := 0; Uid := 0; Gid := 0; Ctim_Sec := 0 |}.

Definition file_info (f : file) : FileInfo :=
  {| fiName := f_name f;
     fiSize := f_size f;
     fiMode := f_mode f;
     fiModTime := f_lastMod f;
     fiIsDir := match f_files f with Some _ => true | None => false end;
     fiSys := Some (default zeroStat (f_stat f)) |}.

(** [addFile] *)
Fixpoint addFile (p : string) (f : file) (m : gmap string file) : gmap string file :=
  let m := <[p := f]> m in
  match f_files f with
  | Some l =>
      (fix each (l : list file) (m : gmap string file) : gmap string file :=
         match l with
         | [] => m
         | c :: l' => each l' (addFile (p +:+ "/" +:+ f_name c) c m)
         end) l m
  | None => m
  end.

(** [MockFs]: [Stat] fails on [root/bad]; [ReadDir] of a path that is
    not in the map would dereference nil and is never asked for here. *)
Definition MockFs (files : gmap string file) : FsT := {|
  Stat p :=
    if String.eqb p "root/bad" then (None, Some "stat failed")
    else (file_info <$> files !! p, None);
  ReadDir p :=
    match files !! p with
    | Some f => (f_name <$> default [] (f_files f), None)
    | None => ([], None)
    end
|}.

Definition mkOpts (fs : FsT) : Options := {|
  Fs := fs;
  All := false; DirsOnly := false; FullPath := false; IgnoreCase := false;
  FollowLink := false; DeepLevel := 0; Pattern := EmptyString;
  IPattern := EmptyString; MatchDirs := false; Prune := false;
  Contents := false; ByteSize := false; UnitSize := false; FileMode := false;
  ShowUid := false; ShowGid := false; LastMod := false; Quotes := false;
  Inodes := false; Device := false;
  NoSort := false; VerSort := false; ModSort := false; DirSort := false;
  NameSort := false; SizeSort := false; CTimeSort := false; ReverSort := false;
  NoIndent := false; Colorize := false; Color := None; Now := 0%Z
|}.

Definition plain (name : string) (size : Z) : file :=
  {| f_name := name; f_size := size; f_files := None; f_lastMod := 0%Z;
     f_stat := None; f_mode := 0%Z |}.

Definition dir (name : string) (size : Z) (files : list file) : file :=
  {| f_name := name; f_size := size; f_files := Some files; f_lastMod := 0%Z;
     f_stat := None; f_mode := 0%Z |}.

(** [tr.Visit(opts); tr.Print(opts)] on [New(p)]: the counters and the
    bytes written. *)
Definition visitAndPrint (fuel : nat) (opts : Options) (p : string)
  : res (Z * Z * string) :=
  '(root, (dirs, files), vp) ← Visit world fuel opts (New p) ∅;
  '(out, _, _) ← Print world fuel opts root vp;
  Ok (dirs, files, output out).

(** The tree of [TestSimple]. *)
Definition simpleRoot : file :=
  dir "root" 200
    [ plain "a" 50; plain "b" 50;
      dir "c" 100
        [ plain "d" 50; plain "e" 50; plain ".f" 0;
          dir "g" 100 [ plain "h" 50; plain "i" 50 ];
          plain "k" 50 ];
      plain "j" 50 ].

Definition simpleFs : FsT := MockFs (addFile "root" simpleRoot ∅).

(** The tree of [TestError]. *)
Definition errorRoot : file :=
  dir "root" 200 [ plain "a" 50; plain "b" 50; plain "j" 50; plain "bad" 50 ].

Definition errorFs : FsT := MockFs (addFile "root" errorRoot ∅).

(** The tree of [TestSimple] with a directory [root/c] that cannot be
    listed. *)
Definition unlistedFs : FsT := {|
  Stat := Stat simpleFs;
  ReadDir p :=
    if String.eqb p "root/c" then ([], Some "open root/c: permission denied")
    else ReadDir simpleFs p
|}.

(** A world with two symbolic links: [root/loop] to its own directory
    [root], and [root/sub/link] to the directory [target] beside [root].
    [Stat] does not follow links, as [os.Lstat]. *)
Definition linkWorld : World := {|
  filepath_Abs := filepath_Abs world;
  filepath_Clean := filepath_Clean world;
  filepath_Join := filepath_Join world;
  filepath_Base := filepath_Base world;
  filepath_EvalSymlinks p :=
    if String.eqb p "root/loop" then ("root", None)
    else if String.eqb p "root/sub/link" then ("target", None)
    else (p, None);
  os_Readlink p :=
    if String.eqb p "root/loop" then (".", None)
    else if String.eqb p "root/sub/link" then ("../../target", None)
    else (EmptyString, Some "readlink: invalid argument");
  regexp_Compile := Compile;
  user_LookupId := user_LookupId world;
  time_Now := time_Now world;
  Time_Year := Time_Year world;
  Time_Format := Time_Format world;
  FileMode_String := FileMode_String world;
  exec_file_mime := exec_file_mime world;
  os_Open_Read := os_Open_Read world;
  ANSIColor := ANSIColor world;
  ModSort_fn := ModSort_fn world;
  DirSort_fn := DirSort_fn world;
  VerSort_fn := VerSort_fn world;
  SizeSort_fn := SizeSort_fn world;
  NameSort_fn := NameSort_fn world
|}.

Definition symlink (name : string) : file :=
  {| f_name := name; f_size := 6; f_files := None; f_lastMod := 0%Z;
     f_stat := None; f_mode := ModeSymlink |}.

Definition linkRoot : file :=
  dir "root" 0 [ dir "sub" 0 [ symlink "link" ]; symlink "loop" ].

Definition linkFs : FsT :=
  MockFs (addFile "target" (dir "target" 0 [ plain "x" 7 ]) (addFile "root" linkRoot ∅)).

(** The default options with [FollowLink] set. *)
Definition following (fs : FsT) : Options := {|
  Fs := fs;
  All := false; DirsOnly := false; FullPath := false; IgnoreCase := false;
  FollowLink := true; DeepLevel := 0; Pattern := EmptyString;
  IPattern := EmptyString; MatchDirs := false; Prune := false;
  Contents := false; ByteSize := false; UnitSize := false; FileMode := false;
  ShowUid := false; ShowGid := false; LastMod := false; Quotes := false;
  Inodes := false; Device := false;
  NoSort := false; VerSort := false; ModSort := false; DirSort := false;
  NameSort := false; SizeSort := false; CTimeSort := false; ReverSort := false;
  NoIndent := false; Colorize := false; Color := None; Now := 0%Z
|}.

(** [Visit] then [Print] of [New(p)] in a world [W]: the counters, the
    writes and the tree as [Print] leaves it. *)
Definition run (W : World) (fuel : nat) (opts : Options) (p : string)
  : res (Z * Z * list Write * Node) :=
  '(root, (dirs, files), vp) ← Visit W fuel opts (New p) ∅;
  '(out, root, _) ← Print W fuel opts root vp;
  Ok (dirs, files, out, root).

End Mock.

(* ===================================================================== *)
(** * Properties *)
(* ===================================================================== *)

(** ** Strings *)

Fixpoint noSpace (s : string) : bool :=
  match s with
  | EmptyString => true
  | String c s' => negb (Ascii.eqb c " ") && noSpace s'
  end.

Lemma append_empty_r s : s +:+ EmptyString = s.
Proof.
  induction s as [|c s IH]; [done|].
  change (String c (s +:+ EmptyString) = String c s). by rewrite IH.
Qed.

Lemma noSpace_app s t : noSpace (s +:+ t) = noSpace s && noSpace t.
Proof.
  induction s as [|c s IH]; simpl; [done|].
  by rewrite IH, andb_assoc.
Qed.

Lemma TrimLeft_noSpace s : noSpace s = true -> TrimLeft_space s = s.
Proof.
  destruct s as [|c s]; simpl; [done|].
  intros [Hc _]%andb_true_iff.
  destruct c as [[] [] [] [] [] [] [] []]; try done.
Qed.

Lemma TrimRight_noSpace s : noSpace s = true -> TrimRight_space s = s.
Proof.
  induction s as [|c s IH]; simpl; [done|].
  intros [Hc Hs]%andb_true_iff. rewrite (IH Hs).
  destruct c as [[] [] [] [] [] [] [] []]; try done.
Qed.

Lemma Trim_noSpace s : noSpace s = true -> Trim_space s = s.
Proof.
  intros H. unfold Trim_space. by rewrite (TrimLeft_noSpace _ H), TrimRight_noSpace.
Qed.

Lemma noSpace_pretty_N_go x s : noSpace s = true -> noSpace (pretty_N_go x s) = true.
Proof.
  revert s. induction (N.lt_wf_0 x) as [x _ IH]; intros s Hs.
  assert (x = 0 ∨ 0 < x)%N as [->|?] by lia.
  - by rewrite pretty_N_go_0.
  - rewrite pretty_N_go_step by done. apply IH.
    { by apply N.div_lt. }
    simpl. rewrite Hs. unfold pretty_N_char. by repeat case_match.
Qed.

Lemma noSpace_pretty_N (x : N) : noSpace (pretty x) = true.
Proof.
  unfold pretty, pretty_N. case_decide; [done|]. by apply noSpace_pretty_N_go.
Qed.

Lemma noSpace_pretty_Z (z : Z) : noSpace (pretty z) = true.
Proof.
  destruct z as [|p|p]; simpl; [done| |]; apply (noSpace_pretty_N (Npos p)).
Qed.

Lemma noSpace_zeros n : noSpace (zeros n) = true.
Proof. induction n; simpl; [done|]. by rewrite IHn. Qed.

Lemma noSpace_Sprintf_f prec x : noSpace (Sprintf_f prec x) = true.
Proof.
  unfold Sprintf_f. rewrite !noSpace_app, noSpace_pretty_Z.
  destruct (mant x <? 0)%Z; simpl;
    (destruct prec; [done|]);
    by rewrite !noSpace_app, noSpace_zeros, noSpace_pretty_Z.
Qed.

(** ** The byte formatter *)

(** The units, the largest first, each with the exponent of its power of
    two. *)
Definition units : list (Z * string) :=
  [(60, "E"); (50, "P"); (40, "T"); (30, "G"); (20, "M"); (10, "K")]%Z.

(** The largest unit strictly less than [i], if there is one. *)
Definition unitBelow (i : Z) : option (Z * string) :=
  List.find (fun u => (2 ^ u.1 <? i)%Z) units.

Lemma formatBytes_unit (i : Z) :
  formatBytes i =
    match unitBelow i with
    | None => Sprintf_f 0 (float64_of_int64 i)
    | Some (s, suffix) =>
        let n := float64_div_pow2 (float64_of_int64 i) s in
        Sprintf_f (if float64_ge10 n then 0 else 1) n +:+ suffix
    end.
Proof.
  unfold formatBytes, unitBelow, units, List.find, fst.
  rewrite !Z.gtb_ltb.
  change EB with (2 ^ 60)%Z. change PB with (2 ^ 50)%Z. change TB with (2 ^ 40)%Z.
  change GB with (2 ^ 30)%Z. change MB with (2 ^ 20)%Z. change KB with (2 ^ 10)%Z.
  repeat (case_match; simplify_eq; simpl nonempty; cbv iota beta;
          try (rewrite Trim_noSpace;
               [done | by rewrite ?noSpace_app, noSpace_Sprintf_f])).
  rewrite append_empty_r. apply Trim_noSpace, noSpace_Sprintf_f.
Qed.

Lemma unitBelow_Some i s suffix :
  unitBelow i = Some (s, suffix) ->
  In (s, suffix) units ∧ (2 ^ s < i)%Z ∧
  ∀ s' x, In (s', x) units -> (2 ^ s' < i)%Z -> (s' <= s)%Z.
Proof.
  unfold unitBelow. intros H. split; [|split].
  - by apply find_some in H as [? _].
  - apply find_some in H as [_ H]. simpl in H. lia.
  - intros s' x Hin Hlt. revert H. unfold units in *. simpl.
    repeat (case_match; [intros [= <- <-] | ]); [..|done];
      simpl in Hin; intuition simplify_eq; lia.
Qed.

Lemma unitBelow_None i : unitBelow i = None -> (i <= 2 ^ 10)%Z.
Proof.
  unfold unitBelow. intros H.
  pose proof (find_none _ _ H (10, "K")%Z) as Hk. simpl in Hk.
  assert ((2 ^ 10 <? i)%Z = false) by (apply Hk; unfold units; simpl; tauto).
  lia.
Qed.

Lemma Sprintf_f_integer (i : Z) :
  Sprintf_f 0 {| mant := i; binexp := 0 |} = pretty i.
Proof.
  unfold Sprintf_f, roundHalfEven. cbn [mant binexp Z.of_nat].
  change (10 ^ 0)%Z with 1%Z. change (2 ^ 0)%Z with 1%Z.
  rewrite !Z.mul_1_r, !Z.div_1_r, Z.mod_1_r, Z.mul_0_r. simpl orb.
  rewrite append_empty_r.
  destruct i as [|p|p]; simpl; done.
Qed.

(** C7.  [formatBytes] takes the largest of the units K, M, G, T, P, E
    that is strictly less than the value, by strict comparisons, so that a
    value equal to a unit (1024) is rendered in the unit below; it prints
    one decimal digit ([%.1f]) unless the scaled value is at least 10 or
    no unit applies, where it prints none ([%.0f]), and the plain-bytes
    case has no suffix.  999 gives "999", 1025 gives "1.0K" and 10240
    gives "10K". *)
Theorem formatBytes_largest_unit_strictly_below :
  (∀ i : Z,
     match unitBelow i with
     | None =>
         (i <= 2 ^ 10)%Z ∧
         formatBytes i = Sprintf_f 0 (float64_of_int64 i) ∧
         ((- 2 ^ 53 < i)%Z -> formatBytes i = Itoa i)
     | Some (s, suffix) =>
         In (s, suffix) units ∧ (2 ^ s < i)%Z ∧
         (∀ s' x, In (s', x) units -> (2 ^ s' < i)%Z -> (s' <= s)%Z) ∧
         let n := float64_div_pow2 (float64_of_int64 i) s in
         formatBytes i = Sprintf_f (if float64_ge10 n then 0 else 1) n +:+ suffix
     end) ∧
  formatBytes 1024 = "1024" ∧
  formatBytes 999 = "999" ∧
  formatBytes 1025 = "1.0K" ∧
  formatBytes 10240 = "10K".
Proof.
  split; [|by vm_compute].
  intros i. pose proof (formatBytes_unit i) as Hf.
  destruct (unitBelow i) as [[s suffix]|] eqn:Hu.
  - destruct (unitBelow_Some _ _ _ Hu) as (? & ? & ?). done.
  - pose proof (unitBelow_None _ Hu). split; [done|]. split; [done|].
    intros Hlow. rewrite Hf. unfold float64_of_int64, Itoa.
    assert ((Z.abs i <? 2 ^ 53)%Z = true) as -> by lia.
    apply Sprintf_f_integer.
Qed.

(** ** The line of a node that recorded an error *)

(** The text after the first occurrence of [sep] in [s], if [sep] occurs. *)
Fixpoint tailAfter (sep s : string) : option string :=
  if String.prefix sep s then Some (slice s (String.length sep) (String.length s))
  else
    match s with
    | EmptyString => None
    | String _ s' => tailAfter sep s'
    end.

Lemma append_assoc (s t u : string) : (s +:+ t) +:+ u = s +:+ (t +:+ u).
Proof.
  induction s as [|c s IH]; [done|].
  change (String c ((s +:+ t) +:+ u) = String c (s +:+ (t +:+ u))). by rewrite IH.
Qed.

Lemma append_cons c s t : String c s +:+ t = String c (s +:+ t).
Proof. done. Qed.

Lemma prefix_sep_cons c s :
  String.prefix ": " (String c s) =
    Ascii.eqb c ":" && match s with String d _ => Ascii.eqb d " " | EmptyString => false end.
Proof.
  cbn [String.prefix]. destruct (ascii_dec ":" c) as [<-|Hne].
  - simpl. destruct s as [|d s]; [done|]. cbn [String.prefix].
    destruct (ascii_dec " " d) as [<-|Hne]; [by destruct s|].
    symmetry. apply Ascii.eqb_neq. congruence.
  - assert (Ascii.eqb c ":" = false) as -> by (apply Ascii.eqb_neq; congruence).
    done.
Qed.

Lemma Split_go_no_sep a cur :
  Contains a ": " = false -> Split_go ": " a 0 cur = [cur +:+ a].
Proof.
  revert cur. induction a as [|c a IH]; intros cur H.
  - by rewrite append_empty_r.
  - cbn [Contains] in H. apply orb_false_iff in H as [Hp Ha].
    cbn [Split_go]. rewrite Hp, (IH _ Ha), append_assoc. reflexivity.
Qed.

Lemma Split_go_first_sep a t cur :
  Contains a ": " = false ->
  Split_go ": " (a +:+ ": " +:+ t) 0 cur = (cur +:+ a) :: Split_go ": " t 0 EmptyString.
Proof.
  revert cur. induction a as [|c a IH]; intros cur H.
  - rewrite append_empty_r.
    change (EmptyString +:+ ": " +:+ t) with (String ":" (String " " t)).
    cbn [Split_go]. rewrite prefix_sep_cons. reflexivity.
  - cbn [Contains] in H. apply orb_false_iff in H as [Hp Ha].
    rewrite append_cons. cbn [Split_go].
    assert (String.prefix ": " (String c (a +:+ ": " +:+ t)) = false) as ->.
    { rewrite prefix_sep_cons in Hp |- *.
      destruct (Ascii.eqb c ":"); [|done]. simpl in *.
      destruct a as [|d a]; [done|]. by rewrite append_cons. }
    rewrite (IH _ Ha), append_assoc. reflexivity.
Qed.

Lemma shortError_no_sep e : Contains e ": " = false -> shortError e = e.
Proof.
  intros H. unfold shortError, Split. by rewrite (Split_go_no_sep _ _ H).
Qed.

Lemma shortError_last_segment a b :
  Contains a ": " = false -> Contains b ": " = false ->
  shortError (a +:+ ": " +:+ b) = b.
Proof.
  intros Ha Hb. unfold shortError, Split.
  by rewrite (Split_go_first_sep _ _ _ Ha), (Split_go_no_sep _ _ Hb).
Qed.

Lemma shortError_second_segment a b c :
  Contains a ": " = false -> Contains b ": " = false ->
  shortError (a +:+ ": " +:+ b +:+ ": " +:+ c) = b.
Proof.
  intros Ha Hb. unfold shortError, Split.
  by rewrite (Split_go_first_sep _ _ _ Ha), (Split_go_first_sep _ _ _ Hb).
Qed.

(** The name an error line starts with. *)
Definition errorName (W : World) (opts : Options) (node : Node) : string :=
  if FullPath opts then path node else filepath_Base W (path node).

(** C2, amended.  A node that recorded an error is rendered as the one
    line [<displayName> [<message>]], with no annotation block and no
    visit of its children, and the node and the visited paths are left as
    they were.  The message is the whole error text when it has no [": "];
    otherwise it is the segment between the first [": "] and the second
    (the whole tail when there is no second). *)
Theorem print_error_line (W : World) (fuel : nat) (indent : string) (opts : Options)
    (node : Node) (vp : gmap string bool) (e : error) :
  err node = Some e ->
  print W (S fuel) indent opts node vp =
    Ok ([WError (errorName W opts node +:+ " [" +:+ shortError e +:+ "]" +:+ newline)],
        node, vp) ∧
  (Contains e ": " = false -> shortError e = e) ∧
  (∀ a b, e = a +:+ ": " +:+ b -> Contains a ": " = false ->
          Contains b ": " = false -> shortError e = b) ∧
  (∀ a b c, e = a +:+ ": " +:+ b +:+ ": " +:+ c -> Contains a ": " = false ->
            Contains b ": " = false -> shortError e = b).
Proof.
  intros He. split; [|split; [|split]].
  - cbn [print]. by rewrite He.
  - apply shortError_no_sep.
  - intros a b ->. apply shortError_last_segment.
  - intros a b c ->. apply shortError_second_segment.
Qed.

Definition badNode : Node :=
  {| info := None; path := "root/bad"; depth := 1;
     err := Some "open root/bad: permission denied: retry"; nodes := [] |}.

Lemma print_error_line_witness :
  err badNode = Some "open root/bad: permission denied: retry" ∧
  print Mock.world 1 EmptyString (Mock.mkOpts Mock.errorFs) badNode ∅ =
    Ok ([WError ("bad [permission denied]" +:+ newline)], badNode, ∅).
Proof.
  split; [reflexivity|].
  destruct (print_error_line Mock.world 0 EmptyString (Mock.mkOpts Mock.errorFs)
              badNode ∅ _ eq_refl) as [H _].
  rewrite H. reflexivity.
Defined.

(** C2 as stated fails: the message of an error text with two separators
    is not the entire tail after the first one. *)
Lemma print_error_line_not_entire_tail :
  tailAfter ": " "open root/bad: permission denied: retry"
    = Some "permission denied: retry" ∧
  print Mock.world 1 EmptyString (Mock.mkOpts Mock.errorFs) badNode ∅
    = Ok ([WError ("bad [permission denied]" +:+ newline)], badNode, ∅) ∧
  print Mock.world 1 EmptyString (Mock.mkOpts Mock.errorFs) badNode ∅
    ≠ Ok ([WError ("bad [permission denied: retry]" +:+ newline)], badNode, ∅).
Proof. split; [|split]; [by vm_compute..|]. vm_compute. discriminate. Qed.

(** ** Results *)

Lemma res_bind_Ok {A B} (m : res A) (f : A -> res B) (r : B) :
  m ≫= f = Ok r -> ∃ a, m = Ok a ∧ f a = Ok r.
Proof. destruct m as [a| |]; simpl; [eauto|done|done]. Qed.

Ltac inv_bind H :=
  let a := fresh "a" in
  let Ha := fresh "Ha" in
  apply res_bind_Ok in H as (a & Ha & H).

(** Whether a run returned. *)
Definition isOk {A} (r : res A) : bool :=
  match r with Ok _ => true | _ => false end.

Lemma Node_method_Ok {A} (f : FileInfo -> A) node fi :
  info node = Some fi -> Node_method f node = Ok (f fi).
Proof. unfold Node_method. by intros ->. Qed.

(** ** The matcher *)

(** The text a pattern is matched against. *)
Definition candidate (node : Node) (fi : FileInfo) (pattern : string) : string :=
  if Contains pattern "*" then path node else fiName fi.

(** The expression that is compiled. *)
Definition compiled (pattern : string) (opt : Options) : string :=
  (if IgnoreCase opt then "(?i)" else "") +:+ pattern.

Lemma Node_match_unfold W node fi pattern opt :
  info node = Some fi ->
  Node_match W node pattern opt =
    match regexp_Compile W (compiled pattern opt) with
    | None => Ok false
    | Some re => Ok (nonempty (FindString re (candidate node fi pattern)))
    end.
Proof.
  intros Hi. unfold Node_match, Node_Name. rewrite (Node_method_Ok _ _ _ Hi).
  reflexivity.
Qed.

(** C6.  The pattern, behind [(?i)] when case is ignored, is compiled as
    a regular expression and searched for in the name of the entry, or in
    its path when the pattern holds a [*]; the answer is whether the text
    found is not empty.  A pattern that does not compile gives "no match"
    for every entry, and the matcher returns in every case. *)
Theorem match_name_or_path_and_invalid_pattern (W : World) (node : Node)
    (fi : FileInfo) (pattern : string) (opt : Options) :
  info node = Some fi ->
  (∃ b, Node_match W node pattern opt = Ok b) ∧
  (regexp_Compile W (compiled pattern opt) = None ->
   Node_match W node pattern opt = Ok false) ∧
  (∀ re, regexp_Compile W (compiled pattern opt) = Some re ->
     (Contains pattern "*" = false ->
      Node_match W node pattern opt = Ok (nonempty (FindString re (fiName fi)))) ∧
     (Contains pattern "*" = true ->
      Node_match W node pattern opt = Ok (nonempty (FindString re (path node))))).
Proof.
  intros Hi. rewrite (Node_match_unfold _ _ _ _ _ Hi). unfold candidate.
  split; [|split].
  - destruct (regexp_Compile _ _); eauto.
  - by intros ->.
  - intros re ->. split; by intros ->.
Qed.

Definition fileNode (p name : string) (d : Z) : Node :=
  {| info := Some (Mock.file_info (Mock.plain name 50)); path := p; depth := d;
     err := None; nodes := [] |}.

Lemma match_name_or_path_and_invalid_pattern_witness :
  Node_match Mock.world (fileNode "root/c/e" "e" 2) "(" (Mock.mkOpts Mock.simpleFs)
    = Ok false ∧
  Node_match Mock.world (fileNode "root/c/e" "e" 2) "(c)" (Mock.mkOpts Mock.simpleFs)
    = Ok false ∧
  Node_match Mock.world (fileNode "root/c/e" "e" 2) "(c.*)" (Mock.mkOpts Mock.simpleFs)
    = Ok true.
Proof.
  pose proof (match_name_or_path_and_invalid_pattern Mock.world
                (fileNode "root/c/e" "e" 2) _ "(" (Mock.mkOpts Mock.simpleFs) eq_refl)
    as (_ & H & _).
  split; [apply H; reflexivity|]. split; reflexivity.
Defined.

Lemma substring_0 (s : string) (a : nat) : String.substring a 0 s = EmptyString.
Proof.
  revert a. induction s as [|c s IH]; intros [|a]; simpl; auto.
Qed.

Lemma FindString_empty_match re s a : re s = Some (a, a) -> FindString re s = EmptyString.
Proof.
  intros H. unfold FindString, slice. rewrite H, Nat.sub_diag. apply substring_0.
Qed.

(** C10.  A match is recognised only when the text found is not empty:
    whenever the leftmost match of the expression in the text is an empty
    substring, the matcher says "no match". *)
Theorem match_empty_leftmost_is_no_match (W : World) (node : Node) (fi : FileInfo)
    (pattern : string) (opt : Options) (re : string -> option (nat * nat)) (a : nat) :
  info node = Some fi ->
  regexp_Compile W (compiled pattern opt) = Some re ->
  re (candidate node fi pattern) = Some (a, a) ->
  Node_match W node pattern opt = Ok false.
Proof.
  intros Hi Hc Hm. rewrite (Node_match_unfold _ _ _ _ _ Hi), Hc.
  by rewrite (FindString_empty_match _ _ _ Hm).
Qed.

Definition xStar : string -> option (nat * nat) :=
  default (fun _ => None) (Mock.Compile "x*").

(** The pattern [x*] finds the empty text at the start of [abc], and of
    [axb] as well. *)
Lemma match_empty_leftmost_is_no_match_witness :
  xStar "abc" = Some (0, 0) ∧
  Node_match Mock.world (fileNode "root/abc" "abc" 1) "x*" (Mock.mkOpts Mock.simpleFs)
    = Ok false ∧
  Node_match Mock.world (fileNode "root/axb" "axb" 1) "x*" (Mock.mkOpts Mock.simpleFs)
    = Ok false ∧
  Node_match Mock.world (fileNode "root/axb" "axb" 1) "x" (Mock.mkOpts Mock.simpleFs)
    = Ok true.
Proof.
  split; [reflexivity|]. split; [|split; reflexivity].
  apply (match_empty_leftmost_is_no_match Mock.world _
           (Mock.file_info (Mock.plain "abc" 50)) "x*" _ xStar 0);
    reflexivity.
Defined.

(** ** Trees of nodes *)

Lemma Node_nested_ind (P : Node -> Prop) :
  (∀ i p d e ns, Forall P ns -> P (mkNode i p d e ns)) -> ∀ n, P n.
Proof.
  intros H. fix IH 1. intros [i p d e ns]. apply H.
  revert ns. fix IHns 1. intros [|c ns]; constructor; [apply IH | apply IHns].
Qed.

(** The nodes strictly below [node], in the order of a pre-order walk. *)
Fixpoint descendants (node : Node) : list Node :=
  (fix below (ns : list Node) : list Node :=
     match ns with
     | [] => []
     | c :: rest => c :: descendants c ++ below rest
     end) (nodes node).

Definition descendantsOf (ns : list Node) : list Node :=
  flat_map (fun c => c :: descendants c) ns.

Lemma descendants_unfold node : descendants node = descendantsOf (nodes node).
Proof.
  destruct node as [i p d e ns]. cbn [descendants nodes]. unfold descendantsOf.
  induction ns as [|c ns IH]; [done|]. cbn [flat_map]. by rewrite <- IH.
Qed.

(** A node as [Visit] leaves a fresh one: a node whose [Stat] failed, a
    file, a directory whose listing failed, or a directory with its
    children. *)
Fixpoint built (node : Node) : bool :=
  match info node, err node with
  | None, None => false
  | None, Some _ => match nodes node with [] => true | _ => false end
  | Some fi, Some _ => fiIsDir fi && match nodes node with [] => true | _ => false end
  | Some fi, None =>
      if fiIsDir fi then
        (fix all (ns : list Node) : bool :=
           match ns with
           | [] => true
           | c :: rest => built c && all rest
           end) (nodes node)
      else match nodes node with [] => true | _ => false end
  end.

Lemma built_dir node fi :
  info node = Some fi -> err node = None -> fiIsDir fi = true ->
  built node = forallb built (nodes node).
Proof.
  destruct node as [i p d e ns]. cbn [info err nodes built]. intros -> -> ->.
  induction ns as [|c ns IH]; [done|]. cbn [forallb]. by rewrite <- IH.
Qed.

(** ** The size aggregator *)

(** The size a node adds to the sum: its own when it is not a directory. *)
Definition fileSize (n : Node) : Z :=
  match info n with
  | Some fi => if fiIsDir fi then 0%Z else fiSize fi
  | None => 0%Z
  end.

Definition sumSizes (ns : list Node) : Z := foldr Z.add 0%Z (fileSize <$> ns).

(** The sum of the sizes of all the descendants that are not directories. *)
Definition fileSizes (node : Node) : Z := sumSizes (descendants node).

Lemma sumSizes_app l k : sumSizes (l ++ k) = (sumSizes l + sumSizes k)%Z.
Proof.
  unfold sumSizes. rewrite fmap_app.
  induction (fileSize <$> l) as [|x l' IH]; simpl; [done|]. rewrite IH. lia.
Qed.

Lemma wrap64_add_l a b : wrap64 (wrap64 a + b) = wrap64 (a + b).
Proof.
  unfold wrap64. f_equal.
  replace ((a + 2 ^ 63) mod 2 ^ 64 - 2 ^ 63 + b + 2 ^ 63)%Z
    with ((a + 2 ^ 63) mod 2 ^ 64 + b)%Z by lia.
  rewrite Zplus_mod_idemp_l. f_equal. lia.
Qed.

Lemma wrap64_add_r a b : wrap64 (a + wrap64 b) = wrap64 (a + b).
Proof. rewrite Z.add_comm, wrap64_add_l. f_equal. lia. Qed.

Lemma wrap64_id z : is_int64 z -> wrap64 z = z.
Proof.
  unfold is_int64, wrap64. intros H. rewrite Z.mod_small; lia.
Qed.

(** The errors a loop over [ns] can meet. *)
Definition recorded (ns : list Node) (x : error) : Prop :=
  ∃ d, d ∈ descendantsOf ns ∧ err d = Some x.

Definition aggregates (opts : Options) (node : Node) : Prop :=
  ∃ e, dirRecursiveSize opts node = Ok (wrap64 (fileSizes node), e) ∧
       (∀ x, recorded (nodes node) x -> e ≠ None) ∧
       (∀ x, e = Some x -> x = "Depth too high" ∨ recorded (nodes node) x).

Lemma recorded_cons_here c ns x : err c = Some x -> recorded (c :: ns) x.
Proof.
  intros H. exists c. split; [|done].
  change (c ∈ (c :: descendants c) ++ descendantsOf ns).
  rewrite elem_of_app, elem_of_cons. auto.
Qed.

Lemma recorded_cons_inv c ns x :
  recorded (c :: ns) x -> err c = Some x ∨ recorded (nodes c) x ∨ recorded ns x.
Proof.
  intros (d & Hd & Hx).
  change (d ∈ (c :: descendants c) ++ descendantsOf ns) in Hd.
  rewrite elem_of_app, elem_of_cons in Hd. destruct Hd as [[->|Hd]|Hd].
  - by left.
  - right; left. exists d. by rewrite <- descendants_unfold.
  - right; right. by exists d.
Qed.

Lemma recorded_cons_below c ns x : recorded (nodes c) x -> recorded (c :: ns) x.
Proof.
  intros (d & Hd & Hx). exists d. split; [|done].
  change (d ∈ (c :: descendants c) ++ descendantsOf ns).
  rewrite elem_of_app, elem_of_cons, descendants_unfold. auto.
Qed.

Lemma recorded_cons_rest c ns x : recorded ns x -> recorded (c :: ns) x.
Proof.
  intros (d & Hd & Hx). exists d. split; [|done].
  change (d ∈ (c :: descendants c) ++ descendantsOf ns).
  rewrite elem_of_app. auto.
Qed.

Lemma wrap64_range z : is_int64 (wrap64 z).
Proof.
  unfold is_int64, wrap64.
  pose proof (Z.mod_pos_bound (z + 2 ^ 63) (2 ^ 64)). lia.
Qed.

Lemma sizeLoop_sum opts ns :
  Forall (fun c => built c = true -> aggregates opts c) ns ->
  forallb built ns = true ->
  ∀ size e0, is_int64 size -> ∃ e,
    sizeLoop (dirRecursiveSize opts) ns size e0
      = Ok (wrap64 (size + sumSizes (descendantsOf ns)), e) ∧
    (e0 ≠ None -> e ≠ None) ∧
    (∀ x, recorded ns x -> e ≠ None) ∧
    (∀ x, e = Some x -> e0 = Some x ∨ x = "Depth too high" ∨ recorded ns x).
Proof.
  induction 1 as [|c ns Hc _ IH]; intros Hb size e0 Hsize.
  - exists e0. cbn. rewrite Z.add_0_r, (wrap64_id _ Hsize).
    split; [|split; [|split]]; auto.
    intros x (d & Hd & _). by apply elem_of_nil in Hd.
  - cbn [forallb] in Hb. apply andb_true_iff in Hb as [Hbc Hbns].
    specialize (IH Hbns).
    assert (descendantsOf (c :: ns) = c :: descendants c ++ descendantsOf ns) as Hd
      by done.
    rewrite Hd. unfold sumSizes at 1. cbn [fmap list_fmap foldr].
    fold (sumSizes (descendants c ++ descendantsOf ns)). rewrite sumSizes_app.
    cbn [sizeLoop].
    destruct c as [i p d [x0|] cs]; cbn [err info nodes] in *.
    + (* an error was recorded on the child *)
      assert (cs = [] ∧ fileSize (mkNode i p d (Some x0) cs) = 0%Z) as [-> Hfs].
      { unfold fileSize. cbn [built info err nodes] in Hbc.
        destruct i as [fi|], cs; try done; cbn [info].
        - apply andb_true_iff in Hbc as [-> _]. done.
        - by apply andb_true_iff in Hbc as [_ ?]. }
      rewrite Hfs. change (sumSizes (descendants _)) with 0%Z at 1.
      destruct (IH size (Some x0) Hsize) as (e & -> & Hk & Hr & Hs).
      exists e. replace (size + (0 + (0 + sumSizes (descendantsOf ns))))%Z
        with (size + sumSizes (descendantsOf ns))%Z by lia.
      split; [done|]. split; [auto|]. split; [auto|].
      intros x Hx. destruct (Hs x Hx) as [[= ->]|[->|Hns]]; [|by auto|].
      * right; right. by apply recorded_cons_here.
      * right; right. by apply recorded_cons_rest.
    + destruct i as [fi|]; [|done].
      unfold Node_IsDir, Node_Size.
      unfold Node_method; cbn [info]. unfold mbind, res_bind.
      destruct (fiIsDir fi) eqn:Hdir.
      * (* a directory *)
        destruct (Hc Hbc) as (e1 & Hrec & Hr1 & Hs1). rewrite Hrec.
        set (e0' := match e1 with Some _ => e1 | None => e0 end).
        destruct (IH (int64_add size (wrap64 (fileSizes (mkNode (Some fi) p d None cs))))
                    e0' (wrap64_range _)) as (e & -> & Hk & Hr & Hs).
        exists e. split; [|split; [|split]].
        -- f_equal. f_equal. unfold int64_add, fileSize, fileSizes. cbn [info].
           rewrite Hdir, wrap64_add_l.
           rewrite <- Z.add_assoc, (Z.add_comm (wrap64 _)), Z.add_assoc, wrap64_add_r.
           f_equal. lia.
        -- intros He0. apply Hk. subst e0'. by destruct e1.
        -- intros x [Hx|[Hx|Hx]]%recorded_cons_inv; [done| |by eauto].
           apply Hk. subst e0'. specialize (Hr1 x Hx). by destruct e1.
        -- intros x Hx. destruct (Hs x Hx) as [He|[->|Hns]]; [|by auto|].
           ++ subst e0'. destruct e1 as [x1|]; [|by auto]. simplify_eq.
              destruct (Hs1 x eq_refl) as [->|Hx1]; [by auto|].
              right; right. by apply recorded_cons_below.
           ++ right; right. by apply recorded_cons_rest.
      * (* a file *)
        assert (cs = []) as ->.
        { cbn [built info err nodes] in Hbc. rewrite Hdir in Hbc. by destruct cs. }
        destruct (IH (int64_add size (fiSize fi)) e0 (wrap64_range _))
          as (e & -> & Hk & Hr & Hs).
        exists e. split; [|split; [|split]].
        -- f_equal. f_equal. unfold int64_add, fileSize. cbn [info].
           rewrite Hdir, wrap64_add_l. change (sumSizes (descendants _)) with 0%Z.
           f_equal. lia.
        -- done.
        -- intros x [Hx|[Hx|Hx]]%recorded_cons_inv; [done| |by eauto].
           destruct Hx as (d0 & Hd0 & _). by apply elem_of_nil in Hd0.
        -- intros x Hx. destruct (Hs x Hx) as [He|[->|Hns]]; [by auto|by auto|].
           right; right. by apply recorded_cons_rest.
Qed.

Lemma built_children node : built node = true -> forallb built (nodes node) = true.
Proof.
  intros H. destruct node as [[fi|] p d [x|] ns].
  - cbn [built info err nodes] in *. apply andb_true_iff in H as [_ H]. by destruct ns.
  - destruct (fiIsDir fi) eqn:Hdir.
    + by rewrite (built_dir (mkNode (Some fi) p d None ns) fi eq_refl eq_refl Hdir) in H.
    + cbn [built info err nodes] in *. rewrite Hdir in H. by destruct ns.
  - cbn [built info err nodes] in *. by destruct ns.
  - done.
Qed.

Lemma dirRecursiveSize_aggregates opts node : built node = true -> aggregates opts node.
Proof.
  induction node as [i p d e ns IH] using Node_nested_ind. intros Hb.
  pose proof (built_children _ Hb) as Hns. cbn [nodes] in Hns.
  unfold aggregates. cbn [dirRecursiveSize nodes depth].
  set (err0 := if ((0 <? DeepLevel opts)%Z && (DeepLevel opts <=? d)%Z)%bool
               then Some "Depth too high" else None).
  destruct (sizeLoop_sum opts ns IH Hns 0%Z err0) as (e' & Hrun & _ & Hr & Hs).
  { unfold is_int64. lia. }
  exists e'. split; [|split].
  - rewrite Hrun. unfold fileSizes. by rewrite descendants_unfold.
  - done.
  - intros x Hx. destruct (Hs x Hx) as [He0|[->|Hrec]]; [|by auto..].
    left. subst err0. by destruct (_ && _); simplify_eq.
Qed.

(** C8.  On a tree as the visitor builds it, the aggregator returns, in
    [int64] arithmetic, the sum of the sizes of all the descendants that
    are not directories (a directory adds what is below it and never its
    own size): the sum itself whenever it fits 64 bits.  An error
    recorded on a descendant makes the aggregator return an error next to
    that sum; the error returned is one that was recorded or the one of
    the depth limit. *)
Theorem dirRecursiveSize_sum_of_files (opts : Options) (node : Node) :
  built node = true ->
  ∃ size e,
    dirRecursiveSize opts node = Ok (size, e) ∧
    size = wrap64 (fileSizes node) ∧
    (is_int64 (fileSizes node) -> size = fileSizes node) ∧
    (∀ d x, d ∈ descendants node -> err d = Some x -> e ≠ None) ∧
    (∀ x, e = Some x ->
          x = "Depth too high" ∨ ∃ d, d ∈ descendants node ∧ err d = Some x).
Proof.
  intros Hb. destruct (dirRecursiveSize_aggregates opts node Hb) as (e & Hrun & Hr & Hs).
  exists (wrap64 (fileSizes node)), e. split; [done|]. split; [done|].
  split; [apply wrap64_id|]. split.
  - intros d x Hd Hx. apply (Hr x). exists d. by rewrite <- descendants_unfold.
  - intros x Hx. destruct (Hs x Hx) as [->|(d & Hd & Hdx)]; [by left|].
    right. exists d. by rewrite descendants_unfold.
Qed.

(** The tree [Visit] builds for the root of a mock file system. *)
Definition visited (fs : FsT) : Node :=
  match Visit Mock.world 10 (Mock.mkOpts fs) (New "root") ∅ with
  | Ok (root, _, _) => root
  | _ => New "root"
  end.

Lemma dirRecursiveSize_sum_of_files_witness :
  built (visited Mock.errorFs) = true ∧
  dirRecursiveSize (Mock.mkOpts Mock.errorFs) (visited Mock.errorFs)
    = Ok (150%Z, Some "stat failed") ∧
  built (visited Mock.simpleFs) = true ∧
  dirRecursiveSize (Mock.mkOpts Mock.simpleFs) (visited Mock.simpleFs)
    = Ok (400%Z, None).
Proof.
  assert (built (visited Mock.errorFs) = true) as Hb by (vm_compute; reflexivity).
  destruct (dirRecursiveSize_sum_of_files (Mock.mkOpts Mock.errorFs) _ Hb)
    as (size & e & Hrun & _).
  split; [exact Hb|]. split; [|split]; vm_compute; reflexivity.
Defined.

(** ** The annotation block of a directory *)

Lemma sizeLoop_ext (f g : Node -> res (Z * option error)) ns :
  Forall (fun c => f c = g c) ns ->
  ∀ size e0, sizeLoop f ns size e0 = sizeLoop g ns size e0.
Proof.
  induction 1 as [|c ns Hc _ IH]; intros size e0; [done|].
  cbn [sizeLoop]. rewrite Hc.
  destruct (err c); [done|].
  destruct (Node_IsDir c) as [[]| |]; cbn; try done.
  - destruct (g c) as [[nsize e]| |]; cbn; done.
  - destruct (Node_Size c); cbn; done.
Qed.

Lemma dirRecursiveSize_ext opts opts' node :
  DeepLevel opts' = DeepLevel opts ->
  dirRecursiveSize opts' node = dirRecursiveSize opts node.
Proof.
  intros Hd. induction node as [i p d e ns IH] using Node_nested_ind.
  cbn [dirRecursiveSize nodes depth]. rewrite Hd. by apply sizeLoop_ext.
Qed.

(** The blank or the number a directory shows for the size [rsize]
    returned with the error [e]. *)
Definition dirSize (opts : Options) (rsize : Z) (e : option error) : string :=
  if bool_decide (e ≠ None) && (rsize <=? 0)%Z then
    if UnitSize opts then spaces 4 else spaces 11
  else sizeProp opts rsize.

(** C9.  The line of a directory that recorded no error starts with an
    annotation block of at most one annotation, the size: there is none
    when neither size option is set, and otherwise the block is the
    aggregated size (or its blank) alone.  The block is the same whatever
    the options for inode, device, mode, owner, group and modification
    time are. *)
Theorem directory_annotation_is_size_only (W : World) (fuel : nat) (indent : string)
    (opts : Options) (node : Node) (vp : gmap string bool) (fi : FileInfo)
    (out : list Write) (node' : Node) (vp' : gmap string bool) :
  err node = None -> info node = Some fi -> fiIsDir fi = true ->
  print W (S fuel) indent opts node vp = Ok (out, node', vp') ->
  ∃ props name rest,
    out = writeProps props ++ WName name :: rest ∧
    dirProps opts node = Ok props ∧
    (ByteSize opts || UnitSize opts = false -> props = []) ∧
    (ByteSize opts || UnitSize opts = true ->
     ∃ rsize e, dirRecursiveSize opts node = Ok (rsize, e) ∧
                props = [dirSize opts rsize e]) ∧
    (∀ opts', ByteSize opts' = ByteSize opts -> UnitSize opts' = UnitSize opts ->
              DeepLevel opts' = DeepLevel opts ->
              dirProps opts' node = Ok props).
Proof.
  intros He Hi Hdir H. cbn [print] in H. rewrite He in H.
  unfold Node_IsDir in H. rewrite (Node_method_Ok _ _ _ Hi), Hdir in H.
  cbn [mbind res_bind] in H.
  inv_bind H. rename a into props.
  inv_bind H. rename a into name0.
  inv_bind H. inv_bind H. destruct a0 as [[name node1] vp1].
  inv_bind H. inv_bind H. destruct a1 as [[outc children] vp2].
  injection H as <- _ _.
  exists props, name, (a0 ++ [WNewline] ++ outc).
  split; [done|]. split; [done|].
  assert (∀ opts', ByteSize opts' = ByteSize opts -> UnitSize opts' = UnitSize opts ->
            DeepLevel opts' = DeepLevel opts -> dirProps opts' node = dirProps opts node)
    as Hext.
  { intros opts' Hb Hu Hd'. unfold dirProps, sizeProp.
    by rewrite Hb, Hu, (dirRecursiveSize_ext _ _ _ Hd'). }
  unfold dirProps in Ha.
  destruct (ByteSize opts || UnitSize opts) eqn:Hsz.
  - split; [done|]. split.
    + intros _. inv_bind Ha. destruct a1 as [rsize e]. injection Ha as <-.
      by exists rsize, e.
    + intros opts' ? ? ?. rewrite Hext by done. unfold dirProps. by rewrite Hsz.
  - injection Ha as <-. split; [done|]. split; [done|].
    intros opts' ? ? ?. rewrite Hext by done. unfold dirProps. by rewrite Hsz.
Qed.

(** Every annotation asked for. *)
Definition annotated (fs : FsT) : Options := {|
  Fs := fs;
  All := false; DirsOnly := false; FullPath := false; IgnoreCase := false;
  FollowLink := false; DeepLevel := 0; Pattern := EmptyString;
  IPattern := EmptyString; MatchDirs := false; Prune := false;
  Contents := false; ByteSize := true; UnitSize := false; FileMode := true;
  ShowUid := true; ShowGid := true; LastMod := true; Quotes := false;
  Inodes := true; Device := true;
  NoSort := false; VerSort := false; ModSort := false; DirSort := false;
  NameSort := false; SizeSort := false; CTimeSort := false; ReverSort := false;
  NoIndent := false; Colorize := false; Color := None; Now := 0%Z
|}.

Lemma directory_annotation_is_size_only_witness :
  match print Mock.world 10 EmptyString (annotated Mock.simpleFs)
          (visited Mock.simpleFs) ∅ with
  | Ok (out, _, _) =>
      ∃ name rest, out = WProps "[        400]  " :: WName name :: rest
  | _ => False
  end.
Proof.
  assert (info (visited Mock.simpleFs) = Some (Mock.file_info Mock.simpleRoot)) as Hi
    by (vm_compute; reflexivity).
  assert (err (visited Mock.simpleFs) = None) as He by (vm_compute; reflexivity).
  destruct (print Mock.world 10 EmptyString (annotated Mock.simpleFs)
              (visited Mock.simpleFs) ∅) as [[[out n] v]| |] eqn:H;
    [|vm_compute in H; discriminate H..].
  destruct (directory_annotation_is_size_only _ _ _ _ _ _ _ _ _ _ He Hi eq_refl H)
    as (props & name & rest & -> & Hp & _).
  exists name, rest. vm_compute in Hp. by injection Hp as <-.
Defined.

(** A file, by contrast, shows every annotation asked for. *)
Example file_annotations :
  fileProps Mock.world (annotated Mock.simpleFs) (fileNode "root/a" "a" 1)
    = Ok ["0"; "  0"; ""; "0       "; "0   "; "         50"; "Jan 02 15:04"].
Proof. reflexivity. Qed.

(** ** [sort.Sort] permutes *)

Lemma slice_Swap_Permutation {A} (data data' : list A) i j :
  slice_Swap data i j = Ok data' -> data ≡ₚ data'.
Proof.
  unfold slice_Swap. destruct (data !! i) as [x|] eqn:Hi; [|done].
  destruct (data !! j) as [y|] eqn:Hj; [|done]. intros [= <-].
  symmetry. by apply Permutation_insert_swap.
Qed.

Lemma run_Permutation {A R} (I : Interface A) (p : SortM R) :
  ∀ data r data', run I p data = Ok (r, data') -> data ≡ₚ data'.
Proof.
  induction p as [r0|i j k IH|i j k IH|]; intros data r data' H; cbn [run] in H.
  - by injection H as _ <-.
  - inv_bind H. eauto.
  - inv_bind H. apply slice_Swap_Permutation in Ha. rewrite Ha. eauto.
  - done.
Qed.

Lemma sort_Sort_Permutation {A} (I : Interface A) data data' :
  sort_Sort I data = Ok data' -> data ≡ₚ data'.
Proof.
  unfold sort_Sort. intros H. inv_bind H. destruct a as [u d].
  injection H as <-. by eapply run_Permutation.
Qed.

Lemma Node_sort_Permutation W opts ns ns' :
  Node_sort W opts ns = Ok ns' -> ns ≡ₚ ns'.
Proof.
  unfold Node_sort. destruct (ReverSort opts); apply sort_Sort_Permutation.
Qed.

(** ** Counting the nodes of a tree *)

Fixpoint countb {A} (P : A -> bool) (l : list A) : Z :=
  match l with
  | [] => 0
  | x :: rest => (if P x then 1 else 0) + countb P rest
  end%Z.

(** A node and all that is below it. *)
Definition subtree (n : Node) : list Node := n :: descendants n.

Definition isDirNode (n : Node) : bool :=
  match info n with Some fi => fiIsDir fi | None => false end.

Definition isFileNode (n : Node) : bool :=
  match info n with Some fi => negb (fiIsDir fi) | None => false end.

(** The directories [Visit] counts: those that are not at depth 0. *)
Definition countedDir (n : Node) : bool := isDirNode n && negb (depth n =? 0)%Z.

Definition countDirs (n : Node) : Z := countb countedDir (subtree n).
Definition countFiles (n : Node) : Z := countb isFileNode (subtree n).

Definition sumZ (f : Node -> Z) (l : list Node) : Z := foldr Z.add 0%Z (f <$> l).

Lemma countb_app {A} (P : A -> bool) l k :
  countb P (l ++ k) = (countb P l + countb P k)%Z.
Proof. induction l as [|x l IH]; cbn [countb app]; [done|]. rewrite IH. lia. Qed.

Lemma countb_Permutation {A} (P : A -> bool) l k : l ≡ₚ k -> countb P l = countb P k.
Proof. induction 1; cbn [countb]; lia. Qed.

Lemma countb_nonneg {A} (P : A -> bool) l : (0 <= countb P l)%Z.
Proof. induction l as [|x l IH]; cbn [countb]; [done|]. destruct (P x); lia. Qed.

Lemma sumZ_app f l k : sumZ f (l ++ k) = (sumZ f l + sumZ f k)%Z.
Proof.
  unfold sumZ. rewrite fmap_app.
  induction (f <$> l) as [|x l' IH]; simpl; [done|]. rewrite IH. lia.
Qed.

Lemma countb_descendantsOf P ns :
  countb P (descendantsOf ns) = sumZ (fun c => countb P (subtree c)) ns.
Proof.
  induction ns as [|c ns IH]; [done|].
  change (descendantsOf (c :: ns)) with (subtree c ++ descendantsOf ns).
  rewrite countb_app, IH. done.
Qed.

Lemma descendantsOf_Permutation ns ns' :
  ns ≡ₚ ns' -> descendantsOf ns ≡ₚ descendantsOf ns'.
Proof. intros H. unfold descendantsOf. by apply Permutation_flat_map. Qed.

Lemma countb_subtree P n :
  countb P (subtree n) = ((if P n then 1 else 0) + countb P (descendantsOf (nodes n)))%Z.
Proof. unfold subtree. cbn [countb]. by rewrite descendants_unfold. Qed.

(** ** What [Visit] builds *)

(** Every child is one level below its parent, all the way down. *)
Fixpoint depthOk (node : Node) : bool :=
  (fix all (ns : list Node) : bool :=
     match ns with
     | [] => true
     | c :: rest => (depth c =? depth node + 1)%Z && depthOk c && all rest
     end) (nodes node).

Lemma depthOk_unfold node :
  depthOk node =
    forallb (fun c => (depth c =? depth node + 1)%Z && depthOk c) (nodes node).
Proof.
  destruct node as [i p d e ns]. cbn [depthOk nodes depth].
  induction ns as [|c ns IH]; [done|]. cbn [forallb]. by rewrite <- IH.
Qed.

(** The visited paths only grow. *)
Definition grows (vp vp' : gmap string bool) : Prop :=
  ∀ k, is_Some (vp !! k) -> is_Some (vp' !! k).

Lemma grows_refl vp : grows vp vp.
Proof. by intros k. Qed.

Lemma grows_trans vp1 vp2 vp3 : grows vp1 vp2 -> grows vp2 vp3 -> grows vp1 vp3.
Proof. intros H1 H2 k Hk. by apply H2, H1. Qed.

Lemma grows_insert (vp : gmap string bool) k v : grows vp (<[k:=v]> vp).
Proof. intros k' Hk. rewrite lookup_insert_is_Some. destruct (decide (k = k')); auto. Qed.

(** A child of [node] as the loop of [Visit] keeps it. *)
Definition childOk (node c : Node) : Prop :=
  depth c = (depth node + 1)%Z ∧ built c = true ∧ depthOk c = true.

(** The first step of [Visit]: the clean absolute path of the node, when
    there is one, is recorded as visited. *)
Definition marked (W : World) (node : Node) (vp : gmap string bool) : gmap string bool :=
  match filepath_Abs W (path node) with
  | (p, None) => <[filepath_Clean W p := true]> vp
  | (_, Some _) => vp
  end.

Lemma grows_marked W node vp : grows vp (marked W node vp).
Proof.
  unfold marked. destruct (filepath_Abs W (path node)) as [p [x|]];
    auto using grows_refl, grows_insert.
Qed.

(** What a call of [Visit] on a node without children establishes. *)
Definition visitPost (W : World) (node : Node) (vp : gmap string bool)
    (r : VisitResult) : Prop :=
  let '(T, (d, f), vp') := r in
  path T = path node ∧ depth T = depth node ∧ depthOk T = true ∧
  grows (marked W node vp) vp' ∧
  (info node = None -> err node = None ->
   built T = true ∧ d = countDirs T ∧ f = countFiles T).

Lemma visitNames_post W (visit : Node -> gmap string bool -> res VisitResult)
    opts node dirMatch :
  (∀ n vp r, nodes n = [] -> visit n vp = Ok r -> visitPost W n vp r) ->
  ∀ names kept dirs files vp kept' dirs' files' vp',
    visitNames W visit opts node dirMatch names kept dirs files vp
      = Ok (kept', (dirs', files'), vp') ->
    Forall (childOk node) kept ->
    Forall (childOk node) kept' ∧
    (dirs' - sumZ countDirs kept' = dirs - sumZ countDirs kept)%Z ∧
    (files' - sumZ countFiles kept' = files - sumZ countFiles kept)%Z ∧
    grows vp vp'.
Proof.
  intros Hvisit names.
  induction names as [|name rest IH]; intros kept dirs files vp kept' dirs' files' vp' H Hk.
  - cbn [visitNames] in H. injection H as <- <- <- <-. auto using grows_refl.
  - cbn [visitNames] in H.
    destruct (negb (All opts) && HasPrefix name "."); [by eapply IH|].
    inv_bind H. destruct a as [[nnode [d f]] vp1].
    apply Hvisit in Ha; [|done].
    destruct Ha as (Hp & Hd & Hok & Hg & Hcount). cbn [info err depth] in *.
    apply (grows_trans _ _ _ (grows_marked W _ vp)) in Hg.
    destruct (Hcount eq_refl eq_refl) as (Hb & -> & ->).
    inv_bind H. destruct a.
    + apply IH in H as (? & ? & ? & ?); [|done].
      eauto 6 using grows_trans.
    + apply IH in H as (? & Hd' & Hf' & ?).
      * split; [done|]. rewrite !sumZ_app in *.
        change (sumZ countDirs [nnode]) with (countDirs nnode + 0)%Z in Hd'.
        change (sumZ countFiles [nnode]) with (countFiles nnode + 0)%Z in Hf'.
        split; [lia|]. split; [lia|]. eauto using grows_trans.
      * apply Forall_app. split; [done|]. by repeat constructor.
Qed.

Lemma countb_leaf P n : nodes n = [] -> countb P (subtree n) = if P n then 1%Z else 0%Z.
Proof. intros H. rewrite countb_subtree, H. cbn. lia. Qed.

Lemma depthOk_leaf n : nodes n = [] -> depthOk n = true.
Proof. intros H. by rewrite depthOk_unfold, H. Qed.

Lemma visitPost_leaf W node vp T d f vp' :
  nodes T = [] -> path T = path node -> depth T = depth node ->
  grows (marked W node vp) vp' ->
  (info node = None -> err node = None ->
   built T = true ∧ d = (if countedDir T then 1 else 0)%Z ∧
   f = (if isFileNode T then 1 else 0)%Z) ->
  visitPost W node vp (T, (d, f), vp').
Proof.
  intros Hn Hp Hd Hg Hc. unfold visitPost.
  split; [done|]. split; [done|]. split; [by apply depthOk_leaf|]. split; [done|].
  intros Hi He. destruct (Hc Hi He) as (Hb & -> & ->).
  unfold countDirs, countFiles. by rewrite !countb_leaf.
Qed.

Lemma Visit_post W fuel opts :
  ∀ node vp r, nodes node = [] -> Visit W fuel opts node vp = Ok r ->
               visitPost W node vp r.
Proof.
  induction fuel as [|fuel IH]; intros node vp r Hn H; [done|].
  cbn [Visit] in H. fold (marked W node vp) in H.
  set (vp1 := marked W node vp) in *.
  assert (grows vp1 vp1) as Hg by apply grows_refl.
  destruct node as [i p d e ns]. cbn [nodes path depth] in *. subst ns.
  destruct (Stat (Fs opts) p) as [[fi|] [x|]] eqn:HS.
  - (* Stat failed *)
    injection H as <-. apply visitPost_leaf; try done.
    cbn. by intros -> _.
  - destruct (fiIsDir fi) eqn:Hdir; cbn [negb] in H; cbv iota in H.
    + (* a directory *)
      set (dirs0 := if (d =? 0)%Z then 0%Z else 1%Z) in H.
      set (node1 := set_info (mkNode i p d e []) fi) in H.
      assert (∀ vp', grows vp1 vp' ->
                visitPost W (mkNode i p d e []) vp (node1, (dirs0, 0%Z), vp')) as Hleaf.
      { intros vp' Hg'. apply visitPost_leaf; try done.
        cbn. intros _ ->. unfold countedDir, isDirNode, isFileNode. cbn.
        rewrite Hdir. subst dirs0. by destruct (d =? 0)%Z. }
      destruct ((0 <? DeepLevel opts)%Z && (DeepLevel opts <=? depth node1)%Z).
      { injection H as <-. by apply Hleaf. }
      inv_bind H. destruct a as [dirMatch stop]. clear Ha.
      destruct stop.
      { injection H as <-. by apply Hleaf. }
      destruct (ReadDir (Fs opts) (path node1)) as [names [x|]] eqn:HR.
      { (* the listing failed *)
        injection H as <-. apply visitPost_leaf; try done.
        cbn. intros _ _. unfold countedDir, isDirNode, isFileNode. cbn.
        rewrite Hdir. subst dirs0. by destruct (d =? 0)%Z. }
      inv_bind H. destruct a as [[kept [dirs files]] vp2].
      inv_bind H. rename a into sorted. injection H as <-.
      apply (visitNames_post W _ _ _ _ (IH)) in Ha as (Hkept & Hd & Hf & Hg2);
        [|by constructor].
      assert (kept ≡ₚ sorted) as Hperm.
      { destruct (NoSort opts); [by injection Ha0 as <-|].
        by eapply Node_sort_Permutation. }
      rewrite Hperm in Hkept.
      change (sumZ countDirs []) with 0%Z in Hd.
      change (sumZ countFiles []) with 0%Z in Hf.
      subst node1.
      unfold visitPost, set_nodes, set_info. cbn [path depth info err nodes].
      split; [done|]. split; [done|]. split.
      { rewrite depthOk_unfold. cbn [nodes depth]. apply forallb_forall.
        intros c Hc. apply list_elem_of_In, (proj1 (Forall_forall _ _) Hkept) in Hc.
        destruct Hc as (-> & _ & ->). by rewrite Z.eqb_refl. }
      split; [eauto using grows_trans|].
      intros _ ->. unfold set_nodes, set_info. cbn [path depth info err nodes].
      assert (∀ P, countb P (descendantsOf sorted)
                   = sumZ (fun c => countb P (subtree c)) kept) as Hsum.
      { intros P. rewrite <- countb_descendantsOf.
        apply countb_Permutation. symmetry. by apply descendantsOf_Permutation. }
      split; [|split].
      * rewrite (built_dir (mkNode (Some fi) p d None sorted) fi eq_refl eq_refl Hdir).
        cbn [nodes]. apply forallb_forall. intros c Hc.
        apply list_elem_of_In, (proj1 (Forall_forall _ _) Hkept) in Hc.
        by destruct Hc as (_ & -> & _).
      * unfold countDirs at 1. rewrite countb_subtree. cbn [nodes].
        rewrite Hsum.
        change (sumZ (fun c => countb countedDir (subtree c)) kept)
          with (sumZ countDirs kept).
        unfold countedDir, isDirNode. cbn [info depth]. rewrite Hdir.
        subst dirs0. unfold set_info in Hd. cbn [depth] in Hd.
        destruct (d =? 0)%Z; cbn [negb andb] in *; lia.
      * unfold countFiles at 1. rewrite countb_subtree. cbn [nodes].
        rewrite Hsum.
        change (sumZ (fun c => countb isFileNode (subtree c)) kept)
          with (sumZ countFiles kept).
        unfold isFileNode. cbn [info]. rewrite Hdir. cbn [negb]. lia.
    + (* a file *)
      injection H as <-. apply visitPost_leaf; try done.
      cbn. intros _ ->. unfold countedDir, isDirNode, isFileNode. cbn.
      by rewrite Hdir.
  - (* Stat failed *)
    injection H as <-. apply visitPost_leaf; try done.
    cbn. by intros -> _.
  - done.
Qed.

(** ** The depth of the children *)

(** The children of a followed link, as the fresh traversal of the
    target left them: at depth 1, each with its own levels in order. *)
Definition atDepthOne (ns : list Node) : bool :=
  forallb (fun c => (depth c =? 1)%Z && depthOk c) ns.

Lemma printSymlink_post W visit opts node name vp name' node' vp' :
  (∀ n v r, nodes n = [] -> visit n v = Ok r -> visitPost W n v r) ->
  printSymlink W visit opts node name vp = Ok (name', node', vp') ->
  info node' = info node ∧ path node' = path node ∧ depth node' = depth node ∧
  err node' = err node ∧ grows vp vp' ∧
  (nodes node' = nodes node ∨ atDepthOne (nodes node') = true).
Proof.
  intros Hv H. unfold printSymlink in H.
  assert (∀ n, Ok (n, node, vp) = Ok (name', node', vp') ->
            info node' = info node ∧ path node' = path node ∧
            depth node' = depth node ∧ err node' = err node ∧ grows vp vp' ∧
            (nodes node' = nodes node ∨ atDepthOne (nodes node') = true)) as Hsame.
  { intros n [= _ <- <-]. auto 10 using grows_refl. }
  destruct (FollowLink opts); [|by eapply Hsame].
  destruct (filepath_Abs W _) as [p [x|]] eqn:HA; [by destruct (fst _); eapply Hsame|].
  destruct (fst (Stat (Fs opts) _)) as [i|] eqn:Hfi; [|by eapply Hsame].
  destruct (fiIsDir i); [|by eapply Hsame].
  destruct (vp !! filepath_Clean W p); [by eapply Hsame|].
  inv_bind H. destruct a as [[inf [d f]] vp1]. injection H as _ <- <-.
  apply Hv in Ha; [|done]. destruct Ha as (_ & Hd & Hok & Hg & _).
  cbn [depth] in Hd. split; [done|]. split; [done|]. split; [done|]. split; [done|].
  split; [eauto using grows_trans, grows_marked|].
  right. cbn [set_nodes nodes]. unfold atDepthOne.
  rewrite depthOk_unfold, Hd in Hok. done.
Qed.

(** C3, amended.  In the tree one call of [Visit] builds from a node
    without children, every child is one level below its parent.  The
    children the renderer attaches to a link it follows are those of a
    fresh traversal of the target, which starts at depth 0: they are at
    depth 1 whatever the depth of the link, each with its own levels in
    order, and a link that is not followed keeps its children. *)
Theorem Visit_children_one_level_below (W : World) (fuel : nat) (opts : Options)
    (node : Node) (vp : gmap string bool) (T : Node) (d f : Z)
    (vp' : gmap string bool) :
  nodes node = [] ->
  Visit W fuel opts node vp = Ok (T, (d, f), vp') ->
  depth T = depth node ∧ depthOk T = true ∧
  (∀ fuel' link name v name' link' v',
     printSymlink W (Visit W fuel' opts) opts link name v = Ok (name', link', v') ->
     depth link' = depth link ∧
     (nodes link' = nodes link ∨ atDepthOne (nodes link') = true)).
Proof.
  intros Hn H. apply Visit_post in H; [|done].
  destruct H as (_ & Hd & Hok & _). split; [done|]. split; [done|].
  intros fuel' link name v name' link' v' Hs.
  apply printSymlink_post in Hs; [|apply Visit_post]. tauto.
Qed.

Lemma Visit_children_one_level_below_witness :
  match Visit Mock.linkWorld 10 (Mock.following Mock.linkFs) (New "root") ∅ with
  | Ok (T, (d, f), _) => depth T = 0%Z ∧ depthOk T = true ∧ d = 1%Z ∧ f = 2%Z
  | _ => False
  end.
Proof.
  assert (isOk (Visit Mock.linkWorld 10 (Mock.following Mock.linkFs) (New "root") ∅)
          = true) as Hret by (vm_compute; reflexivity).
  assert (match Visit Mock.linkWorld 10 (Mock.following Mock.linkFs) (New "root") ∅
          with Ok (_, df, _) => df | _ => (0, 0)%Z end = (1, 2)%Z) as Hdf
    by (vm_compute; reflexivity).
  destruct (Visit Mock.linkWorld 10 (Mock.following Mock.linkFs) (New "root") ∅)
    as [[[T [d f]] v]| |] eqn:H; [|discriminate Hret..].
  destruct (Visit_children_one_level_below _ _ _ (New "root") _ _ _ _ _ eq_refl H)
    as (Hd & Hok & _).
  split; [exact Hd|]. split; [exact Hok|].
  by injection Hdf as -> ->.
Defined.

(** The depths of the nodes of a tree, each with those of its children. *)
Fixpoint depths (node : Node) : list (string * Z * list Z) :=
  (path node, depth node, depth <$> nodes node) ::
  (fix below (ns : list Node) : list (string * Z * list Z) :=
     match ns with
     | [] => []
     | c :: rest => depths c ++ below rest
     end) (nodes node).

(** C3 as stated fails: the link [root/sub/link] is at depth 2 and the
    child the renderer attaches to it when it follows the link is at depth
    1. *)
Lemma followed_link_child_depth :
  match Mock.run Mock.linkWorld 10 (Mock.following Mock.linkFs) "root" with
  | Ok (_, _, _, T) =>
      depthOk T = false ∧
      depths T = [ ("root", 0, [1; 1]); ("root/loop", 1, []); ("root/sub", 1, [2]);
                   ("root/sub/link", 2, [1]); ("target/x", 1, []) ]%Z
  | _ => False
  end.
Proof. vm_compute. split; reflexivity. Qed.

(** ** The visited paths and the cycle guard *)







Lemma fileProps_Ok W opts node fi :
  info node = Some fi -> ∃ props, fileProps W opts node = Ok props.
Proof.
  intros Hi. unfold fileProps, getStat, Node_Mode, Node_Size, Node_ModTime.
  rewrite !(Node_method_Ok _ _ _ Hi). cbn [mbind res_bind].
  destruct (fiSys fi); cbn [mbind res_bind];
    destruct (FileMode opts); cbn [mbind res_bind];
    destruct (ByteSize opts || UnitSize opts); cbn [mbind res_bind];
    destruct (LastMod opts); eauto.
Qed.






(** ** The counters and the lines *)

Definition isNameLine (w : Write) : bool :=
  match w with WName _ => true | _ => false end.

Definition isErrorLine (w : Write) : bool :=
  match w with WError _ => true | _ => false end.

(** The lines of the nodes that recorded no error, and of those that did. *)
Definition nameLines (out : list Write) : Z := countb isNameLine out.
Definition errorLines (out : list Write) : Z := countb isErrorLine out.

Definition okNode (n : Node) : bool :=
  match err n with None => true | Some _ => false end.

(** A directory whose [Stat] succeeded and whose listing failed. *)
Definition listingFailed (n : Node) : bool :=
  match err n, info n with Some _, Some _ => true | _, _ => false end.

Definition listingFailures (T : Node) : Z := countb listingFailed (descendants T).

(** The line of the root, when the root is a directory without error. *)
Definition rootLine (T : Node) : Z := if okNode T && isDirNode T then 1%Z else 0%Z.

Lemma nameLines_app l k : nameLines (l ++ k) = (nameLines l + nameLines k)%Z.
Proof. apply countb_app. Qed.

Lemma errorLines_app l k : errorLines (l ++ k) = (errorLines l + errorLines k)%Z.
Proof. apply countb_app. Qed.

Lemma writeProps_lines props :
  nameLines (writeProps props) = 0%Z ∧ errorLines (writeProps props) = 0%Z.
Proof. by destruct props. Qed.

Lemma printContents_lines W opts node out :
  printContents W opts node = Ok out -> nameLines out = 0%Z ∧ errorLines out = 0%Z.
Proof.
  unfold printContents. destruct (Contents opts); [|by intros [= <-]].
  destruct (String.length _); [done|]. destruct (String.eqb _ _); [|by intros [= <-]].
  destruct (os_Open_Read W (path node)) as [[buf|]|]; by intros [= <-].
Qed.

(** What a call of [print] that follows no link writes and leaves. *)
Definition printPost (node : Node) (vp : gmap string bool) (r : PrintResult) : Prop :=
  let '(out, node', vp') := r in
  node' = node ∧ vp' = vp ∧
  nameLines out = countb okNode (subtree node) ∧
  errorLines out = countb (fun n => negb (okNode n)) (subtree node).

Lemma printNodes_lines (pr : string -> Node -> gmap string bool -> res PrintResult)
    opts ns :
  Forall (fun c => ∀ ind vp r, pr ind c vp = Ok r -> printPost c vp r) ns ->
  ∀ indent vp out ns' vp',
    printNodes pr opts indent ns vp = Ok (out, ns', vp') ->
    ns' = ns ∧ vp' = vp ∧
    nameLines out = countb okNode (descendantsOf ns) ∧
    errorLines out = countb (fun n => negb (okNode n)) (descendantsOf ns).
Proof.
  induction 1 as [|c ns Hc _ IH]; intros indent vp out ns' vp' H; cbn [printNodes] in H.
  - by injection H as <- <- <-.
  - inv_bind H. destruct a as [[out1 c'] vp1].
    inv_bind H. destruct a as [[out2 rest] vp2]. injection H as <- <- <-.
    apply Hc in Ha. destruct Ha as (-> & -> & Hn1 & He1).
    apply IH in Ha0. destruct Ha0 as (-> & -> & Hn2 & He2).
    split; [done|]. split; [done|].
    change (descendantsOf (c :: ns)) with (subtree c ++ descendantsOf ns).
    rewrite !nameLines_app, !errorLines_app, !countb_app, Hn1, Hn2, He1, He2.
    by destruct (NoIndent opts), ns.
Qed.

Lemma print_lines W opts :
  FollowLink opts = false ->
  ∀ fuel node, built node = true ->
  ∀ indent vp r, print W fuel indent opts node vp = Ok r -> printPost node vp r.
Proof.
  intros Hf fuel. induction fuel as [|fuel IH]; intros node Hb indent vp r H; [done|].
  cbn [print] in H. destruct (err node) as [x|] eqn:He.
  - injection H as <-. unfold printPost.
    assert (nodes node = []) as Hn.
    { destruct node as [[fi|] p d e ns]; cbn [err built info nodes] in *; subst e.
      - apply andb_true_iff in Hb as [_ Hb]. by destruct ns.
      - by destruct ns. }
    rewrite !countb_leaf by done. unfold okNode. rewrite He. done.
  - inv_bind H. rename a into isDir, Ha into HisDir.
    inv_bind H. rename a into props, Ha into Hprops.
    inv_bind H. rename a into name0, Ha into Hname0.
    inv_bind H. rename a into mode, Ha into Hmode.
    inv_bind H. destruct a as [[name node1] vp1]. rename Ha into Hlink.
    inv_bind H. rename a into contents, Ha into Hcontents.
    inv_bind H. destruct a as [[outc children] vp2]. rename Ha into Hchildren.
    injection H as <-.
    assert (node1 = node ∧ vp1 = vp) as [-> ->].
    { destruct (Z.land mode ModeSymlink =? ModeSymlink)%Z.
      - unfold printSymlink in Hlink. rewrite Hf in Hlink. by injection Hlink as _ <- <-.
      - by injection Hlink as _ <- <-. }
    apply printNodes_lines in Hchildren.
    + destruct Hchildren as (-> & -> & Hn & Hee). unfold printPost.
      split; [by destruct node|]. split; [done|].
      destruct (writeProps_lines props) as [Hp1 Hp2].
      destruct (printContents_lines _ _ _ _ Hcontents) as [Hc1 Hc2].
      change (WName name :: contents ++ WNewline :: outc)
        with ([WName name] ++ contents ++ [WNewline] ++ outc).
      rewrite !nameLines_app, !errorLines_app, Hp1, Hp2, Hc1, Hc2, Hn, Hee.
      rewrite !countb_subtree.
      assert (okNode node = true) as -> by (unfold okNode; by rewrite He).
      change (nameLines [WName name]) with 1%Z.
      change (nameLines [WNewline]) with 0%Z.
      change (errorLines [WName name]) with 0%Z.
      change (errorLines [WNewline]) with 0%Z.
      cbn [negb]. lia.
    + apply Forall_forall. intros c Hc ind v r. apply IH.
      pose proof (built_children _ Hb) as Hall.
      by apply (proj1 (forallb_forall _ _) Hall), list_elem_of_In.
Qed.

Lemma descendants_ind (Q R : Node -> Prop) :
  (∀ n, R n -> Q n) ->
  (∀ n c, Q n -> c ∈ nodes n -> R c) ->
  ∀ T, Q T -> ∀ d, d ∈ descendants T -> R d.
Proof.
  intros HRQ Hstep T. induction T as [i p d0 e ns IH] using Node_nested_ind.
  intros HQ d Hd. rewrite descendants_unfold in Hd. cbn [nodes] in Hd.
  unfold descendantsOf in Hd. apply list_elem_of_In, in_flat_map in Hd.
  destruct Hd as (c & Hc & Hd). apply list_elem_of_In in Hc.
  assert (R c) as HRc by (eapply Hstep; [exact HQ|done]).
  destruct Hd as [<-|Hd]; [done|].
  apply (proj1 (Forall_forall _ _) IH c Hc); [by apply HRQ|by apply list_elem_of_In].
Qed.

Lemma built_descendants T d : built T = true -> d ∈ descendants T -> built d = true.
Proof.
  intros Hb. apply (descendants_ind (fun n => built n = true) (fun n => built n = true));
    [done| |done].
  intros n c Hn Hc. pose proof (built_children _ Hn) as Hall.
  by apply (proj1 (forallb_forall _ _) Hall), list_elem_of_In.
Qed.

Lemma depth_descendants T d :
  depthOk T = true -> (0 <= depth T)%Z -> d ∈ descendants T -> (1 <= depth d)%Z.
Proof.
  intros Hok H0.
  apply (descendants_ind (fun n => depthOk n = true ∧ (0 <= depth n)%Z)
           (fun n => depthOk n = true ∧ (1 <= depth n)%Z)); [| |done].
  - intros n [? ?]. split; [done|lia].
  - intros n c [Hn Hd] Hc. rewrite depthOk_unfold in Hn.
    apply list_elem_of_In in Hc.
    apply (proj1 (forallb_forall _ _) Hn), andb_true_iff in Hc as [Hc ?].
    split; [done|]. lia.
Qed.

Definition b2z (b : bool) : Z := if b then 1%Z else 0%Z.

Lemma countb_pointwise {A} (P Q R S : A -> bool) l :
  (∀ x, x ∈ l -> (b2z (P x) + b2z (Q x) = b2z (R x) + b2z (S x))%Z) ->
  (countb P l + countb Q l = countb R l + countb S l)%Z.
Proof.
  induction l as [|x l IH]; intros H; cbn [countb]; [done|].
  pose proof (H x (list_elem_of_here _ _)) as Hx. unfold b2z in Hx.
  assert (countb P l + countb Q l = countb R l + countb S l)%Z.
  { apply IH. intros y Hy. apply H. by apply list_elem_of_further. }
  lia.
Qed.

(** Below the root, the nodes [Visit] counts are those whose line is not
    an error line and the directories whose listing failed. *)
Lemma counted_below_root n :
  built n = true -> (1 <= depth n)%Z ->
  (b2z (countedDir n) + b2z (isFileNode n) = b2z (okNode n) + b2z (listingFailed n))%Z.
Proof.
  intros Hb Hd. unfold countedDir, isFileNode, isDirNode, okNode, listingFailed.
  assert ((depth n =? 0)%Z = false) as -> by lia.
  destruct n as [[fi|] p d [x|] ns]; cbn [built info err nodes] in *; try done.
  - apply andb_true_iff in Hb as [-> _]. done.
  - by destruct (fiIsDir fi).
Qed.

Lemma counted_tree T :
  built T = true -> depthOk T = true -> depth T = 0%Z ->
  (countDirs T + countFiles T
   = countb okNode (subtree T) - rootLine T + listingFailures T)%Z.
Proof.
  intros Hb Hok Hd. unfold countDirs, countFiles, listingFailures, subtree.
  cbn [countb].
  assert (countb countedDir (descendants T) + countb isFileNode (descendants T)
          = countb okNode (descendants T) + countb listingFailed (descendants T))%Z
    as Hbelow.
  { apply countb_pointwise. intros n Hn. apply counted_below_root.
    - by eapply built_descendants.
    - eapply depth_descendants; [done| |done]. lia. }
  assert (b2z (countedDir T) + b2z (isFileNode T) = b2z (okNode T) - rootLine T)%Z
    as Hroot.
  { unfold rootLine, countedDir, isFileNode, isDirNode, okNode. rewrite Hd.
    destruct T as [[fi|] p d [x|] ns]; cbn [built info err nodes] in *; try done.
    - apply andb_true_iff in Hb as [-> _]. done.
    - by destruct (fiIsDir fi). }
  unfold b2z in Hroot. lia.
Qed.

(** C1, amended.  When links are not followed, the sum of the two
    counters [Visit] returns for the root is the number of the lines
    [Print] then writes for nodes without error, less the line of the root
    when the root is a directory, plus the number of directories below the
    root whose listing failed: these are counted as directories and
    rendered as error lines.  The error lines are those of the nodes that
    recorded an error, and [Print] leaves the tree as it was. *)
Theorem counters_match_rendered_lines (W : World) (fuel fuel' : nat) (opts : Options)
    (p : string) (T : Node) (dirs files : Z) (vp : gmap string bool)
    (out : list Write) (T' : Node) (vp' : gmap string bool) :
  FollowLink opts = false ->
  Visit W fuel opts (New p) ∅ = Ok (T, (dirs, files), vp) ->
  Print W fuel' opts T vp = Ok (out, T', vp') ->
  (dirs + files = nameLines out - rootLine T + listingFailures T)%Z ∧
  (listingFailures T = 0%Z -> (dirs + files = nameLines out - rootLine T)%Z) ∧
  errorLines out = countb (fun n => negb (okNode n)) (subtree T) ∧
  T' = T.
Proof.
  intros Hf Hv Hp. apply Visit_post in Hv; [|done].
  destruct Hv as (_ & Hd & Hok & _ & Hc). cbn [depth New info err] in *.
  destruct (Hc eq_refl eq_refl) as (Hb & -> & ->).
  apply (print_lines W opts Hf _ _ Hb) in Hp. destruct Hp as (-> & _ & Hn & He).
  rewrite Hn, (counted_tree T Hb Hok Hd).
  split; [done|]. split; [intros ->; lia|]. done.
Qed.

Lemma counters_match_rendered_lines_witness :
  match Mock.run Mock.world 10 (Mock.mkOpts Mock.unlistedFs) "root" with
  | Ok (dirs, files, out, T) =>
      dirs = 1%Z ∧ files = 3%Z ∧ nameLines out = 4%Z ∧ rootLine T = 1%Z ∧
      listingFailures T = 1%Z ∧ errorLines out = 1%Z
  | _ => False
  end.
Proof.
  assert (isOk (Mock.run Mock.world 10 (Mock.mkOpts Mock.unlistedFs) "root") = true)
    as Hret by (vm_compute; reflexivity).
  assert (match Mock.run Mock.world 10 (Mock.mkOpts Mock.unlistedFs) "root" with
          | Ok (dirs, files, out, T) =>
              (dirs, files, nameLines out, rootLine T, listingFailures T, errorLines out)
          | _ => (0, 0, 0, 0, 0, 0)%Z
          end = (1, 3, 4, 1, 1, 1)%Z) as Hrun by (vm_compute; reflexivity).
  unfold Mock.run in *.
  destruct (Visit Mock.world 10 (Mock.mkOpts Mock.unlistedFs) (New "root") ∅)
    as [[[T [dirs files]] vp]| |] eqn:Hv; [|discriminate Hret..].
  cbn [mbind res_bind] in *.
  destruct (Print Mock.world 10 (Mock.mkOpts Mock.unlistedFs) T vp)
    as [[[out T'] vp']| |] eqn:Hp; [|discriminate Hret..].
  cbn [mbind res_bind] in *.
  destruct (counters_match_rendered_lines Mock.world 10 10
              (Mock.mkOpts Mock.unlistedFs) "root" T dirs files vp out T' vp'
              eq_refl Hv Hp) as (Hsum & _ & Herr & ->).
  injection Hrun as -> -> -> -> -> ->. repeat split; reflexivity.
Defined.

(** C1 as stated fails.  A directory below the root whose listing failed
    is counted and rendered as an error line: the counters add up to 4
    and 3 lines below the root are not error lines.  With [FollowLink],
    the children of a followed link are rendered and not counted: the
    counters add up to 3 and 4 lines are below the root. *)
Lemma counters_exceed_rendered_lines :
  match Mock.run Mock.world 10 (Mock.mkOpts Mock.unlistedFs) "root" with
  | Ok (dirs, files, out, T) =>
      (dirs + files)%Z = 4%Z ∧ (nameLines out - rootLine T)%Z = 3%Z ∧
      output out = "root
├── a
├── b
├── c [permission denied]
└── j
"
  | _ => False
  end ∧
  match Mock.run Mock.linkWorld 10 (Mock.following Mock.linkFs) "root" with
  | Ok (dirs, files, out, T) =>
      (dirs + files)%Z = 3%Z ∧ (nameLines out - rootLine T)%Z = 4%Z ∧
      errorLines out = 0%Z
  | _ => False
  end.
Proof. split; vm_compute; repeat split; reflexivity. Qed.

(** ** Sorting at most twelve siblings: insertion sort *)

(** [a] stands before [b] in [l]. *)
Definition before {A} (a b : A) (l : list A) : Prop := [a; b] `sublist_of` l.

Lemma sublist_reverse {A} (l k : list A) :
  l `sublist_of` k -> reverse l `sublist_of` reverse k.
Proof.
  induction 1 as [|x l k _ IH|x l k _ IH].
  - done.
  - rewrite !reverse_cons. by apply sublist_app.
  - rewrite reverse_cons. by apply sublist_inserts_r.
Qed.

Lemma before_reverse {A} (a b : A) l : before a b (reverse l) <-> before b a l.
Proof.
  unfold before. split; intros H%sublist_reverse.
  - by rewrite reverse_involutive in H.
  - done.
Qed.

Lemma before_NoDup_asym {A} (a b : A) l : NoDup l -> before a b l -> before b a l -> False.
Proof.
  unfold before. induction 1 as [|x l Hx _ IH]; intros H1 H2.
  - by apply sublist_nil_r in H1.
  - apply sublist_cons_r in H1 as [H1|(l1 & [= -> <-] & H1)];
      apply sublist_cons_r in H2 as [H2|(l2 & [= E <-] & H2)]; try subst.
    + eauto.
    + apply Hx. apply sublist_subseteq in H1. set_solver.
    + apply Hx. apply sublist_subseteq in H2. set_solver.
    + apply Hx. apply sublist_subseteq in H1. set_solver.
Qed.

Lemma sublist_singleton {A} (a : A) l : a ∈ l -> [a] `sublist_of` l.
Proof.
  intros (l1 & l2 & ->)%list_elem_of_split.
  apply sublist_inserts_l. constructor. apply sublist_nil_l.
Qed.

Lemma before_total {A} (a b : A) l :
  a ∈ l -> b ∈ l -> a ≠ b -> before a b l ∨ before b a l.
Proof.
  unfold before. induction l as [|x l IH]; intros Ha Hb Hne.
  - by apply elem_of_nil in Ha.
  - apply elem_of_cons in Ha as [->|Ha]; apply elem_of_cons in Hb as [->|Hb].
    + done.
    + left. constructor. by apply sublist_singleton.
    + right. constructor. by apply sublist_singleton.
    + destruct (IH Ha Hb Hne); [left|right]; by constructor.
Qed.

Lemma run_bind {A R S} (I : Interface A) (m : SortM R) (f : R -> SortM S) :
  ∀ data, run I (m ≫= f) data = '(r, d) ← run I m data; run I (f r) d.
Proof.
  induction m as [r|i j k IH|i j k IH|]; intros data; cbn.
  - done.
  - destruct (Interface_Less I data i j); cbn; [apply IH|done..].
  - destruct (slice_Swap data i j); cbn; [apply IH|done..].
  - done.
Qed.

Section InsertionSort.

Context {A : Type} (I : Interface A) (less : A -> A -> bool).

(** [I] compares the elements at two positions with [less]. *)
Hypothesis I_less :
  ∀ data i j x y, data !! i = Some x -> data !! j = Some y ->
                  Interface_Less I data i j = Ok (less x y).

(** [x] enters the sorted prefix from the right, passing the elements it
    is less than; the prefix is held last element first. *)
Fixpoint insR (x : A) (rp : list A) : list A :=
  match rp with
  | [] => [x]
  | p :: rp' => if less x p then p :: insR x rp' else x :: rp
  end.

(** Insertion sort, as a function. *)
Definition isort (data : list A) : list A :=
  reverse (foldl (fun rp x => insR x rp) [] data).

Lemma swap_adjacent (l1 : list A) p x tl :
  slice_Swap (l1 ++ p :: x :: tl) (S (length l1)) (length l1)
    = Ok (l1 ++ x :: p :: tl).
Proof.
  unfold slice_Swap.
  assert ((l1 ++ p :: x :: tl) !! S (length l1) = Some x) as ->.
  { rewrite lookup_app_r by lia.
    by replace (S (length l1) - length l1) with 1 by lia. }
  assert ((l1 ++ p :: x :: tl) !! length l1 = Some p) as ->.
  { by apply list_lookup_middle. }
  f_equal. rewrite (insert_app_r_alt _ _ (S _)) by lia.
  replace (S (length l1) - length l1) with 1 by lia. cbn [list_insert].
  rewrite insert_app_r_alt by lia. by rewrite Nat.sub_diag.
Qed.

Lemma inner_run rp : ∀ x tl,
  run I (sort.insertionSort_inner 0 (length rp)) (reverse rp ++ x :: tl)
    = Ok (tt, reverse (insR x rp) ++ tl).
Proof.
  induction rp as [|p rp IH]; intros x tl.
  - done.
  - cbn [length sort.insertionSort_inner insR]. change (0 <? S _) with true.
    cbv iota. rewrite run_bind. rewrite reverse_cons, <- app_assoc. cbn [app].
    assert (length (reverse rp) = length rp) as Hlen by apply length_reverse.
    unfold Less at 1. cbn [run].
    rewrite (I_less _ _ _ x p).
    + cbn [mbind res_bind]. destruct (less x p).
      * rewrite run_bind. unfold Swap. cbn [run]. rewrite <- Hlen, swap_adjacent.
        cbn [mbind res_bind]. rewrite Hlen, IH, reverse_cons, <- app_assoc. done.
      * cbn [run]. rewrite !reverse_cons, <- !app_assoc. done.
    + rewrite lookup_app_r by lia. rewrite Hlen.
      by replace (S (length rp) - length rp) with 1 by lia.
    + rewrite <- Hlen. by apply list_lookup_middle.
Qed.

Lemma outer_run Q : ∀ rp,
  run I (sort.insertionSort_outer 0 (length rp) (length Q)) (reverse rp ++ Q)
    = Ok (tt, reverse (foldl (fun rp x => insR x rp) rp Q)).
Proof.
  induction Q as [|x Q IH]; intros rp.
  - cbn. by rewrite app_nil_r.
  - cbn [length sort.insertionSort_outer foldl]. rewrite run_bind, inner_run.
    cbn [mbind res_bind].
    assert (S (length rp) = length (insR x rp)) as ->.
    { clear. induction rp as [|p rp IH]; cbn; [done|].
      destruct (less x p); cbn; by rewrite ?IH. }
    apply IH.
Qed.

Lemma Sort_small data :
  length data <= 12 -> sort_Sort I data = Ok (isort data).
Proof.
  intros Hlen. unfold sort_Sort, sort.Sort, isort.
  destruct data as [|x0 [|x1 rest]]; [done..|].
  set (data := x0 :: x1 :: rest) in *.
  assert ((length data <=? 1) = false) as -> by (apply Nat.leb_gt; cbn; lia).
  unfold sort.pdqsort. cbn [sort.pdqsort_loop].
  rewrite Nat.sub_0_r.
  assert ((length data <=? sort.maxInsertion) = true) as ->
    by (apply Nat.leb_le; exact Hlen).
  unfold sort.insertionSort.
  pose proof (outer_run (x1 :: rest) [x0]) as H.
  change (length [x0]) with (0 + 1) in H.
  change (reverse [x0] ++ x1 :: rest) with data in H.
  replace (length (x1 :: rest)) with (length data - (0 + 1)) in H by (cbn; lia).
  rewrite H. done.
Qed.

Lemma insR_split x rp :
  ∃ hi lo, rp = hi ++ lo ∧ insR x rp = hi ++ x :: lo ∧
           Forall (fun p => less x p = true) hi.
Proof.
  induction rp as [|p rp (hi & lo & -> & Hins & Hall)].
  - by exists [], [].
  - cbn [insR]. destruct (less x p) eqn:Hp.
    + exists (p :: hi), lo. rewrite Hins. auto.
    + by exists [], (p :: hi ++ lo).
Qed.

(** What holds of the sorted prefix [rp] (last element first) once the
    elements [consumed] have been inserted. *)
Definition ordered (consumed rp : list A) : Prop :=
  rp ≡ₚ consumed ∧
  ∀ a b, before b a rp -> before a b consumed ∨ less a b = true.

Lemma ordered_insR consumed rp x :
  ordered consumed rp -> ordered (consumed ++ [x]) (insR x rp).
Proof.
  intros [Hperm Hord]. destruct (insR_split x rp) as (hi & lo & -> & -> & Hall).
  split.
  { rewrite <- Hperm, <- Permutation_middle. by rewrite Permutation_cons_append. }
  intros a b Hba. unfold before in *.
  assert (∀ c d, [d; c] `sublist_of` hi ++ lo ->
            [c; d] `sublist_of` consumed ++ [x] ∨ less c d = true) as Hold.
  { intros c d H. destruct (Hord c d H); [left|by right]. by apply sublist_inserts_r. }
  apply sublist_app_r in Hba as (k1 & k2 & Hk & H1 & H2).
  destruct k1 as [|c1 [|c2 k1]]; cbn in Hk.
  - (* both in [x :: lo] *)
    subst k2. apply sublist_cons_r in H2 as [H2|(l' & [= <- <-] & H2)].
    + apply Hold. by apply sublist_inserts_l.
    + left. apply (sublist_app [a] consumed [b] [b]); [|done].
      apply sublist_singleton. rewrite <- Hperm. apply sublist_subseteq in H2.
      set_solver.
  - (* [b] in [hi] *)
    injection Hk as <- <-.
    apply sublist_cons_r in H2 as [H2|(l' & [= <-] & H2)].
    + apply Hold. by apply (sublist_app [b] hi [a] lo).
    + right. apply sublist_subseteq in H1.
      apply (proj1 (Forall_forall _ _) Hall). set_solver.
  - (* both in [hi] *)
    injection Hk as <- <- Hk. symmetry in Hk. apply app_eq_nil in Hk as [-> ->].
    apply Hold. by apply sublist_inserts_r.
Qed.

Lemma ordered_foldl Q : ∀ consumed rp,
  ordered consumed rp ->
  ordered (consumed ++ Q) (foldl (fun rp x => insR x rp) rp Q).
Proof.
  induction Q as [|x Q IH]; intros consumed rp H; cbn [foldl].
  - by rewrite app_nil_r.
  - rewrite (cons_middle x consumed Q), app_assoc. by apply IH, ordered_insR.
Qed.

Lemma isort_Permutation data : isort data ≡ₚ data.
Proof.
  unfold isort. rewrite reverse_Permutation.
  apply (ordered_foldl data [] []). split; [done|].
  intros a b H. by apply sublist_nil_r in H.
Qed.

Lemma isort_order data a b :
  before a b (isort data) -> before a b data ∨ less a b = true.
Proof.
  unfold isort. rewrite before_reverse.
  apply (ordered_foldl data [] []). split; [done|].
  intros c d H. by apply sublist_nil_r in H.
Qed.

End InsertionSort.

(** ** Sorting the siblings *)

(** The comparator of the active sort on two nodes, and its verdict with
    the reverse flag taken in. *)
Definition keyLess (W : World) (opts : Options) (a b : Node) : bool :=
  sort_fn W opts (info a) (info b).

Definition sortLess (W : World) (opts : Options) (a b : Node) : bool :=
  if ReverSort opts then keyLess W opts b a else keyLess W opts a b.

Lemma ByFunc_less fn data i j x y :
  data !! i = Some x -> data !! j = Some y ->
  Interface_Less (ByFunc fn) data i j = Ok (fn (info x) (info y)).
Proof. intros Hi Hj. cbn. by rewrite Hi, Hj. Qed.

Lemma Reverse_less fn data i j x y :
  data !! i = Some x -> data !! j = Some y ->
  Interface_Less (sort_Reverse (ByFunc fn)) data i j = Ok (fn (info y) (info x)).
Proof. intros Hi Hj. cbn. by rewrite Hi, Hj. Qed.

Lemma Node_sort_small W opts ns :
  length ns <= 12 ->
  ∃ sorted, Node_sort W opts ns = Ok sorted ∧ sorted ≡ₚ ns ∧
    ∀ a b, before a b sorted -> before a b ns ∨ sortLess W opts a b = true.
Proof.
  intros Hlen. unfold Node_sort, sortLess, keyLess. destruct (ReverSort opts).
  - pose proof (Reverse_less (sort_fn W opts)) as HI.
    eexists. split; [by apply (Sort_small _ _ HI)|].
    split; [apply (isort_Permutation _ _ HI)|]. intros a b.
    by apply (isort_order _ _ HI).
  - pose proof (ByFunc_less (sort_fn W opts)) as HI.
    eexists. split; [by apply (Sort_small _ _ HI)|].
    split; [apply (isort_Permutation _ _ HI)|]. intros a b.
    by apply (isort_order _ _ HI).
Qed.

(** C5, amended.  Up to twelve siblings are sorted by insertion: the sort
    returns a permutation in which a sibling stands before another only if
    it arrived before it or the comparator, flipped when the reverse flag
    is set, puts it first.  The reverse flag swaps the two arguments of
    the comparator and leaves the sequence alone, so two distinct siblings
    that the comparator does not order either way keep their order of
    arrival under the forward and under the reverse sort alike. *)
Theorem sort_small_keeps_ties (W : World) (opts : Options) (ns : list Node) :
  length ns <= 12 -> NoDup ns ->
  ∃ sorted,
    Node_sort W opts ns = Ok sorted ∧ sorted ≡ₚ ns ∧
    (∀ a b, before a b sorted -> before a b ns ∨ sortLess W opts a b = true) ∧
    (∀ a b, sortLess W opts a b = (if ReverSort opts then keyLess W opts b a
                                   else keyLess W opts a b)) ∧
    (∀ a b, keyLess W opts a b = false -> keyLess W opts b a = false ->
            (before a b sorted <-> before a b ns)).
Proof.
  intros Hlen Hnd. destruct (Node_sort_small W opts ns Hlen) as (sorted & Hs & Hp & Ho).
  exists sorted. split; [done|]. split; [done|]. split; [done|]. split; [done|].
  intros a b Hab Hba.
  assert (sortLess W opts a b = false ∧ sortLess W opts b a = false) as [Hl1 Hl2]
    by (unfold sortLess; by destruct (ReverSort opts)).
  split.
  - intros H. destruct (Ho a b H) as [?|E]; [done|congruence].
  - intros H.
    assert (a ≠ b) as Hne.
    { intros ->. pose proof (sublist_NoDup _ _ Hnd H) as Hbb.
      apply NoDup_cons in Hbb as [Hin _]. apply Hin. left. }
    assert (a ∈ sorted ∧ b ∈ sorted) as [Ha Hb].
    { rewrite Hp. apply sublist_subseteq in H. set_solver. }
    destruct (before_total a b sorted Ha Hb Hne) as [?|Hrev]; [done|].
    destruct (Ho b a Hrev) as [Hn|E]; [|congruence].
    destruct (before_NoDup_asym a b ns Hnd H Hn).
Qed.

(** A file with a status-change time. *)
Definition ctimeNode (name : string) (ctime : Z) : Node :=
  {| info := Some {| fiName := name; fiSize := 0; fiMode := 0; fiModTime := 0%Z;
                     fiIsDir := false;
                     fiSys := Some {| Ino := 0; Dev := 0; Uid := 0; Gid := 0;
                                      Ctim_Sec := ctime |} |};
     path := "root/" +:+ name; depth := 1; err := None; nodes := [] |}.

(** The options of a sort by status-change time. *)
Definition byCTime (reverse : bool) : Options := {|
  Fs := Mock.simpleFs;
  All := false; DirsOnly := false; FullPath := false; IgnoreCase := false;
  FollowLink := false; DeepLevel := 0; Pattern := EmptyString;
  IPattern := EmptyString; MatchDirs := false; Prune := false;
  Contents := false; ByteSize := false; UnitSize := false; FileMode := false;
  ShowUid := false; ShowGid := false; LastMod := false; Quotes := false;
  Inodes := false; Device := false;
  NoSort := false; VerSort := false; ModSort := false; DirSort := false;
  NameSort := false; SizeSort := false; CTimeSort := true; ReverSort := reverse;
  NoIndent := false; Colorize := false; Color := None; Now := 0%Z
|}.

Definition names (r : res (list Node)) : list string :=
  match r with
  | Ok ns => (fun n => default EmptyString (fiName <$> info n)) <$> ns
  | _ => []
  end.

Definition fourSiblings : list Node :=
  [ctimeNode "a" 3; ctimeNode "b" 1; ctimeNode "c" 2; ctimeNode "d" 1].

Lemma sort_small_keeps_ties_witness :
  length fourSiblings <= 12 ∧ NoDup fourSiblings ∧
  names (Node_sort Mock.world (byCTime false) fourSiblings) = ["b"; "d"; "c"; "a"] ∧
  names (Node_sort Mock.world (byCTime true) fourSiblings) = ["a"; "c"; "b"; "d"] ∧
  ∃ sorted, Node_sort Mock.world (byCTime true) fourSiblings = Ok sorted ∧
            before (ctimeNode "b" 1) (ctimeNode "d" 1) sorted.
Proof.
  assert (length fourSiblings <= 12) as Hlen by (cbn; lia).
  assert (NoDup fourSiblings) as Hnd.
  { unfold fourSiblings. repeat apply NoDup_cons_2; try apply NoDup_nil_2;
      intros Hin;
      repeat (apply elem_of_cons in Hin as [Hin|Hin]; [discriminate Hin|]);
      by apply elem_of_nil in Hin. }
  split; [exact Hlen|]. split; [exact Hnd|].
  split; [reflexivity|]. split; [reflexivity|].
  destruct (sort_small_keeps_ties Mock.world (byCTime true) fourSiblings Hlen Hnd)
    as (sorted & Hs & _ & _ & _ & Htie).
  exists sorted. split; [exact Hs|].
  apply (Htie (ctimeNode "b" 1) (ctimeNode "d" 1) eq_refl eq_refl).
  unfold before, fourSiblings.
  apply sublist_cons, sublist_skip, sublist_cons, sublist_skip, sublist_nil.
Defined.

Definition thirteenSiblings : list Node :=
  [ ctimeNode "a" 1; ctimeNode "b" 1; ctimeNode "c" 1; ctimeNode "d" 1;
    ctimeNode "e" 1; ctimeNode "f" 1; ctimeNode "g" 0; ctimeNode "h" 1;
    ctimeNode "i" 1; ctimeNode "j" 1; ctimeNode "k" 1; ctimeNode "l" 1;
    ctimeNode "m" 1 ].

(** C5 as stated fails.  Thirteen siblings go through the pivot and
    partition steps of [sort.Sort], which move siblings of equal keys past
    one another: [a] and [b] have the same status-change time, the
    forward sort puts [a] before [b] and [d] before both, and the reverse
    sort puts [b] before [a]. *)
Lemma sort_thirteen_moves_ties :
  keyLess Mock.world (byCTime false) (ctimeNode "a" 1) (ctimeNode "b" 1) = false ∧
  keyLess Mock.world (byCTime false) (ctimeNode "b" 1) (ctimeNode "a" 1) = false ∧
  names (Node_sort Mock.world (byCTime false) thirteenSiblings)
    = ["g"; "d"; "c"; "a"; "e"; "f"; "b"; "h"; "i"; "j"; "k"; "l"; "m"] ∧
  names (Node_sort Mock.world (byCTime true) thirteenSiblings)
    = ["j"; "b"; "c"; "d"; "e"; "f"; "h"; "i"; "a"; "k"; "l"; "m"; "g"].
Proof. repeat split; vm_compute; reflexivity. Qed.

(** Two siblings whose [Stat] failed have no [FileInfo]; [CTimeSort]
    answers [true] for them in both directions and the insertion sort
    swaps them. *)
Example sort_swaps_stat_errors :
  CTimeSort_fn Mock.world None None = true ∧
  path <$> default [] (from_option (fun r => Some r) None
     (match Node_sort Mock.world (byCTime false)
              [set_err (New "root/x") "stat failed"; set_err (New "root/y") "stat failed"]
      with Ok ns => Some ns | _ => None end))
    = ["root/y"; "root/x"].
Proof. split; vm_compute; reflexivity. Qed.

(* ===================================================================== *)
(** * Further properties of the engine *)
(* ===================================================================== *)

(** ** What every node of the tree of [Visit] satisfies *)

(** A name the loop of [Visit] skips: a hidden entry, when [All] is off. *)
Definition hidden (opts : Options) (name : string) : bool :=
  negb (All opts) && HasPrefix name ".".

(** [c] stands for an entry of the listing of the directory [n]. *)
Definition fromListing (W : World) (opts : Options) (n c : Node) : Prop :=
  ∃ name, name ∈ fst (ReadDir (Fs opts) (path n)) ∧ hidden opts name = false ∧
          path c = filepath_Join W (path n) name.

(** The depth limit stops the descent at [n]. *)
Definition atLimit (opts : Options) (n : Node) : bool :=
  (0 <? DeepLevel opts)%Z && (DeepLevel opts <=? depth n)%Z.

(** What the filters let through: the facts about a child [c] without
    error that the loop kept, [dirMatch] being the verdict on its parent. *)
Definition passes (W : World) (opts : Options) (dirMatch : bool) (c : Node) : Prop :=
  if isDirNode c then
    (Prune opts = true -> countFiles c ≠ 0%Z) ∧
    (MatchDirs opts = true -> nonempty (IPattern opts) = true ->
     Node_match W c (IPattern opts) opts = Ok false)
  else
    DirsOnly opts = false ∧
    (dirMatch = false -> nonempty (Pattern opts) = true ->
     Node_match W c (Pattern opts) opts = Ok true) ∧
    (nonempty (IPattern opts) = true ->
     Node_match W c (IPattern opts) opts = Ok false).

(** The node says what the file system said of its path. *)
Definition reflects (opts : Options) (n : Node) : Prop :=
  (∃ e, snd (Stat (Fs opts) (path n)) = Some e ∧ err n = Some e ∧ info n = None ∧
        nodes n = []) ∨
  (∃ fi, Stat (Fs opts) (path n) = (Some fi, None) ∧ info n = Some fi ∧
         (err n = None ∨
          ∃ e, fiIsDir fi = true ∧ snd (ReadDir (Fs opts) (path n)) = Some e ∧
               err n = Some e ∧ nodes n = [])).

Definition local (W : World) (opts : Options) (n : Node) : Prop :=
  reflects opts n ∧
  (atLimit opts n = true -> nodes n = []) ∧
  ∃ dirMatch : bool,
    (dirMatch = true ->
     depth n ≠ 0%Z ∧ MatchDirs opts = true ∧
     Node_match W n (Pattern opts) opts = Ok true) ∧
    Forall (fun c => fromListing W opts n c ∧ (err c = None -> passes W opts dirMatch c))
           (nodes n).

(** The clean absolute path of [n], when it has one, is a visited path. *)
Definition visitedIn (W : World) (vp : gmap string bool) (n : Node) : Prop :=
  ∀ p, filepath_Abs W (path n) = (p, None) -> is_Some (vp !! filepath_Clean W p).

Definition fresh (n : Node) : Prop := info n = None ∧ err n = None ∧ nodes n = [].

Lemma visitedIn_grows W vp vp' n : grows vp vp' -> visitedIn W vp n -> visitedIn W vp' n.
Proof. intros Hg Hv p Hp. by apply Hg, Hv. Qed.

Lemma visitedIn_marked W vp n : visitedIn W (marked W n vp) n.
Proof. intros p Hp. unfold marked. rewrite Hp. by rewrite lookup_insert_eq. Qed.

Lemma Node_match_same W n m pattern opts :
  info n = info m -> path n = path m ->
  Node_match W n pattern opts = Node_match W m pattern opts.
Proof. intros Hi Hp. unfold Node_match, Node_Name, Node_method. by rewrite Hi, Hp. Qed.

Lemma dropChild_passes W opts dirMatch c fi f :
  info c = Some fi -> f = countFiles c ->
  dropChild W opts dirMatch c f = Ok false -> passes W opts dirMatch c.
Proof.
  intros Hi -> H. unfold dropChild, Node_IsDir in H. rewrite (Node_method_Ok _ _ _ Hi) in H.
  cbn [mbind res_bind] in H. unfold passes, isDirNode. rewrite Hi.
  destruct (fiIsDir fi).
  - destruct (Prune opts) eqn:Hprune; cbn [andb] in H.
    + destruct (countFiles c =? 0)%Z eqn:Hz; [done|]. split; [intros _; lia|].
      intros Hm Hn. by rewrite Hm, Hn in H.
    + split; [done|]. intros Hm Hn. by rewrite Hm, Hn in H.
  - destruct (DirsOnly opts); [done|]. split; [done|].
    inv_bind H. destruct a; [done|]. split.
    + intros Hd Hn. rewrite Hd, Hn in Ha. cbn [negb andb] in Ha. inv_bind Ha.
      injection Ha as Ha. by destruct a.
    + intros Hn. by rewrite Hn in H.
Qed.

Lemma built_info n : built n = true -> err n = None -> ∃ fi, info n = Some fi.
Proof.
  destruct n as [[fi|] p d [x|] ns]; cbn [built info err nodes]; intros Hb He;
    try done. eauto.
Qed.

(** What the loop of [Visit] knows of a child it kept. *)
Definition goodChild (W : World) (opts : Options) (node : Node) (dirMatch : bool)
    (vp : gmap string bool) (c : Node) : Prop :=
  fromListing W opts node c ∧ (err c = None -> passes W opts dirMatch c) ∧
  Forall (local W opts) (subtree c) ∧ Forall (visitedIn W vp) (subtree c).

Lemma goodChild_grows W opts node dirMatch vp vp' c :
  grows vp vp' -> goodChild W opts node dirMatch vp c ->
  goodChild W opts node dirMatch vp' c.
Proof.
  intros Hg (H1 & H2 & H3 & H4). repeat split; try done.
  eapply Forall_impl; [exact H4|]. intros n. by apply visitedIn_grows.
Qed.

Lemma visitNames_local W fuel opts node dirMatch :
  (∀ n vp T df vp', fresh n -> Visit W fuel opts n vp = Ok (T, df, vp') ->
     Forall (local W opts) (subtree T) ∧ Forall (visitedIn W vp') (subtree T)) ->
  ∀ names kept dirs files vp kept' dirs' files' vp',
    visitNames W (Visit W fuel opts) opts node dirMatch names kept dirs files vp
      = Ok (kept', (dirs', files'), vp') ->
    (∀ name, name ∈ names -> name ∈ fst (ReadDir (Fs opts) (path node))) ->
    Forall (goodChild W opts node dirMatch vp) kept ->
    Forall (goodChild W opts node dirMatch vp') kept'.
Proof.
  intros IH names.
  induction names as [|name rest IHn];
    intros kept dirs files vp kept' dirs' files' vp' H Hin Hk.
  - cbn [visitNames] in H. by injection H as <- <- <- <-.
  - cbn [visitNames] in H. fold (hidden opts name) in H.
    assert (∀ x, x ∈ rest -> x ∈ fst (ReadDir (Fs opts) (path node))) as Hrest
      by (intros x Hx; apply Hin; by right).
    destruct (hidden opts name) eqn:Hh; [by eapply IHn|].
    inv_bind H. destruct a as [[nnode [d f]] vp1].
    assert (visitPost W (mkNode None (filepath_Join W (path node) name)
                           (depth node + 1) None []) vp (nnode, (d, f), vp1))
      as Hpost by (by eapply Visit_post).
    destruct Hpost as (Hp & _ & _ & Hg & Hc).
    apply (grows_trans _ _ _ (grows_marked W _ vp)) in Hg.
    destruct (Hc eq_refl eq_refl) as (Hb & _ & ->). cbn [path] in Hp.
    apply IH in Ha as [Hl Hv]; [|done].
    inv_bind H. rename Ha into Hdrop.
    assert (Forall (goodChild W opts node dirMatch vp1) kept) as Hk1.
    { eapply Forall_impl; [exact Hk|]. intros c. by apply goodChild_grows. }
    destruct a.
    + by eapply IHn.
    + eapply IHn; [exact H|done|]. apply Forall_app. split; [done|].
      constructor; [|done]. split; [|split; [|done]].
      * exists name. split; [apply Hin; left|]. done.
      * intros He. rewrite He in Hdrop. destruct (built_info _ Hb He) as [fi Hfi].
        by eapply dropChild_passes.
Qed.

Lemma Forall_descendantsOf (Q : Node -> Prop) ns :
  Forall (fun c => Forall Q (subtree c)) ns -> Forall Q (descendantsOf ns).
Proof.
  induction 1 as [|c ns Hc _ IH]; [done|].
  change (descendantsOf (c :: ns)) with (subtree c ++ descendantsOf ns).
  by apply Forall_app.
Qed.

Lemma subtree_unfold n : subtree n = n :: descendantsOf (nodes n).
Proof. unfold subtree. by rewrite descendants_unfold. Qed.

Lemma local_leaf W opts n : nodes n = [] -> reflects opts n -> local W opts n.
Proof.
  intros Hn Hr. split; [done|]. split; [done|]. exists false.
  split; [done|]. rewrite Hn. constructor.
Qed.

Lemma subtree_leaf n : nodes n = [] -> subtree n = [n].
Proof. intros H. by rewrite subtree_unfold, H. Qed.

Lemma Forall_leaf (Q : Node -> Prop) n : nodes n = [] -> Q n -> Forall Q (subtree n).
Proof. intros H HQ. rewrite (subtree_leaf _ H). by constructor. Qed.

(** Every node of the tree [Visit] builds reflects the file system, obeys
    the depth limit, holds only children the filters let through, and has
    its path among the visited ones. *)
Lemma Visit_local W fuel opts :
  ∀ n vp T df vp', fresh n -> Visit W fuel opts n vp = Ok (T, df, vp') ->
    Forall (local W opts) (subtree T) ∧ Forall (visitedIn W vp') (subtree T).
Proof.
  induction fuel as [|fuel IH]; intros n vp T df vp' Hf H; [done|].
  cbn [Visit] in H. fold (marked W n vp) in H.
  pose proof (visitedIn_marked W vp n) as Hvis.
  set (vp1 := marked W n vp) in *.
  destruct n as [i p d e ns]. destruct Hf as (Hi & He & Hn).
  cbn [info err nodes path depth] in *. subst i e ns.
  assert (∀ T' : Node, path T' = p -> visitedIn W vp1 T') as Hvis'.
  { intros T' HT q Hq. apply Hvis. cbn [path]. by rewrite <- HT. }
  destruct (Stat (Fs opts) p) as [[fi|] [x|]] eqn:HS.
  - injection H as <- <- <-. split; (apply Forall_leaf; [done|]); [|by apply Hvis'].
    apply local_leaf; [done|]. left. exists x. cbn. by rewrite HS.
  - assert (∀ vp', grows vp1 vp' ->
              Forall (local W opts) (subtree (set_info (mkNode None p d None []) fi)) ∧
              Forall (visitedIn W vp')
                (subtree (set_info (mkNode None p d None []) fi))) as Hleaf.
    { intros v Hg. split; (apply Forall_leaf; [done|]).
      - apply local_leaf; [done|]. right. exists fi. cbn. rewrite HS. auto.
      - eapply visitedIn_grows; [exact Hg|]. by apply Hvis'. }
    destruct (fiIsDir fi) eqn:Hdir; cbn [negb] in H; cbv iota in H.
    2:{ injection H as <- <- <-. apply Hleaf, grows_refl. }
    set (node1 := set_info (mkNode None p d None []) fi) in *.
    fold (atLimit opts node1) in H.
    destruct (atLimit opts node1) eqn:Hlim.
    { injection H as <- <- <-. apply Hleaf, grows_refl. }
    inv_bind H. destruct a as [dirMatch stop]. rename Ha into Hdm.
    destruct stop.
    { injection H as <- <- <-. apply Hleaf, grows_refl. }
    destruct (ReadDir (Fs opts) (path node1)) as [names [x|]] eqn:HR.
    { injection H as <- <- <-. split; (apply Forall_leaf; [done|]); [|by apply Hvis'].
      apply local_leaf; [done|]. right. exists fi. cbn. rewrite HS.
      split; [done|]. split; [done|]. right. exists x.
      change (path node1) with p in HR. by rewrite HR. }
    inv_bind H. destruct a as [[kept [dirs files]] vp2]. rename Ha into Hloop.
    inv_bind H. rename a into sorted. rename Ha into Hsort.
    injection H as <- <- <-.
    assert (grows vp1 vp2) as Hg.
    { eapply (visitNames_post W _ _ _ _ (Visit_post W fuel opts)) in Hloop
        as (_ & _ & _ & Hg); [done|constructor]. }
    eapply (visitNames_local W fuel opts node1 dirMatch IH) in Hloop;
      [| intros name Hname; by rewrite HR | constructor].
    assert (kept ≡ₚ sorted) as Hperm.
    { destruct (NoSort opts); [by injection Hsort as <-|].
      by eapply Node_sort_Permutation. }
    rewrite Hperm in Hloop.
    assert (dirMatch = true ->
            depth node1 ≠ 0%Z ∧ MatchDirs opts = true ∧
            Node_match W node1 (Pattern opts) opts = Ok true) as Hmatch.
    { intros ->. destruct (depth node1 =? 0)%Z eqn:Hz; [done|].
      cbn [negb andb] in Hdm. destruct (MatchDirs opts); [|done].
      split; [lia|]. split; [done|].
      destruct (nonempty (Pattern opts)).
      - inv_bind Hdm. injection Hdm as ->. done.
      - destruct (nonempty (IPattern opts)); [|done]. by inv_bind Hdm. }
    rewrite subtree_unfold. cbn [nodes set_nodes]. split.
    + constructor.
      * split; [|split].
        -- right. exists fi. cbn. rewrite HS. auto.
        -- intros Hl. exfalso. revert Hl Hlim. unfold atLimit, node1, set_nodes, set_info.
           cbn [depth]. congruence.
        -- exists dirMatch. split.
           ++ intros Hd. destruct (Hmatch Hd) as (? & ? & Hm). split; [done|].
              split; [done|]. rewrite <- Hm. by apply Node_match_same.
           ++ cbn [nodes set_nodes]. eapply Forall_impl; [exact Hloop|].
              intros c (Hc1 & Hc2 & _). split; [|done]. exact Hc1.
      * apply Forall_descendantsOf. eapply Forall_impl; [exact Hloop|].
        by intros c (_ & _ & ? & _).
    + constructor.
      * eapply visitedIn_grows; [exact Hg|]. by apply Hvis'.
      * apply Forall_descendantsOf. eapply Forall_impl; [exact Hloop|].
        by intros c (_ & _ & _ & ?).
  - injection H as <- <- <-. split; (apply Forall_leaf; [done|]); [|by apply Hvis'].
    apply local_leaf; [done|]. left. exists x. cbn. by rewrite HS.
  - done.
Qed.

(** ** The tree as a whole *)

Lemma subtree_child n c x : c ∈ nodes n -> x ∈ subtree c -> x ∈ subtree n.
Proof.
  intros Hc Hx. rewrite subtree_unfold. right.
  unfold descendantsOf. apply list_elem_of_In, in_flat_map.
  exists c. split; by apply list_elem_of_In.
Qed.

Lemma subtree_self n : n ∈ subtree n.
Proof. by left. Qed.

(** Induction from a root down to every node below it. *)
Lemma subtree_ind (Q : Node -> Prop) T :
  Q T -> (∀ n c, n ∈ subtree T -> Q n -> c ∈ nodes n -> Q c) ->
  ∀ n, n ∈ subtree T -> Q n.
Proof.
  intros HT Hstep n Hn.
  apply elem_of_cons in Hn as [->|Hn]; [done|].
  apply (descendants_ind (fun n => Q n ∧ ∀ x, x ∈ subtree n -> x ∈ subtree T)
           (fun n => Q n ∧ ∀ x, x ∈ subtree n -> x ∈ subtree T) (fun n H => H))
    with (T := T) (d := n); [|done|done].
  intros m c [Hm Hsub] Hc. split.
  - eapply Hstep; [|exact Hm|exact Hc]. apply Hsub, subtree_self.
  - intros x Hx. apply Hsub. by eapply subtree_child.
Qed.

Lemma subtree_trans T n x : n ∈ subtree T -> x ∈ subtree n -> x ∈ subtree T.
Proof.
  intros Hn. revert x.
  apply (subtree_ind (fun n => ∀ x, x ∈ subtree n -> x ∈ subtree T) T); [done| |done].
  intros m c _ Hm Hc x Hx. apply Hm. by eapply subtree_child.
Qed.

Lemma subtree_child_in T n c : n ∈ subtree T -> c ∈ nodes n -> c ∈ subtree T.
Proof.
  intros Hn Hc. apply (subtree_trans T n c Hn).
  apply (subtree_child n c c Hc), subtree_self.
Qed.

(** Every node below the root is the child of a node of the tree. *)
Lemma descendants_parent T d :
  d ∈ descendants T -> ∃ n, n ∈ subtree T ∧ d ∈ nodes n.
Proof.
  intros Hd.
  apply (descendants_ind (fun n => n ∈ subtree T)
           (fun c => c ∈ subtree T ∧ ∃ n, n ∈ subtree T ∧ c ∈ nodes n))
    with (T := T) (d := d); [tauto| |apply subtree_self|done].
  intros n c Hn Hc. split; [|eauto]. by eapply subtree_child_in.
Qed.

Lemma depthOk_child n c : depthOk n = true -> c ∈ nodes n ->
  depth c = (depth n + 1)%Z ∧ depthOk c = true.
Proof.
  intros Hn Hc. rewrite depthOk_unfold in Hn. apply list_elem_of_In in Hc.
  apply (proj1 (forallb_forall _ _) Hn), andb_true_iff in Hc as [Hc ?].
  split; [lia|done].
Qed.

Section Tree.
Context (W : World) (fuel : nat) (opts : Options) (node : Node)
        (vp : gmap string bool) (T : Node) (d f : Z) (vp' : gmap string bool).
Hypothesis Hfresh : fresh node.
Hypothesis Hvisit : Visit W fuel opts node vp = Ok (T, (d, f), vp').

Lemma tree_local n : n ∈ subtree T -> local W opts n.
Proof.
  destruct (Visit_local W fuel opts _ _ _ _ _ Hfresh Hvisit) as [Hl _].
  apply (proj1 (Forall_forall _ _) Hl).
Qed.

Lemma tree_visited n : n ∈ subtree T -> visitedIn W vp' n.
Proof.
  destruct (Visit_local W fuel opts _ _ _ _ _ Hfresh Hvisit) as [_ Hl].
  apply (proj1 (Forall_forall _ _) Hl).
Qed.

Lemma tree_post : visitPost W node vp (T, (d, f), vp').
Proof. destruct Hfresh as (_ & _ & Hn). by eapply Visit_post. Qed.

Lemma tree_built n : n ∈ subtree T -> built n = true.
Proof.
  destruct tree_post as (_ & _ & _ & _ & Hc).
  destruct Hfresh as (Hi & He & _). destruct (Hc Hi He) as (Hb & _).
  intros Hn. apply elem_of_cons in Hn as [->|Hn]; [done|]. by eapply built_descendants.
Qed.

Lemma tree_child n c :
  n ∈ subtree T -> c ∈ nodes n ->
  c ∈ subtree T ∧ fromListing W opts n c ∧
  ∃ dirMatch : bool,
    (dirMatch = true -> depth n ≠ 0%Z ∧ MatchDirs opts = true ∧
                        Node_match W n (Pattern opts) opts = Ok true) ∧
    (err c = None -> passes W opts dirMatch c).
Proof.
  intros Hn Hc. split; [by eapply subtree_child_in|].
  destruct (tree_local n Hn) as (_ & _ & dm & Hdm & Hall).
  split; [by apply (proj1 (Forall_forall _ _) Hall c Hc)|].
  exists dm. split; [done|]. by apply (proj1 (Forall_forall _ _) Hall c Hc).
Qed.

(** A file of the tree carries no error: an error beside metadata is the
    listing error of a directory. *)
Lemma tree_file_ok n : n ∈ subtree T -> isFileNode n = true -> err n = None.
Proof.
  intros Hn Hf. destruct (tree_local n Hn) as (Hr & _). unfold isFileNode in Hf.
  destruct Hr as [(e & _ & _ & Hi & _)|(fi & _ & Hi & [He|(e & Hd & _)])];
    rewrite Hi in Hf; try done. by rewrite Hd in Hf.
Qed.

End Tree.

(** Options for the examples: the defaults of [Mock.mkOpts] with the
    filters of [Visit] chosen. *)
Definition tuned (fs : FsT) (all dirsOnly matchDirs prune noSort : bool) (deep : Z)
    (pattern ipattern : string) : Options := {|
  Fs := fs;
  All := all; DirsOnly := dirsOnly; FullPath := false; IgnoreCase := false;
  FollowLink := false; DeepLevel := deep; Pattern := pattern;
  IPattern := ipattern; MatchDirs := matchDirs; Prune := prune;
  Contents := false; ByteSize := false; UnitSize := false; FileMode := false;
  ShowUid := false; ShowGid := false; LastMod := false; Quotes := false;
  Inodes := false; Device := false;
  NoSort := noSort; VerSort := false; ModSort := false; DirSort := false;
  NameSort := false; SizeSort := false; CTimeSort := false; ReverSort := false;
  NoIndent := false; Colorize := false; Color := None; Now := 0%Z
|}.

(** The paths of the nodes of a tree, for the examples. *)
Definition paths (T : Node) : list string := path <$> subtree T.

(** X1.  Every child in the tree of [Visit] stands for an entry of the listing
    of its parent: its path is the parent's path joined with a name
    [ReadDir] returned for the parent, it is one level deeper, and unless
    [All] is set the name does not start with a dot. *)
Theorem Visit_children_from_listing (W : World) (fuel : nat) (opts : Options)
    (node : Node) (vp : gmap string bool) (T : Node) (d f : Z)
    (vp' : gmap string bool) :
  fresh node ->
  Visit W fuel opts node vp = Ok (T, (d, f), vp') ->
  ∀ n c, n ∈ subtree T -> c ∈ nodes n ->
    ∃ name, name ∈ fst (ReadDir (Fs opts) (path n)) ∧
            path c = filepath_Join W (path n) name ∧
            depth c = (depth n + 1)%Z ∧
            (All opts = false -> HasPrefix name "." = false).
Proof.
  intros Hf H n c Hn Hc.
  destruct (tree_child W fuel opts node vp T d f vp' Hf H n c Hn Hc)
    as (_ & (name & Hin & Hh & Hp) & _).
  exists name. split; [done|]. split; [done|]. split.
  - destruct (tree_post W fuel opts node vp T d f vp' Hf H) as (_ & _ & Hok & _).
    assert (∀ m, m ∈ subtree T -> depthOk m = true) as Hall.
    { apply (subtree_ind (fun m => depthOk m = true)); [done|].
      intros m c' _ Hm Hc'. by destruct (depthOk_child m c' Hm Hc'). }
    by destruct (depthOk_child n c (Hall n Hn) Hc).
  - intros Ha. unfold hidden in Hh. by rewrite Ha in Hh.
Qed.

Lemma Visit_children_from_listing_witness :
  match Visit Mock.world 10 (Mock.mkOpts Mock.simpleFs) (New "root") ∅ with
  | Ok (T, _, _) =>
      paths T = ["root"; "root/a"; "root/b"; "root/c"; "root/c/d"; "root/c/e";
                 "root/c/g"; "root/c/g/h"; "root/c/g/i"; "root/c/k"; "root/j"] ∧
      ∀ n c, n ∈ subtree T -> c ∈ nodes n ->
        ∃ name, name ∈ fst (ReadDir Mock.simpleFs (path n)) ∧
                path c = path n +:+ "/" +:+ name ∧
                depth c = (depth n + 1)%Z ∧
                (false = false -> HasPrefix name "." = false)
  | _ => False
  end.
Proof.
  assert (isOk (Visit Mock.world 10 (Mock.mkOpts Mock.simpleFs) (New "root") ∅) = true)
    as Hret by (vm_compute; reflexivity).
  assert (match Visit Mock.world 10 (Mock.mkOpts Mock.simpleFs) (New "root") ∅ with
          | Ok (T, _, _) => paths T
          | _ => []
          end = ["root"; "root/a"; "root/b"; "root/c"; "root/c/d"; "root/c/e";
                 "root/c/g"; "root/c/g/h"; "root/c/g/i"; "root/c/k"; "root/j"])
    as Hpaths by (vm_compute; reflexivity).
  destruct (Visit Mock.world 10 (Mock.mkOpts Mock.simpleFs) (New "root") ∅)
    as [[[T [d f]] v]| |] eqn:H; [|discriminate Hret..].
  split.
  - exact Hpaths.
  - exact (Visit_children_from_listing Mock.world 10 (Mock.mkOpts Mock.simpleFs)
             (New "root") ∅ T d f v (conj eq_refl (conj eq_refl eq_refl)) H).
Defined.

(** X2.  With a depth limit ([DeepLevel] above zero) no node of the tree is
    deeper than the limit, and a node at the limit has no children. *)
Theorem Visit_depth_limit (W : World) (fuel : nat) (opts : Options)
    (node : Node) (vp : gmap string bool) (T : Node) (d f : Z)
    (vp' : gmap string bool) :
  fresh node -> (0 < DeepLevel opts)%Z -> (depth node <= DeepLevel opts)%Z ->
  Visit W fuel opts node vp = Ok (T, (d, f), vp') ->
  ∀ n, n ∈ subtree T ->
    (depth n <= DeepLevel opts)%Z ∧ (depth n = DeepLevel opts -> nodes n = []).
Proof.
  intros Hf Hpos Hle H.
  destruct (tree_post W fuel opts node vp T d f vp' Hf H) as (_ & Hd & Hok & _).
  assert (∀ n, n ∈ subtree T -> depthOk n = true ∧ (depth n <= DeepLevel opts)%Z) as Hall.
  { apply (subtree_ind (fun n => depthOk n = true ∧ (depth n <= DeepLevel opts)%Z)).
    - split; [done|lia].
    - intros n c Hn [Hokn Hdn] Hc. destruct (depthOk_child n c Hokn Hc) as [Hdc Hokc].
      split; [done|].
      destruct (tree_local W fuel opts node vp T d f vp' Hf H n Hn) as (_ & Hlim & _).
      destruct (atLimit opts n) eqn:Hat.
      + rewrite (Hlim eq_refl) in Hc. by apply elem_of_nil in Hc.
      + unfold atLimit in Hat. apply andb_false_iff in Hat as [Hat|Hat]; lia. }
  intros n Hn. split; [by apply Hall|]. intros Heq.
  destruct (tree_local W fuel opts node vp T d f vp' Hf H n Hn) as (_ & Hlim & _).
  apply Hlim. unfold atLimit. apply andb_true_iff. split; lia.
Qed.

Lemma Visit_depth_limit_witness :
  match Visit Mock.world 10 (tuned Mock.simpleFs false false false false false 2 "" "")
          (New "root") ∅ with
  | Ok (T, _, _) =>
      paths T = ["root"; "root/a"; "root/b"; "root/c"; "root/c/d"; "root/c/e";
                 "root/c/g"; "root/c/k"; "root/j"] ∧
      ∀ n, n ∈ subtree T -> (depth n <= 2)%Z ∧ (depth n = 2%Z -> nodes n = [])
  | _ => False
  end.
Proof.
  assert (isOk (Visit Mock.world 10
                  (tuned Mock.simpleFs false false false false false 2 "" "")
                  (New "root") ∅) = true)
    as Hret by (vm_compute; reflexivity).
  assert (match Visit Mock.world 10
                  (tuned Mock.simpleFs false false false false false 2 "" "")
                  (New "root") ∅ with
          | Ok (T, _, _) => paths T
          | _ => []
          end = ["root"; "root/a"; "root/b"; "root/c"; "root/c/d"; "root/c/e";
                 "root/c/g"; "root/c/k"; "root/j"])
    as Hpaths by (vm_compute; reflexivity).
  destruct (Visit Mock.world 10
              (tuned Mock.simpleFs false false false false false 2 "" "")
              (New "root") ∅)
    as [[[T [d f]] v]| |] eqn:H; [|discriminate Hret..].
  split.
  - exact Hpaths.
  - apply (Visit_depth_limit Mock.world 10
             (tuned Mock.simpleFs false false false false false 2 "" "")
             (New "root") ∅ T d f v (conj eq_refl (conj eq_refl eq_refl)));
      [reflexivity | discriminate | exact H].
Defined.

(** X3.  With [Prune], every directory kept below a node of the tree that
    recorded no error holds at least one kept file. *)
Theorem Visit_prune_keeps_no_empty_directory (W : World) (fuel : nat) (opts : Options)
    (node : Node) (vp : gmap string bool) (T : Node) (d f : Z)
    (vp' : gmap string bool) :
  fresh node -> Prune opts = true ->
  Visit W fuel opts node vp = Ok (T, (d, f), vp') ->
  ∀ c, c ∈ descendants T -> isDirNode c = true -> err c = None ->
       (0 < countFiles c)%Z.
Proof.
  intros Hf Hp H c Hc Hdir He.
  destruct (descendants_parent T c Hc) as (n & Hn & Hcn).
  destruct (tree_child W fuel opts node vp T d f vp' Hf H n c Hn Hcn)
    as (_ & _ & dm & _ & Hpass).
  specialize (Hpass He). unfold passes in Hpass. rewrite Hdir in Hpass.
  destruct Hpass as [Hne _]. specialize (Hne Hp).
  pose proof (countb_nonneg isFileNode (subtree c)) as Hnn.
  unfold countFiles in *. lia.
Qed.

(** A directory with nothing but an empty directory and a hidden file. *)
Definition sparseRoot : Mock.file :=
  Mock.dir "root" 0
    [ Mock.dir "empty" 0 [];
      Mock.dir "deep" 0 [ Mock.dir "er" 0 [ Mock.plain "x" 1 ]; Mock.dir "void" 0 [] ];
      Mock.dir "dots" 0 [ Mock.plain ".hidden" 1 ] ].

Definition sparseFs : FsT := Mock.MockFs (Mock.addFile "root" sparseRoot ∅).

Lemma Visit_prune_keeps_no_empty_directory_witness :
  match Visit Mock.world 10 (tuned sparseFs false false false true false 0 "" "")
          (New "root") ∅ with
  | Ok (T, _, _) =>
      paths T = ["root"; "root/deep"; "root/deep/er"; "root/deep/er/x"] ∧
      ∀ c, c ∈ descendants T -> isDirNode c = true -> err c = None ->
           (0 < countFiles c)%Z
  | _ => False
  end.
Proof.
  assert (isOk (Visit Mock.world 10
                  (tuned sparseFs false false false true false 0 "" "")
                  (New "root") ∅) = true)
    as Hret by (vm_compute; reflexivity).
  assert (match Visit Mock.world 10
                  (tuned sparseFs false false false true false 0 "" "")
                  (New "root") ∅ with
          | Ok (T, _, _) => paths T
          | _ => []
          end = ["root"; "root/deep"; "root/deep/er"; "root/deep/er/x"])
    as Hpaths by (vm_compute; reflexivity).
  destruct (Visit Mock.world 10
              (tuned sparseFs false false false true false 0 "" "") (New "root") ∅)
    as [[[T [d f]] v]| |] eqn:H; [|discriminate Hret..].
  split.
  - exact Hpaths.
  - exact (Visit_prune_keeps_no_empty_directory Mock.world 10
             (tuned sparseFs false false false true false 0 "" "")
             (New "root") ∅ T d f v (conj eq_refl (conj eq_refl eq_refl)) eq_refl H).
Defined.

(** X4.  With [DirsOnly], no file is kept below the root, and the file counter
    is 0 unless the root itself is a file. *)
Theorem Visit_dirs_only (W : World) (fuel : nat) (opts : Options)
    (node : Node) (vp : gmap string bool) (T : Node) (d f : Z)
    (vp' : gmap string bool) :
  fresh node -> DirsOnly opts = true ->
  Visit W fuel opts node vp = Ok (T, (d, f), vp') ->
  (∀ c, c ∈ descendants T -> isFileNode c = false) ∧
  f = (if isFileNode T then 1 else 0)%Z.
Proof.
  intros Hf Hdo H.
  assert (∀ c, c ∈ descendants T -> isFileNode c = false) as Hnone.
  { intros c Hc. destruct (isFileNode c) eqn:Hfile; [exfalso|done].
    destruct (descendants_parent T c Hc) as (n & Hn & Hcn).
    destruct (tree_child W fuel opts node vp T d f vp' Hf H n c Hn Hcn)
      as (HcT & _ & dm & _ & Hpass).
    specialize (Hpass (tree_file_ok W fuel opts node vp T d f vp' Hf H c HcT Hfile)).
    unfold passes in Hpass.
    assert (isDirNode c = false) as Hnd.
    { unfold isDirNode, isFileNode in *. destruct (info c); [|done].
      by destruct (fiIsDir _). }
    rewrite Hnd in Hpass. destruct Hpass as [Hpass _]. congruence. }
  split; [done|].
  destruct (tree_post W fuel opts node vp T d f vp' Hf H) as (_ & _ & _ & _ & Hc).
  destruct Hf as (Hi & He & _). destruct (Hc Hi He) as (_ & _ & ->).
  unfold countFiles, subtree. cbn [countb].
  assert (countb isFileNode (descendants T) = 0%Z) as ->; [|by destruct (isFileNode T)].
  revert Hnone. generalize (descendants T). intros l Hl.
  induction l as [|x l IH]; [done|]. cbn [countb].
  rewrite (Hl x) by by left. rewrite IH; [done|]. intros c Hcl. apply Hl. by right.
Qed.

Lemma Visit_dirs_only_witness :
  match Visit Mock.world 10 (tuned Mock.simpleFs false true false false false 0 "" "")
          (New "root") ∅ with
  | Ok (T, (d, f), _) =>
      paths T = ["root"; "root/c"; "root/c/g"] ∧ d = 2%Z ∧
      (∀ c, c ∈ descendants T -> isFileNode c = false) ∧
      f = (if isFileNode T then 1 else 0)%Z
  | _ => False
  end.
Proof.
  assert (isOk (Visit Mock.world 10
                  (tuned Mock.simpleFs false true false false false 0 "" "")
                  (New "root") ∅) = true)
    as Hret by (vm_compute; reflexivity).
  assert (match Visit Mock.world 10
                  (tuned Mock.simpleFs false true false false false 0 "" "")
                  (New "root") ∅ with
          | Ok (T, (d, _), _) => (paths T, d)
          | _ => ([], 0%Z)
          end = (["root"; "root/c"; "root/c/g"], 2%Z))
    as Hpaths by (vm_compute; reflexivity).
  destruct (Visit Mock.world 10
              (tuned Mock.simpleFs false true false false false 0 "" "") (New "root") ∅)
    as [[[T [d f]] v]| |] eqn:H; [|discriminate Hret..].
  apply pair_equal_spec in Hpaths as [Hpaths Hd].
  split; [|split].
  - exact Hpaths.
  - exact Hd.
  - exact (Visit_dirs_only Mock.world 10
             (tuned Mock.simpleFs false true false false false 0 "" "")
             (New "root") ∅ T d f v (conj eq_refl (conj eq_refl eq_refl)) eq_refl H).
Defined.



(** X6.  With an [IPattern], no file kept below the root matches it, and with
    [MatchDirs] no directory kept below the root that recorded no error
    matches it either. *)
Theorem Visit_ipattern_drops_matches (W : World) (fuel : nat) (opts : Options)
    (node : Node) (vp : gmap string bool) (T : Node) (d f : Z)
    (vp' : gmap string bool) :
  fresh node -> nonempty (IPattern opts) = true ->
  Visit W fuel opts node vp = Ok (T, (d, f), vp') ->
  ∀ c, c ∈ descendants T -> err c = None ->
       isFileNode c = true ∨ MatchDirs opts = true ->
       Node_match W c (IPattern opts) opts = Ok false.
Proof.
  intros Hf Hpat H c Hc He Hor.
  destruct (descendants_parent T c Hc) as (n & Hn & Hcn).
  destruct (tree_child W fuel opts node vp T d f vp' Hf H n c Hn Hcn)
    as (_ & _ & dm & _ & Hpass).
  specialize (Hpass He). unfold passes in Hpass.
  destruct (isDirNode c) eqn:Hdir.
  - destruct Hor as [Hfile|Hmd].
    + unfold isDirNode, isFileNode in *. destruct (info c); [|done].
      by destruct (fiIsDir _).
    + destruct Hpass as [_ Hm]. by apply Hm.
  - destruct Hpass as (_ & _ & Hm). by apply Hm.
Qed.

Lemma Visit_ipattern_drops_matches_witness :
  match Visit Mock.world 10
          (tuned Mock.simpleFs false false true false false 0 "" "(c|a)")
          (New "root") ∅ with
  | Ok (T, _, _) =>
      paths T = ["root"; "root/b"; "root/j"] ∧
      ∀ c, c ∈ descendants T -> err c = None ->
           isFileNode c = true ∨ true = true ->
           Node_match Mock.world c "(c|a)"
             (tuned Mock.simpleFs false false true false false 0 "" "(c|a)") = Ok false
  | _ => False
  end.
Proof.
  assert (isOk (Visit Mock.world 10
                  (tuned Mock.simpleFs false false true false false 0 "" "(c|a)")
                  (New "root") ∅) = true)
    as Hret by (vm_compute; reflexivity).
  assert (match Visit Mock.world 10
                  (tuned Mock.simpleFs false false true false false 0 "" "(c|a)")
                  (New "root") ∅ with
          | Ok (T, _, _) => paths T
          | _ => []
          end = ["root"; "root/b"; "root/j"])
    as Hpaths by (vm_compute; reflexivity).
  destruct (Visit Mock.world 10
              (tuned Mock.simpleFs false false true false false 0 "" "(c|a)")
              (New "root") ∅)
    as [[[T [d f]] v]| |] eqn:H; [|discriminate Hret..].
  split.
  - exact Hpaths.
  - exact (Visit_ipattern_drops_matches Mock.world 10
             (tuned Mock.simpleFs false false true false false 0 "" "(c|a)")
             (New "root") ∅ T d f v (conj eq_refl (conj eq_refl eq_refl)) eq_refl H).
Defined.

(** X7.  [Visit] records every node it keeps as visited: the clean absolute
    path of each node of the tree is a key of [vpaths] afterwards, and
    no key that was there before is lost. *)
Theorem Visit_records_visited_paths (W : World) (fuel : nat) (opts : Options)
    (node : Node) (vp : gmap string bool) (T : Node) (d f : Z)
    (vp' : gmap string bool) :
  fresh node ->
  Visit W fuel opts node vp = Ok (T, (d, f), vp') ->
  (∀ n p, n ∈ subtree T -> filepath_Abs W (path n) = (p, None) ->
          is_Some (vp' !! filepath_Clean W p)) ∧
  (∀ k, is_Some (vp !! k) -> is_Some (vp' !! k)).
Proof.
  intros Hf H. split.
  - intros n p Hn Hp.
    by apply (tree_visited W fuel opts node vp T d f vp' Hf H n Hn).
  - destruct (tree_post W fuel opts node vp T d f vp' Hf H) as (_ & _ & _ & Hg & _).
    intros k Hk. by apply Hg, grows_marked.
Qed.

Lemma Visit_records_visited_paths_witness :
  match Visit Mock.world 10 (Mock.mkOpts Mock.errorFs) (New "root") ∅ with
  | Ok (T, _, vp') =>
      paths T = ["root"; "root/a"; "root/b"; "root/j"; "root/bad"] ∧
      (∀ n p, n ∈ subtree T -> ("/cwd/" +:+ path n, @None error) = (p, None) ->
              is_Some (vp' !! p)) ∧
      (∀ k, is_Some ((∅ : gmap string bool) !! k) -> is_Some (vp' !! k))
  | _ => False
  end.
Proof.
  assert (isOk (Visit Mock.world 10 (Mock.mkOpts Mock.errorFs) (New "root") ∅) = true)
    as Hret by (vm_compute; reflexivity).
  assert (match Visit Mock.world 10 (Mock.mkOpts Mock.errorFs) (New "root") ∅ with
          | Ok (T, _, _) => paths T
          | _ => []
          end = ["root"; "root/a"; "root/b"; "root/j"; "root/bad"])
    as Hpaths by (vm_compute; reflexivity).
  destruct (Visit Mock.world 10 (Mock.mkOpts Mock.errorFs) (New "root") ∅)
    as [[[T [d f]] v]| |] eqn:H; [|discriminate Hret..].
  split.
  - exact Hpaths.
  - exact (Visit_records_visited_paths Mock.world 10 (Mock.mkOpts Mock.errorFs)
             (New "root") ∅ T d f v (conj eq_refl (conj eq_refl eq_refl)) H).
Defined.

(** X8.  Every node of the tree says what the file system said of its path.
    When [Stat] fails the node holds that error, no metadata and no
    children.  Otherwise it holds the metadata [Stat] gave, and an error
    only if it is a directory whose listing failed with that error, in
    which case it has no children; only a directory has children. *)
Theorem Visit_nodes_reflect_file_system (W : World) (fuel : nat) (opts : Options)
    (node : Node) (vp : gmap string bool) (T : Node) (d f : Z)
    (vp' : gmap string bool) :
  fresh node ->
  Visit W fuel opts node vp = Ok (T, (d, f), vp') ->
  ∀ n, n ∈ subtree T ->
    match Stat (Fs opts) (path n) with
    | (_, Some e) => err n = Some e ∧ info n = None ∧ nodes n = []
    | (None, None) => False
    | (Some fi, None) =>
        info n = Some fi ∧
        (fiIsDir fi = false -> err n = None ∧ nodes n = []) ∧
        (∀ e, err n = Some e ->
              snd (ReadDir (Fs opts) (path n)) = Some e ∧ nodes n = [])
    end.
Proof.
  intros Hf H n Hn.
  destruct (tree_local W fuel opts node vp T d f vp' Hf H n Hn) as (Hr & _).
  pose proof (tree_built W fuel opts node vp T d f vp' Hf H n Hn) as Hb.
  destruct Hr as [(e & HS & He & Hi & Hns)|(fi & HS & Hi & Hr)].
  - destruct (Stat (Fs opts) (path n)) as [i [x|]]; cbn [snd] in HS; [|done].
    injection HS as HS. subst x. destruct i; auto.
  - rewrite HS. split; [done|]. split.
    + intros Hdir. destruct Hr as [He|(e & Hd & _)]; [|congruence].
      split; [done|]. destruct n as [i p k x ns]. cbn [info err nodes] in *.
      subst i x. cbn [built info err nodes] in Hb. rewrite Hdir in Hb.
      by destruct ns.
    + intros e He. destruct Hr as [He'|(e' & _ & HR & He' & Hns)]; [congruence|].
      split; [congruence|done].
Qed.

Lemma Visit_nodes_reflect_file_system_witness :
  match Visit Mock.world 10 (Mock.mkOpts Mock.unlistedFs) (New "root") ∅ with
  | Ok (T, _, _) =>
      (err <$> subtree T)
        = [None; None; None; Some "open root/c: permission denied"; None] ∧
      ∀ n, n ∈ subtree T ->
        match Stat Mock.unlistedFs (path n) with
        | (_, Some e) => err n = Some e ∧ info n = None ∧ nodes n = []
        | (None, None) => False
        | (Some fi, None) =>
            info n = Some fi ∧
            (fiIsDir fi = false -> err n = None ∧ nodes n = []) ∧
            (∀ e, err n = Some e ->
                  snd (ReadDir Mock.unlistedFs (path n)) = Some e ∧ nodes n = [])
        end
  | _ => False
  end.
Proof.
  assert (isOk (Visit Mock.world 10 (Mock.mkOpts Mock.unlistedFs) (New "root") ∅) = true)
    as Hret by (vm_compute; reflexivity).
  assert (match Visit Mock.world 10 (Mock.mkOpts Mock.unlistedFs) (New "root") ∅ with
          | Ok (T, _, _) => err <$> subtree T
          | _ => []
          end = [None; None; None; Some "open root/c: permission denied"; None])
    as Herrs by (vm_compute; reflexivity).
  destruct (Visit Mock.world 10 (Mock.mkOpts Mock.unlistedFs) (New "root") ∅)
    as [[[T [d f]] v]| |] eqn:H; [|discriminate Hret..].
  split.
  - exact Herrs.
  - exact (Visit_nodes_reflect_file_system Mock.world 10 (Mock.mkOpts Mock.unlistedFs)
             (New "root") ∅ T d f v (conj eq_refl (conj eq_refl eq_refl)) H).
Defined.

(** ** What the tree of [Visit] does not leave out *)

(** The names of a listing the loop of [Visit] goes on with. *)
Definition shown (opts : Options) (names : list string) : list string :=
  List.filter (fun name => negb (hidden opts name)) names.

(** [Visit] returned from the directory [n] before listing it because
    [n], with [MatchDirs] and no [Pattern], matches [IPattern]. *)
Definition stopped (W : World) (opts : Options) (n : Node) : bool :=
  negb (depth n =? 0)%Z && MatchDirs opts && negb (nonempty (Pattern opts)) &&
  nonempty (IPattern opts) &&
  match Node_match W n (IPattern opts) opts with Ok true => true | _ => false end.

(** No option that drops a child is set. *)
Definition unfiltered (opts : Options) : Prop :=
  Prune opts = false ∧ DirsOnly opts = false ∧
  nonempty (Pattern opts) = false ∧ nonempty (IPattern opts) = false.

(** [n] is a directory [Visit] listed without error. *)
Definition entered (opts : Options) (n : Node) : Prop :=
  isDirNode n = true ∧ err n = None ∧ atLimit opts n = false.

(** [Visit] of the path [q] at depth [k] ends with the error [e]: [Stat]
    fails with it, or [q] is a directory within the depth limit whose
    listing fails with it, [MatchDirs] being off. *)
Definition failing (opts : Options) (q : string) (k : Z) (e : error) : Prop :=
  snd (Stat (Fs opts) q) = Some e ∨
  (∃ fi, Stat (Fs opts) q = (Some fi, None) ∧ fiIsDir fi = true ∧
         (0 <? DeepLevel opts)%Z && (DeepLevel opts <=? k)%Z = false ∧
         MatchDirs opts = false ∧ snd (ReadDir (Fs opts) q) = Some e).

Definition complete (W : World) (opts : Options) (n : Node) : Prop :=
  entered opts n ->
  (∀ name e, name ∈ fst (ReadDir (Fs opts) (path n)) -> hidden opts name = false ->
     failing opts (filepath_Join W (path n) name) (depth n + 1) e ->
     ∃ c, c ∈ nodes n ∧ path c = filepath_Join W (path n) name ∧ err c = Some e) ∧
  (unfiltered opts ->
   path <$> nodes n
     ≡ₚ filepath_Join W (path n) <$> shown opts (fst (ReadDir (Fs opts) (path n)))) ∧
  (unfiltered opts -> NoSort opts = true ->
   path <$> nodes n
     = filepath_Join W (path n) <$> shown opts (fst (ReadDir (Fs opts) (path n)))).

Lemma dropChild_unfiltered W opts dirMatch c fi f :
  unfiltered opts -> info c = Some fi -> dropChild W opts dirMatch c f = Ok false.
Proof.
  intros (Hp & Hd & Hpat & Hipat) Hi. unfold dropChild, Node_IsDir.
  rewrite (Node_method_Ok _ _ _ Hi). cbn [mbind res_bind].
  rewrite Hp, Hd, Hpat, Hipat, !andb_false_r. cbn [mbind res_bind].
  by destruct (fiIsDir fi).
Qed.

Lemma dropChild_not_stopped W opts dirMatch c fi f :
  info c = Some fi -> fiIsDir fi = true ->
  dropChild W opts dirMatch c f = Ok false -> stopped W opts c = false.
Proof.
  intros Hi Hdir H. unfold dropChild, Node_IsDir in H.
  rewrite (Node_method_Ok _ _ _ Hi), Hdir in H. cbn [mbind res_bind] in H.
  unfold stopped.
  destruct (Prune opts && (f =? 0)%Z); [done|].
  destruct (MatchDirs opts); [|by rewrite andb_false_r].
  destruct (nonempty (IPattern opts)); [|by rewrite andb_false_r].
  cbn [andb] in H. rewrite H. by rewrite andb_false_r.
Qed.

Lemma Visit_failing W fuel opts q k vp T df vp' e :
  Visit W fuel opts (mkNode None q k None []) vp = Ok (T, df, vp') ->
  failing opts q k e -> err T = Some e.
Proof.
  destruct fuel as [|fuel]; [done|]. cbn [Visit path depth]. intros H Hfail.
  destruct Hfail as [HS|(fi & HS & Hdir & Hlim & Hmd & HR)].
  - destruct (Stat (Fs opts) q) as [i [x|]]; cbn [snd] in HS; [|done].
    injection HS as ->. destruct i; by injection H as <- <- <-.
  - rewrite HS, Hdir in H. cbn [negb set_info depth path] in H. cbv iota in H.
    rewrite Hlim, Hmd, andb_false_r in H. cbn [mbind res_bind] in H.
    destruct (ReadDir (Fs opts) q) as [names [x|]]; cbn [snd] in HR; [|done].
    injection HR as ->. by injection H as <- <- <-.
Qed.

Lemma visitNames_complete W fuel opts node dirMatch :
  (∀ n vp T df vp', fresh n -> Visit W fuel opts n vp = Ok (T, df, vp') ->
     (stopped W opts T = false -> complete W opts T) ∧
     Forall (complete W opts) (descendants T)) ->
  ∀ names kept dirs files vp kept' dirs' files' vp',
    visitNames W (Visit W fuel opts) opts node dirMatch names kept dirs files vp
      = Ok (kept', (dirs', files'), vp') ->
    (Forall (fun c => Forall (complete W opts) (subtree c)) kept ->
     Forall (fun c => Forall (complete W opts) (subtree c)) kept') ∧
    (∀ c, c ∈ kept -> c ∈ kept') ∧
    (∀ name e, name ∈ names -> hidden opts name = false ->
       failing opts (filepath_Join W (path node) name) (depth node + 1) e ->
       ∃ c, c ∈ kept' ∧ path c = filepath_Join W (path node) name ∧ err c = Some e) ∧
    (unfiltered opts ->
     path <$> kept' = (path <$> kept) ++ (filepath_Join W (path node) <$> shown opts names)).
Proof.
  intros IH names.
  induction names as [|name rest IHn];
    intros kept dirs files vp kept' dirs' files' vp' H.
  - cbn [visitNames] in H. injection H as <- <- <- <-.
    split; [done|]. split; [done|]. split.
    + intros name e Hin. by apply elem_of_nil in Hin.
    + intros _. cbn. by rewrite app_nil_r.
  - cbn [visitNames] in H. fold (hidden opts name) in H.
    unfold shown. cbn [List.filter]. fold (shown opts rest).
    destruct (hidden opts name) eqn:Hh; cbn [negb].
    { apply IHn in H as (H1 & H2 & H3 & H4). split; [done|]. split; [done|].
      split; [|done]. intros x e Hx Hhx HS.
      apply elem_of_cons in Hx as [->|Hx]; [congruence|]. by eapply H3. }
    inv_bind H. destruct a as [[nnode [d f]] vp1]. rename Ha into Hv.
    assert (visitPost W (mkNode None (filepath_Join W (path node) name)
                           (depth node + 1) None []) vp (nnode, (d, f), vp1))
      as Hpost by (by eapply Visit_post).
    destruct Hpost as (Hp & _ & _ & _ & Hc).
    destruct (Hc eq_refl eq_refl) as (Hb & _ & _). cbn [path] in Hp.
    assert (∀ e, failing opts (filepath_Join W (path node) name) (depth node + 1) e ->
                 err nnode = Some e) as Herr.
    { intros e. by apply (Visit_failing W fuel opts _ _ _ _ _ _ e Hv). }
    apply IH in Hv as [Hstop Hdesc]; [|done].
    inv_bind H. rename Ha into Hdrop.
    destruct a.
    + (* dropped: the child recorded no error *)
      apply IHn in H as (H1 & H2 & H3 & H4). split; [done|]. split; [done|]. split.
      * intros x e Hx Hhx HS. apply elem_of_cons in Hx as [->|Hx]; [|by eapply H3].
        rewrite (Herr e HS) in Hdrop. done.
      * intros Hu. exfalso. destruct (err nnode) eqn:He; [done|].
        destruct (built_info _ Hb He) as [fi Hfi].
        by rewrite (dropChild_unfiltered W opts dirMatch nnode fi f Hu Hfi) in Hdrop.
    + apply IHn in H as (H1 & H2 & H3 & H4). split; [|split; [|split]].
      * intros Hk. apply H1, Forall_app. split; [done|]. constructor; [|done].
        rewrite subtree_unfold, <- descendants_unfold. constructor; [|done].
        intros (Hdir & He & Hlim). apply Hstop; [|done].
        rewrite He in Hdrop. unfold isDirNode in Hdir.
        destruct (info nnode) as [fi|] eqn:Hfi; [|done].
        by eapply dropChild_not_stopped.
      * intros c Hck. apply H2, elem_of_app. by left.
      * intros x e Hx Hhx HS. apply elem_of_cons in Hx as [->|Hx]; [|by eapply H3].
        exists nnode. split; [apply H2, elem_of_app; right; by left|].
        split; [done|]. by apply Herr.
      * intros Hu. rewrite (H4 Hu), fmap_app, <- app_assoc. cbn. by rewrite Hp.
Qed.

Lemma stopped_same W opts n m :
  info n = info m -> path n = path m -> depth n = depth m ->
  stopped W opts n = stopped W opts m.
Proof.
  intros Hi Hp Hd. unfold stopped.
  by rewrite (Node_match_same W n m _ _ Hi Hp), Hd.
Qed.

Lemma Visit_complete W fuel opts :
  ∀ n vp T df vp', fresh n -> Visit W fuel opts n vp = Ok (T, df, vp') ->
    (stopped W opts T = false -> complete W opts T) ∧
    Forall (complete W opts) (descendants T).
Proof.
  induction fuel as [|fuel IH]; intros n vp T df vp' Hf H; [done|].
  cbn [Visit] in H. fold (marked W n vp) in H.
  set (vp1 := marked W n vp) in *.
  destruct n as [i p d e ns]. destruct Hf as (Hi & He & Hn).
  cbn [info err nodes path depth] in *. subst i e ns.
  assert (∀ T' : Node, nodes T' = [] -> ¬ entered opts T' \/ stopped W opts T' = true ->
            (stopped W opts T' = false -> complete W opts T') ∧
            Forall (complete W opts) (descendants T')) as Hleaf.
  { intros T' Hns Hne. split.
    - intros Hst Hen. destruct Hne as [Hne|Hne]; [done|congruence].
    - rewrite descendants_unfold, Hns. constructor. }
  destruct (Stat (Fs opts) p) as [[fi|] [x|]] eqn:HS.
  - injection H as <- <- <-. apply Hleaf; [done|]. left. by intros (_ & ? & _).
  - destruct (fiIsDir fi) eqn:Hdir; cbn [negb] in H; cbv iota in H.
    2:{ injection H as <- <- <-. apply Hleaf; [done|]. left.
        intros (Hd & _). unfold isDirNode in Hd. cbn in Hd. congruence. }
    set (node1 := set_info (mkNode None p d None []) fi) in *.
    fold (atLimit opts node1) in H.
    destruct (atLimit opts node1) eqn:Hlim.
    { injection H as <- <- <-. apply Hleaf; [done|]. left.
      intros (_ & _ & ?). congruence. }
    inv_bind H. destruct a as [dirMatch stop]. rename Ha into Hdm.
    destruct stop.
    { injection H as <- <- <-. apply Hleaf; [done|]. right.
      unfold stopped. destruct (negb (depth node1 =? 0)%Z && MatchDirs opts);
        [|done]. cbn [andb].
      destruct (nonempty (Pattern opts)); [by inv_bind Hdm|].
      destruct (nonempty (IPattern opts)); [|done].
      inv_bind Hdm. injection Hdm as _ ->. by rewrite Ha. }
    destruct (ReadDir (Fs opts) (path node1)) as [names [x|]] eqn:HR.
    { injection H as <- <- <-. apply Hleaf; [done|]. left. by intros (_ & ? & _). }
    inv_bind H. destruct a as [[kept [dirs files]] vp2]. rename Ha into Hloop.
    inv_bind H. rename a into sorted. rename Ha into Hsort.
    injection H as <- <- <-.
    apply (visitNames_complete W fuel opts node1 dirMatch IH) in Hloop
      as (Hall & _ & Herrs & Hmirror).
    specialize (Hall (Forall_nil_2 _)).
    assert (kept ≡ₚ sorted) as Hperm.
    { destruct (NoSort opts); [by injection Hsort as <-|].
      by eapply Node_sort_Permutation. }
    split.
    + intros _ _. cbn [path nodes set_nodes]. change (path node1) with p in *.
      rewrite HR. cbn [fst]. split; [|split].
      * intros name e Hin Hh HSn.
        destruct (Herrs name e Hin Hh HSn) as (c & Hc & Hpc & Hec).
        exists c. by rewrite <- Hperm.
      * intros Hu. rewrite <- Hperm. by rewrite (Hmirror Hu).
      * intros Hu Hns. rewrite Hns in Hsort. injection Hsort as <-.
        by rewrite (Hmirror Hu).
    + rewrite descendants_unfold. cbn [nodes set_nodes].
      apply Forall_descendantsOf. by rewrite <- Hperm.
  - injection H as <- <- <-. apply Hleaf; [done|]. left. by intros (_ & ? & _).
  - done.
Qed.

Lemma tree_complete W fuel opts node vp T d f vp' n :
  fresh node -> depth node = 0%Z ->
  Visit W fuel opts node vp = Ok (T, (d, f), vp') ->
  n ∈ subtree T -> complete W opts n.
Proof.
  intros Hf Hd H Hn.
  destruct (Visit_complete W fuel opts _ _ _ _ _ Hf H) as [Hroot Hall].
  destruct (tree_post W fuel opts node vp T d f vp' Hf H) as (_ & HdT & _).
  apply elem_of_cons in Hn as [->|Hn].
  - apply Hroot. unfold stopped. by rewrite HdT, Hd.
  - by apply (proj1 (Forall_forall _ _) Hall).
Qed.

(** X9.  An entry whose [Stat] fails is never filtered out: in the tree built
    from a root at depth 0, every directory that was listed has, for each
    name of its listing that is not hidden and on which [Stat] fails, a
    child with that path holding that error, whatever [Prune],
    [DirsOnly] and the patterns say. *)
Theorem Visit_keeps_failed_entries (W : World) (fuel : nat) (opts : Options)
    (node : Node) (vp : gmap string bool) (T : Node) (d f : Z)
    (vp' : gmap string bool) :
  fresh node -> depth node = 0%Z ->
  Visit W fuel opts node vp = Ok (T, (d, f), vp') ->
  ∀ n name e, n ∈ subtree T ->
    isDirNode n = true -> err n = None -> atLimit opts n = false ->
    name ∈ fst (ReadDir (Fs opts) (path n)) -> hidden opts name = false ->
    snd (Stat (Fs opts) (filepath_Join W (path n) name)) = Some e ->
    ∃ c, c ∈ nodes n ∧ path c = filepath_Join W (path n) name ∧ err c = Some e.
Proof.
  intros Hf Hd H n name e Hn Hdir He Hlim Hin Hh HS.
  destruct (tree_complete W fuel opts node vp T d f vp' n Hf Hd H Hn
              (conj Hdir (conj He Hlim))) as [Hk _].
  apply Hk; [done|done|]. by left.
Qed.

Lemma Visit_keeps_failed_entries_witness :
  match Visit Mock.world 10 (tuned Mock.errorFs false true true true false 0 "zzz" "")
          (New "root") ∅ with
  | Ok (T, _, _) =>
      paths T = ["root"; "root/bad"] ∧
      ∃ c, c ∈ nodes T ∧ path c = "root/bad" ∧ err c = Some "stat failed"
  | _ => False
  end.
Proof.
  assert (isOk (Visit Mock.world 10
                  (tuned Mock.errorFs false true true true false 0 "zzz" "")
                  (New "root") ∅) = true)
    as Hret by (vm_compute; reflexivity).
  assert (match Visit Mock.world 10
                  (tuned Mock.errorFs false true true true false 0 "zzz" "")
                  (New "root") ∅ with
          | Ok (T, _, _) => (paths T, isDirNode T, err T, path T)
          | _ => ([], false, None, "")
          end = (["root"; "root/bad"], true, None, "root"))
    as Hfacts by (vm_compute; reflexivity).
  destruct (Visit Mock.world 10
              (tuned Mock.errorFs false true true true false 0 "zzz" "")
              (New "root") ∅)
    as [[[T [d f]] v]| |] eqn:H; [|discriminate Hret..].
  apply pair_equal_spec in Hfacts as [Hfacts Hpath].
  apply pair_equal_spec in Hfacts as [Hfacts Herr].
  apply pair_equal_spec in Hfacts as [Hpaths Hdir].
  split; [exact Hpaths|].
  assert (filepath_Join Mock.world (path T) "bad" = "root/bad") as Hj
    by (rewrite Hpath; reflexivity).
  rewrite <- Hj.
  apply (Visit_keeps_failed_entries Mock.world 10
           (tuned Mock.errorFs false true true true false 0 "zzz" "")
           (New "root") ∅ T d f v (conj eq_refl (conj eq_refl eq_refl)) eq_refl H
           T "bad" "stat failed" (subtree_self T) Hdir Herr eq_refl).
  - rewrite Hpath. vm_compute. repeat constructor.
  - reflexivity.
  - rewrite Hj. reflexivity.
Defined.

(** X10.  Without [Prune], [DirsOnly], [Pattern] and [IPattern] the tree
    mirrors the file system: the children of every directory that was
    listed are exactly the entries of its listing that are not hidden,
    and with [NoSort] they are in the order of the listing. *)
Theorem Visit_unfiltered_mirrors_listing (W : World) (fuel : nat) (opts : Options)
    (node : Node) (vp : gmap string bool) (T : Node) (d f : Z)
    (vp' : gmap string bool) :
  fresh node -> depth node = 0%Z -> unfiltered opts ->
  Visit W fuel opts node vp = Ok (T, (d, f), vp') ->
  ∀ n, n ∈ subtree T ->
    isDirNode n = true -> err n = None -> atLimit opts n = false ->
    path <$> nodes n
      ≡ₚ filepath_Join W (path n) <$> shown opts (fst (ReadDir (Fs opts) (path n))) ∧
    (NoSort opts = true ->
     path <$> nodes n
       = filepath_Join W (path n) <$> shown opts (fst (ReadDir (Fs opts) (path n)))).
Proof.
  intros Hf Hd Hu H n Hn Hdir He Hlim.
  destruct (tree_complete W fuel opts node vp T d f vp' n Hf Hd H Hn
              (conj Hdir (conj He Hlim))) as (_ & Hp & Heq).
  split; [by apply Hp|]. by apply Heq.
Qed.

Lemma Visit_unfiltered_mirrors_listing_witness :
  match Visit Mock.world 10 (tuned Mock.simpleFs true false false false true 0 "" "")
          (New "root/c") ∅ with
  | Ok (T, _, _) =>
      path <$> nodes T
        = ["root/c/d"; "root/c/e"; "root/c/.f"; "root/c/g"; "root/c/k"]
  | _ => False
  end.
Proof.
  assert (isOk (Visit Mock.world 10
                  (tuned Mock.simpleFs true false false false true 0 "" "")
                  (New "root/c") ∅) = true)
    as Hret by (vm_compute; reflexivity).
  assert (match Visit Mock.world 10
                  (tuned Mock.simpleFs true false false false true 0 "" "")
                  (New "root/c") ∅ with
          | Ok (T, _, _) => (isDirNode T, err T, path T)
          | _ => (false, None, "")
          end = (true, None, "root/c"))
    as Hfacts by (vm_compute; reflexivity).
  destruct (Visit Mock.world 10
              (tuned Mock.simpleFs true false false false true 0 "" "")
              (New "root/c") ∅)
    as [[[T [d f]] v]| |] eqn:H; [|discriminate Hret..].
  apply pair_equal_spec in Hfacts as [Hfacts Hpath].
  apply pair_equal_spec in Hfacts as [Hdir Herr].
  destruct (Visit_unfiltered_mirrors_listing Mock.world 10
              (tuned Mock.simpleFs true false false false true 0 "" "")
              (New "root/c") ∅ T d f v (conj eq_refl (conj eq_refl eq_refl)) eq_refl
              (conj eq_refl (conj eq_refl (conj eq_refl eq_refl))) H
              T (subtree_self T) Hdir Herr eq_refl) as [_ Heq].
  rewrite (Heq eq_refl), Hpath. vm_compute. reflexivity.
Defined.

(** ** The order [sort] leaves a short list of children in *)

Lemma before_cons_inv {A} (a b c : A) l :
  before a b (c :: l) -> (a = c ∧ b ∈ l) ∨ before a b l.
Proof.
  unfold before. intros [H|(l' & Heq & H)]%sublist_cons_r; [by right|].
  injection Heq as -> <-. left. split; [done|].
  apply sublist_submseteq in H. eapply elem_of_submseteq; [|exact H]. by left.
Qed.

Lemma before_head {A} (a b : A) l : b ∈ l -> before a b (a :: l).
Proof. intros H. apply sublist_skip. by apply sublist_singleton. Qed.

Section SortedSmall.

Context {A : Type} (less : A -> A -> bool) (P : A -> Prop).

(** [less] is a strict weak order on the elements that satisfy [P]. *)
Hypothesis asym : ∀ a b, P a -> P b -> less a b = true -> less b a = false.
Hypothesis ntrans :
  ∀ a b c, P a -> P b -> P c -> less a b = false -> less b c = false -> less a c = false.

(** The sorted prefix, held last element first: no element is less than
    one that comes after it in the list. *)
Definition descending (rp : list A) : Prop :=
  ∀ a b, before a b rp -> less a b = false.

Lemma elem_of_insR x rp y : y ∈ insR less x rp -> y = x ∨ y ∈ rp.
Proof.
  induction rp as [|p rp IH]; cbn [insR].
  - intros ->%list_elem_of_singleton. by left.
  - destruct (less x p).
    + intros [->|H]%elem_of_cons; [right; by left|].
      destruct (IH H) as [->|?]; [by left|right; by right].
    + intros [->|H]%elem_of_cons; [by left|by right].
Qed.

Lemma insR_descending x rp :
  P x -> Forall P rp -> descending rp -> descending (insR less x rp).
Proof.
  intros Hx. induction rp as [|p rp IH]; intros HP Hd; cbn [insR].
  - intros a b H. apply before_cons_inv in H as [[_ H]|H].
    + by apply elem_of_nil in H.
    + by apply sublist_nil_r in H.
  - apply Forall_cons in HP as [Hp HP].
    assert (descending rp) as Hd'.
    { intros a b H. apply Hd. by apply sublist_cons. }
    assert (∀ y, y ∈ rp -> less p y = false) as Hpy.
    { intros y Hy. apply Hd. by apply before_head. }
    destruct (less x p) eqn:Hxp.
    + intros a b H. apply before_cons_inv in H as [[-> H]|H].
      * apply elem_of_insR in H as [->|H]; [by apply asym|by apply Hpy].
      * by apply (IH HP Hd').
    + intros a b H. apply before_cons_inv in H as [[-> H]|H]; [|by apply Hd].
      apply elem_of_cons in H as [->|H]; [done|].
      apply (ntrans x p b); try done.
      * by apply (proj1 (Forall_forall _ _) HP).
      * by apply Hpy.
Qed.

Lemma Forall_insR x rp : P x -> Forall P rp -> Forall P (insR less x rp).
Proof.
  intros Hx HP. apply Forall_forall. intros y Hy.
  apply elem_of_insR in Hy as [->|Hy]; [done|].
  by apply (proj1 (Forall_forall _ _) HP).
Qed.

Lemma foldl_insR_descending data : ∀ rp,
  Forall P data -> Forall P rp -> descending rp ->
  descending (foldl (fun rp x => insR less x rp) rp data).
Proof.
  induction data as [|x data IH]; intros rp Hdata HP Hd; [done|].
  apply Forall_cons in Hdata as [Hx Hdata]. cbn [foldl].
  apply IH; [done|by apply Forall_insR|by apply insR_descending].
Qed.

(** Insertion sort orders its input: no element of the result is less
    than one that comes before it. *)
Lemma isort_sorted data a b :
  Forall P data -> before a b (isort less data) -> less b a = false.
Proof.
  intros HP H. unfold isort in H. apply (proj1 (before_reverse _ _ _)) in H.
  revert H. apply (foldl_insR_descending data []); [done|done|].
  intros c d H. by apply sublist_nil_r in H.
Qed.

End SortedSmall.

(** [sortLess] is a strict weak order on the nodes of [ns]. *)
Definition strictWeak (W : World) (opts : Options) (ns : list Node) : Prop :=
  (∀ a b, a ∈ ns -> b ∈ ns -> sortLess W opts a b = true -> sortLess W opts b a = false) ∧
  (∀ a b c, a ∈ ns -> b ∈ ns -> c ∈ ns ->
            sortLess W opts a b = false -> sortLess W opts b c = false ->
            sortLess W opts a c = false).

Lemma Node_sort_small_sorted W opts ns :
  length ns <= 12 -> strictWeak W opts ns ->
  ∃ sorted, Node_sort W opts ns = Ok sorted ∧ sorted ≡ₚ ns ∧
            ∀ a b, before a b sorted -> sortLess W opts b a = false.
Proof.
  intros Hlen [Ha Ht].
  assert (Forall (fun n => n ∈ ns) ns) as Hall by (by apply Forall_forall).
  unfold Node_sort. unfold sortLess, keyLess in *. destruct (ReverSort opts).
  - pose proof (Reverse_less (sort_fn W opts)) as HI.
    eexists. split; [by apply (Sort_small _ _ HI)|].
    split; [apply (isort_Permutation _ _ HI)|]. intros a b H.
    by apply (isort_sorted _ (fun n => n ∈ ns) Ha Ht ns a b Hall).
  - pose proof (ByFunc_less (sort_fn W opts)) as HI.
    eexists. split; [by apply (Sort_small _ _ HI)|].
    split; [apply (isort_Permutation _ _ HI)|]. intros a b H.
    by apply (isort_sorted _ (fun n => n ∈ ns) Ha Ht ns a b Hall).
Qed.

(** X11.  At most twelve children under a comparator that is a strict weak
    order on them are put in order: [sort] returns, keeps the children,
    and no child of the result is less than one that comes before it. *)
Theorem sort_small_orders_children (W : World) (opts : Options) (ns : list Node) :
  length ns <= 12 -> strictWeak W opts ns ->
  ∃ sorted, Node_sort W opts ns = Ok sorted ∧ sorted ≡ₚ ns ∧
            ∀ a b, before a b sorted -> sortLess W opts b a = false.
Proof. apply Node_sort_small_sorted. Qed.

Definition threeSiblings : list Node :=
  [fileNode "root/b" "b" 1; fileNode "root/c" "c" 1; fileNode "root/a" "a" 1].

Lemma sort_small_orders_children_witness :
  length threeSiblings <= 12 ∧
  strictWeak Mock.world (Mock.mkOpts Mock.simpleFs) threeSiblings ∧
  names (Node_sort Mock.world (Mock.mkOpts Mock.simpleFs) threeSiblings)
    = ["a"; "b"; "c"] ∧
  ∃ sorted, Node_sort Mock.world (Mock.mkOpts Mock.simpleFs) threeSiblings = Ok sorted ∧
            ∀ a b, before a b sorted ->
                   sortLess Mock.world (Mock.mkOpts Mock.simpleFs) b a = false.
Proof.
  assert (length threeSiblings <= 12) as Hlen by (cbn; lia).
  assert (strictWeak Mock.world (Mock.mkOpts Mock.simpleFs) threeSiblings) as Hsw.
  { split.
    - intros a b Ha Hb.
      repeat (apply elem_of_cons in Ha as [->|Ha]);
        try (by apply elem_of_nil in Ha);
        repeat (apply elem_of_cons in Hb as [->|Hb]);
        try (by apply elem_of_nil in Hb); vm_compute; congruence.
    - intros a b c Ha Hb Hc.
      repeat (apply elem_of_cons in Ha as [->|Ha]);
        try (by apply elem_of_nil in Ha);
        repeat (apply elem_of_cons in Hb as [->|Hb]);
        try (by apply elem_of_nil in Hb);
        repeat (apply elem_of_cons in Hc as [->|Hc]);
        try (by apply elem_of_nil in Hc); vm_compute; congruence. }
  split; [exact Hlen|]. split; [exact Hsw|]. split; [reflexivity|].
  destruct (sort_small_orders_children Mock.world (Mock.mkOpts Mock.simpleFs)
              threeSiblings Hlen Hsw) as (sorted & Hs & _ & Hord).
  by exists sorted.
Defined.

(** The change time of a node that carries a [Stat_t]. *)
Definition ctime (n : Node) : option Z :=
  match info n with
  | Some fi => match fiSys fi with Some st => Some (Ctim_Sec st) | None => None end
  | None => None
  end.

Lemma keyLess_ctime W opts a b ca cb :
  ModSort opts = false -> CTimeSort opts = true ->
  ctime a = Some ca -> ctime b = Some cb ->
  keyLess W opts a b = (ca <? cb)%Z.
Proof.
  intros Hm Hc Ha Hb. unfold keyLess, sort_fn, CTimeSort_fn, ctime in *.
  rewrite Hm, Hc.
  destruct (info a) as [ia|]; [|done]. destruct (info b) as [ib|]; [|done].
  destruct (fiSys ia); [|done]. destruct (fiSys ib); [|done]. congruence.
Qed.

(** X12.  With [CTimeSort], and [ModSort] off, at most twelve children that
    all carry a [Stat_t] end up by change time: ascending, or descending
    with [ReverSort]. *)
Theorem sort_small_by_ctime (W : World) (opts : Options) (ns : list Node) :
  ModSort opts = false -> CTimeSort opts = true -> length ns <= 12 ->
  Forall (fun n => is_Some (ctime n)) ns ->
  ∃ sorted, Node_sort W opts ns = Ok sorted ∧ sorted ≡ₚ ns ∧
    ∀ a b ca cb, before a b sorted -> ctime a = Some ca -> ctime b = Some cb ->
                 if ReverSort opts then (cb <= ca)%Z else (ca <= cb)%Z.
Proof.
  intros Hm Hc Hlen Hall.
  assert (∀ a b, a ∈ ns -> b ∈ ns ->
            ∃ ca cb, ctime a = Some ca ∧ ctime b = Some cb ∧
                     sortLess W opts a b
                     = if ReverSort opts then (cb <? ca)%Z else (ca <? cb)%Z) as Hless.
  { intros a b Ha Hb.
    destruct (proj1 (Forall_forall _ _) Hall a Ha) as [ca Hca].
    destruct (proj1 (Forall_forall _ _) Hall b Hb) as [cb Hcb].
    exists ca, cb. split; [done|]. split; [done|]. unfold sortLess.
    rewrite (keyLess_ctime W opts a b ca cb Hm Hc Hca Hcb).
    by rewrite (keyLess_ctime W opts b a cb ca Hm Hc Hcb Hca). }
  destruct (Node_sort_small_sorted W opts ns Hlen) as (sorted & Hs & Hperm & Hord).
  { split.
    - intros a b Ha Hb.
      destruct (Hless a b Ha Hb) as (ca & cb & Hca & Hcb & ->).
      destruct (Hless b a Hb Ha) as (cb' & ca' & Hcb' & Hca' & ->).
      assert (ca' = ca) as -> by congruence. assert (cb' = cb) as -> by congruence.
      destruct (ReverSort opts); lia.
    - intros a b c Ha Hb Hc'.
      destruct (Hless a b Ha Hb) as (ca & cb & Hca & Hcb & ->).
      destruct (Hless b c Hb Hc') as (cb' & cc & Hcb' & Hcc & ->).
      destruct (Hless a c Ha Hc') as (ca' & cc' & Hca' & Hcc' & ->).
      assert (ca' = ca) as -> by congruence. assert (cb' = cb) as -> by congruence.
      assert (cc' = cc) as -> by congruence.
      destruct (ReverSort opts); lia. }
  exists sorted. split; [done|]. split; [done|].
  intros a b ca cb Hab Hca Hcb.
  assert (a ∈ ns ∧ b ∈ ns) as [Ha Hb].
  { rewrite <- Hperm. apply sublist_submseteq in Hab.
    split; (eapply elem_of_submseteq; [|exact Hab]); [by left|right; by left]. }
  specialize (Hord a b Hab).
  destruct (Hless b a Hb Ha) as (cb' & ca' & Hcb' & Hca' & Hl).
  rewrite Hl in Hord.
  assert (ca' = ca) as -> by congruence. assert (cb' = cb) as -> by congruence.
  destruct (ReverSort opts); lia.
Qed.

Lemma sort_small_by_ctime_witness :
  names (Node_sort Mock.world (byCTime true) fourSiblings) = ["a"; "c"; "b"; "d"] ∧
  ∃ sorted, Node_sort Mock.world (byCTime true) fourSiblings = Ok sorted ∧
    ∀ a b ca cb, before a b sorted -> ctime a = Some ca -> ctime b = Some cb ->
                 (cb <= ca)%Z.
Proof.
  split; [reflexivity|].
  destruct (sort_small_by_ctime Mock.world (byCTime true) fourSiblings
              eq_refl eq_refl) as (sorted & Hs & _ & Hord).
  - cbn. lia.
  - unfold fourSiblings. repeat constructor; by eexists.
  - by exists sorted.
Defined.

(** ** [Visit] counts what it keeps *)

(** X13.  The counters [Visit] returns are those of the tree it leaves: the
    directories that are not at depth 0, and the entries with metadata
    that are not directories.  A node whose [Stat] failed counts as
    neither. *)
Theorem Visit_counters_count_tree (W : World) (fuel : nat) (opts : Options)
    (node : Node) (vp : gmap string bool) (T : Node) (d f : Z)
    (vp' : gmap string bool) :
  fresh node ->
  Visit W fuel opts node vp = Ok (T, (d, f), vp') ->
  d = countDirs T ∧ f = countFiles T ∧ (0 <= d)%Z ∧ (0 <= f)%Z ∧
  (∀ n, n ∈ subtree T -> info n = None -> countedDir n = false ∧ isFileNode n = false).
Proof.
  intros Hf H.
  destruct (tree_post W fuel opts node vp T d f vp' Hf H) as (_ & _ & _ & _ & Hc).
  destruct Hf as (Hi & He & _). destruct (Hc Hi He) as (_ & -> & ->).
  split; [done|]. split; [done|].
  split; [apply countb_nonneg|]. split; [apply countb_nonneg|].
  intros n _ Hn. unfold countedDir, isDirNode, isFileNode. by rewrite Hn.
Qed.

Lemma Visit_counters_count_tree_witness :
  match Visit Mock.world 10 (Mock.mkOpts Mock.errorFs) (New "root") ∅ with
  | Ok (T, (d, f), _) =>
      paths T = ["root"; "root/a"; "root/b"; "root/j"; "root/bad"] ∧
      d = 0%Z ∧ f = 3%Z ∧ d = countDirs T ∧ f = countFiles T
  | _ => False
  end.
Proof.
  assert (isOk (Visit Mock.world 10 (Mock.mkOpts Mock.errorFs) (New "root") ∅) = true)
    as Hret by (vm_compute; reflexivity).
  assert (match Visit Mock.world 10 (Mock.mkOpts Mock.errorFs) (New "root") ∅ with
          | Ok (T, (d, f), _) => (paths T, d, f)
          | _ => ([], 0, 0)%Z
          end = (["root"; "root/a"; "root/b"; "root/j"; "root/bad"], 0, 3)%Z)
    as Hfacts by (vm_compute; reflexivity).
  destruct (Visit Mock.world 10 (Mock.mkOpts Mock.errorFs) (New "root") ∅)
    as [[[T [d f]] v]| |] eqn:H; [|discriminate Hret..].
  apply pair_equal_spec in Hfacts as [Hfacts Hf].
  apply pair_equal_spec in Hfacts as [Hpaths Hd].
  destruct (Visit_counters_count_tree Mock.world 10 (Mock.mkOpts Mock.errorFs)
              (New "root") ∅ T d f v (conj eq_refl (conj eq_refl eq_refl)) H)
    as (HdT & HfT & _).
  auto.
Defined.

(** ** [Print] on the tree of [Visit] *)

(** The number of levels of a tree. *)
Fixpoint height (n : Node) : nat :=
  S ((fix hs (l : list Node) : nat :=
        match l with
        | [] => 0
        | c :: r => Nat.max (height c) (hs r)
        end) (nodes n)).

Lemma height_child n c : c ∈ nodes n -> height c < height n.
Proof.
  destruct n as [i p d e ns]. cbn [nodes height].
  induction ns as [|x ns IH]; [by intros ?%elem_of_nil|].
  intros [->|H]%elem_of_cons; [lia|]. specialize (IH H). lia.
Qed.

Lemma printNodes_total (pr : string -> Node -> gmap string bool -> res PrintResult)
    opts ns :
  Forall (fun c => ∀ ind vp, ∃ out, pr ind c vp = Ok (out, c, vp)) ns ->
  ∀ indent vp, ∃ out, printNodes pr opts indent ns vp = Ok (out, ns, vp).
Proof.
  induction 1 as [|c ns Hc _ IH]; intros indent vp; cbn [printNodes]; [by eexists|].
  match goal with |- context [pr ?i c vp] => destruct (Hc i vp) as [out1 ->] end.
  cbn [mbind res_bind]. destruct (IH indent vp) as [out2 ->].
  cbn [mbind res_bind]. by eexists.
Qed.

Lemma dirProps_Ok opts node :
  built node = true -> ∃ props, dirProps opts node = Ok props.
Proof.
  intros Hb. unfold dirProps. destruct (ByteSize opts || UnitSize opts); [|by eexists].
  destruct (dirRecursiveSize_aggregates opts node Hb) as (e & -> & _).
  cbn [mbind res_bind]. by eexists.
Qed.

Lemma print_total W opts :
  FollowLink opts = false ->
  (Contents opts = true -> ∀ p, exec_file_mime W p ≠ "") ->
  ∀ fuel node indent vp,
    built node = true -> height node <= fuel ->
    ∃ out, print W fuel indent opts node vp = Ok (out, node, vp).
Proof.
  intros Hfl Hmime fuel.
  induction fuel as [|fuel IH]; intros node indent vp Hb Hh.
  { destruct node. cbn [height] in Hh. lia. }
  cbn [print]. destruct (err node) as [x|] eqn:He; [by eexists|].
  destruct (built_info _ Hb He) as [fi Hfi].
  unfold Node_IsDir, Node_Name, Node_Mode.
  rewrite !(Node_method_Ok _ _ _ Hfi). cbn [mbind res_bind].
  assert (∃ props, (if fiIsDir fi then dirProps opts node else fileProps W opts node)
                   = Ok props) as [props ->].
  { destruct (fiIsDir fi); [by apply dirProps_Ok|by eapply fileProps_Ok]. }
  cbn [mbind res_bind].
  assert (∃ name, (if (depth node =? 0)%Z || FullPath opts then Ok (path node)
                   else Ok (fiName fi)) = Ok name) as [name0 ->].
  { destruct ((depth node =? 0)%Z || FullPath opts); by eexists. }
  cbn [mbind res_bind].
  match goal with
  | |- context [if ?c then printSymlink W ?v opts node ?nm vp else Ok (?nm, node, vp)] =>
      assert (∃ name, (if c then printSymlink W v opts node nm vp else Ok (nm, node, vp))
                      = Ok (name, node, vp)) as [name ->]
  end.
  { destruct (_ =? _)%Z; [|by eexists]. unfold printSymlink. rewrite Hfl. by eexists. }
  cbn [mbind res_bind].
  assert (∃ contents, printContents W opts node = Ok contents) as [contents ->].
  { unfold printContents. destruct (Contents opts) eqn:Hc; [|by eexists].
    specialize (Hmime eq_refl (path node)).
    destruct (exec_file_mime W (path node)) as [|a s] eqn:Hm; [done|].
    cbn [String.length]. destruct (String.eqb _ _); [|by eexists].
    destruct (os_Open_Read W (path node)) as [[buf|]|]; by eexists. }
  cbn [mbind res_bind].
  destruct (printNodes_total (fun ind n v => print W fuel ind opts n v) opts (nodes node))
    with (indent := indent) (vp := vp) as [out Hout].
  { apply Forall_forall. intros c Hc ind v. apply IH.
    - pose proof (built_children _ Hb) as Hall.
      by apply (proj1 (forallb_forall _ _) Hall), list_elem_of_In.
    - pose proof (height_child node c Hc). lia. }
  rewrite Hout. cbn [mbind res_bind]. eexists. by destruct node.
Qed.

(** X14.  [Print] returns on the tree [Visit] built, when links are not
    followed and, with [Contents], the [file] command gives some output:
    it never reads metadata a node lacks, and it leaves the tree and
    [vpaths] as they were.  Fuel for the levels of the tree is enough. *)
Theorem Print_returns_after_Visit (W : World) (fuel fuel' : nat) (opts : Options)
    (node : Node) (vp : gmap string bool) (T : Node) (d f : Z)
    (vp' : gmap string bool) (indent : string) :
  fresh node ->
  Visit W fuel opts node vp = Ok (T, (d, f), vp') ->
  FollowLink opts = false ->
  (Contents opts = true -> ∀ p, exec_file_mime W p ≠ "") ->
  height T <= fuel' ->
  ∃ out, print W fuel' indent opts T vp' = Ok (out, T, vp').
Proof.
  intros Hf H Hfl Hmime Hh. apply print_total; try done.
  apply (tree_built W fuel opts node vp T d f vp' Hf H), subtree_self.
Qed.

Lemma Print_returns_after_Visit_witness :
  match Visit Mock.world 10 (Mock.mkOpts Mock.unlistedFs) (New "root") ∅ with
  | Ok (T, _, vp') =>
      height T = 2 ∧
      ∃ out, Print Mock.world 2 (Mock.mkOpts Mock.unlistedFs) T vp' = Ok (out, T, vp')
  | _ => False
  end.
Proof.
  assert (isOk (Visit Mock.world 10 (Mock.mkOpts Mock.unlistedFs) (New "root") ∅) = true)
    as Hret by (vm_compute; reflexivity).
  assert (match Visit Mock.world 10 (Mock.mkOpts Mock.unlistedFs) (New "root") ∅ with
          | Ok (T, _, _) => height T
          | _ => 0
          end = 2)
    as Hh by (vm_compute; reflexivity).
  destruct (Visit Mock.world 10 (Mock.mkOpts Mock.unlistedFs) (New "root") ∅)
    as [[[T [d f]] v]| |] eqn:H; [|discriminate Hret..].
  split; [exact Hh|].
  apply (Print_returns_after_Visit Mock.world 10 2 (Mock.mkOpts Mock.unlistedFs)
           (New "root") ∅ T d f v EmptyString
           (conj eq_refl (conj eq_refl eq_refl)) H eq_refl).
  - discriminate.
  - rewrite Hh. lia.
Defined.



(** The default options with [Contents] set. *)
Definition withContents (fs : FsT) : Options := {|
  Fs := fs;
  All := false; DirsOnly := false; FullPath := false; IgnoreCase := false;
  FollowLink := false; DeepLevel := 0; Pattern := EmptyString;
  IPattern := EmptyString; MatchDirs := false; Prune := false;
  Contents := true; ByteSize := false; UnitSize := false; FileMode := false;
  ShowUid := false; ShowGid := false; LastMod := false; Quotes := false;
  Inodes := false; Device := false;
  NoSort := false; VerSort := false; ModSort := false; DirSort := false;
  NameSort := false; SizeSort := false; CTimeSort := false; ReverSort := false;
  NoIndent := false; Colorize := false; Color := None; Now := 0%Z
|}.


(** ** The content preview *)

Lemma IndexNewline_lt s k : IndexNewline s = Some k -> k < String.length s.
Proof.
  revert k. induction s as [|c s IH]; intros k; cbn [IndexNewline String.length];
    [done|].
  destruct (_ || _); [intros [= <-]; lia|].
  destruct (IndexNewline s) as [j|]; [|done]. intros [= <-].
  specialize (IH j eq_refl). lia.
Qed.

Lemma length_substring_0 s n :
  n <= String.length s -> String.length (String.substring 0 n s) = n.
Proof.
  revert n. induction s as [|c s IH]; intros [|n]; cbn; try lia.
  intros H. rewrite IH; lia.
Qed.

Lemma prefix_substring_0 s n : String.prefix (String.substring 0 n s) s = true.
Proof.
  revert n. induction s as [|c s IH]; intros [|n]; cbn; try done.
  rewrite IH. by destruct (Ascii.ascii_dec c c).
Qed.

Lemma IndexNewline_substring_0 s n :
  (∀ k, IndexNewline s = Some k -> n <= k) ->
  IndexNewline (String.substring 0 n s) = None.
Proof.
  revert n. induction s as [|c s IH]; intros [|n] H; cbn; try done.
  cbn [IndexNewline] in H. destruct (_ || _); [specialize (H 0 eq_refl); lia|].
  rewrite IH; [done|]. intros k Hk. rewrite Hk in H. specialize (H (S k) eq_refl). lia.
Qed.

(** X16.  For a file that [file] calls [text/plain], of which [Read] gave the
    first bytes, at most 60: the preview is the start of these bytes up
    to the first line break, never more than 59 bytes and never holding
    a line break; it ends with an ellipsis exactly when 60 bytes were
    read with no line break among them. *)
Theorem printContents_preview (W : World) (opts : Options) (node : Node)
    (c : ascii) (buf : string) :
  Contents opts = true ->
  exec_file_mime W (path node) = "text/plain" +:+ String c EmptyString ->
  os_Open_Read W (path node) = Some (Some buf) ->
  String.length buf <= 60 ->
  ∃ preview,
    printContents W opts node
      = Ok [WContent " => `"; WContent preview;
            WContent (if (String.length buf =? 60) && bool_decide (IndexNewline buf = None)
                      then "…`" else "`")] ∧
    String.length preview <= 59 ∧
    IndexNewline preview = None ∧
    String.prefix preview buf = true ∧
    (∀ k, IndexNewline buf = Some k -> String.length preview = k) ∧
    (IndexNewline buf = None -> String.length buf < 60 -> preview = buf).
Proof.
  intros Hc Hm Hr Hlen. unfold printContents. rewrite Hc, Hm, Hr.
  change (String.length ("text/plain" +:+ String c EmptyString)) with 11.
  change (slice ("text/plain" +:+ String c EmptyString) 0 10) with "text/plain".
  cbn [String.eqb Ascii.eqb Bool.eqb andb]. cbv iota.
  unfold slice. rewrite !Nat.sub_0_r.
  destruct (IndexNewline buf) as [k|] eqn:Hk.
  - pose proof (IndexNewline_lt _ _ Hk) as Hlt.
    assert ((k =? 60) = false) as -> by (apply Nat.eqb_neq; lia).
    rewrite bool_decide_eq_false_2 by done. rewrite andb_false_r.
    eexists. split; [reflexivity|].
    rewrite length_substring_0 by lia. split; [lia|].
    split; [apply IndexNewline_substring_0; intros j; rewrite Hk; intros [= <-]; lia|].
    split; [apply prefix_substring_0|]. split; [by intros j [= <-]|done].
  - rewrite bool_decide_eq_true_2 by done. rewrite andb_true_r.
    destruct (String.length buf =? 60) eqn:H60.
    + apply Nat.eqb_eq in H60. eexists. split; [reflexivity|].
      rewrite length_substring_0 by lia. split; [lia|].
      split; [apply IndexNewline_substring_0; by intros j; rewrite Hk|].
      split; [apply prefix_substring_0|]. split; [done|lia].
    + apply Nat.eqb_neq in H60. eexists. split; [reflexivity|].
      rewrite length_substring_0 by lia. split; [lia|].
      split; [apply IndexNewline_substring_0; by intros j; rewrite Hk|].
      split; [apply prefix_substring_0|]. split; [done|].
      intros _ _. clear. induction buf as [|a s IH]; [done|]. cbn. by rewrite IH.
Qed.

(** A world in which [root/a] is a text file of one line of 70 bytes. *)
Definition textWorld : World := {|
  filepath_Abs := filepath_Abs Mock.world;
  filepath_Clean := filepath_Clean Mock.world;
  filepath_Join := filepath_Join Mock.world;
  filepath_Base := filepath_Base Mock.world;
  filepath_EvalSymlinks := filepath_EvalSymlinks Mock.world;
  os_Readlink := os_Readlink Mock.world;
  regexp_Compile := regexp_Compile Mock.world;
  user_LookupId := user_LookupId Mock.world;
  time_Now := time_Now Mock.world;
  Time_Year := Time_Year Mock.world;
  Time_Format := Time_Format Mock.world;
  FileMode_String := FileMode_String Mock.world;
  exec_file_mime _ := "text/plain" +:+ newline;
  os_Open_Read _ :=
    Some (Some (slice
      "0123456789012345678901234567890123456789012345678901234567890123456789" 0 60));
  ANSIColor := ANSIColor Mock.world;
  ModSort_fn := ModSort_fn Mock.world;
  DirSort_fn := DirSort_fn Mock.world;
  VerSort_fn := VerSort_fn Mock.world;
  SizeSort_fn := SizeSort_fn Mock.world;
  NameSort_fn := NameSort_fn Mock.world
|}.

Lemma printContents_preview_witness :
  printContents textWorld (withContents Mock.simpleFs) (fileNode "root/a" "a" 1)
    = Ok [WContent " => `";
          WContent "01234567890123456789012345678901234567890123456789012345678";
          WContent "…`"].
Proof.
  destruct (printContents_preview textWorld (withContents Mock.simpleFs)
              (fileNode "root/a" "a" 1) "010"
              "012345678901234567890123456789012345678901234567890123456789"
              eq_refl eq_refl eq_refl) as (preview & H & _).
  - cbn. lia.
  - reflexivity.
Defined.

(** ** Sizes at the depth limit *)

(** X17.  With a depth limit and a size option, a node of the tree that sits at
    the limit gets a blank size annotation when it is a directory:
    [dirRecursiveSize] reports "Depth too high" and, the node having no
    children, a size of 0. *)
Theorem directory_at_limit_has_blank_size (W : World) (fuel : nat) (opts : Options)
    (node : Node) (vp : gmap string bool) (T : Node) (d f : Z)
    (vp' : gmap string bool) :
  fresh node -> (0 < DeepLevel opts)%Z -> (depth node <= DeepLevel opts)%Z ->
  ByteSize opts || UnitSize opts = true ->
  Visit W fuel opts node vp = Ok (T, (d, f), vp') ->
  ∀ n, n ∈ subtree T -> depth n = DeepLevel opts ->
    dirRecursiveSize opts n = Ok (0%Z, Some "Depth too high") ∧
    dirProps opts n = Ok [if UnitSize opts then spaces 4 else spaces 11].
Proof.
  intros Hf Hpos Hle Hsize H n Hn Hd.
  destruct (tree_local W fuel opts node vp T d f vp' Hf H n Hn) as (_ & Hlim & _).
  assert (atLimit opts n = true) as Hat.
  { unfold atLimit. apply andb_true_iff. split; lia. }
  specialize (Hlim Hat).
  assert (dirRecursiveSize opts n = Ok (0%Z, Some "Depth too high")) as Hrec.
  { destruct n as [i p k e ns]. cbn [nodes depth] in *. subst ns.
    cbn [dirRecursiveSize nodes depth sizeLoop]. unfold atLimit in Hat.
    cbn [depth] in Hat. by rewrite Hat. }
  split; [done|]. unfold dirProps. rewrite Hsize, Hrec. cbn [mbind res_bind].
  by rewrite bool_decide_eq_true_2.
Qed.

(** The default options with a depth limit of 1 and sizes in bytes. *)
Definition sizedToOne (fs : FsT) : Options := {|
  Fs := fs;
  All := false; DirsOnly := false; FullPath := false; IgnoreCase := false;
  FollowLink := false; DeepLevel := 1; Pattern := EmptyString;
  IPattern := EmptyString; MatchDirs := false; Prune := false;
  Contents := false; ByteSize := true; UnitSize := false; FileMode := false;
  ShowUid := false; ShowGid := false; LastMod := false; Quotes := false;
  Inodes := false; Device := false;
  NoSort := false; VerSort := false; ModSort := false; DirSort := false;
  NameSort := false; SizeSort := false; CTimeSort := false; ReverSort := false;
  NoIndent := false; Colorize := false; Color := None; Now := 0%Z
|}.

Lemma directory_at_limit_has_blank_size_witness :
  match Mock.visitAndPrint 10 (sizedToOne Mock.simpleFs) "root" with
  | Ok (dirs, files, out) =>
      dirs = 1%Z ∧ files = 3%Z ∧
      out = "[        150]  root" +:+ newline +:+
            "├── [         50]  a" +:+ newline +:+
            "├── [         50]  b" +:+ newline +:+
            "├── [           ]  c" +:+ newline +:+
            "└── [         50]  j" +:+ newline
  | _ => False
  end ∧
  match Visit Mock.world 10 (sizedToOne Mock.simpleFs) (New "root") ∅ with
  | Ok (T, _, _) =>
      ∀ n, n ∈ subtree T -> depth n = 1%Z ->
           dirRecursiveSize (sizedToOne Mock.simpleFs) n
             = Ok (0%Z, Some "Depth too high") ∧
           dirProps (sizedToOne Mock.simpleFs) n = Ok ["           "]
  | _ => False
  end.
Proof.
  split; [vm_compute; repeat split; reflexivity|].
  assert (isOk (Visit Mock.world 10 (sizedToOne Mock.simpleFs) (New "root") ∅) = true)
    as Hret by (vm_compute; reflexivity).
  destruct (Visit Mock.world 10 (sizedToOne Mock.simpleFs) (New "root") ∅)
    as [[[T [d f]] v]| |] eqn:H; [|discriminate Hret..].
  apply (directory_at_limit_has_blank_size Mock.world 10 (sizedToOne Mock.simpleFs)
           (New "root") ∅ T d f v (conj eq_refl (conj eq_refl eq_refl)));
    [reflexivity | discriminate | reflexivity | exact H].
Defined.

(** ** [sort] on any number of children *)

(** X18.  Whatever the number of children and the comparator, even one that
    is no order at all, the children [sort] leaves are those it was
    given, each as often as before: [sort.Sort] only swaps. *)
Theorem sort_keeps_the_children (W : World) (opts : Options) (ns sorted : list Node) :
  Node_sort W opts ns = Ok sorted ->
  sorted ≡ₚ ns ∧ length sorted = length ns ∧ (∀ c, c ∈ sorted <-> c ∈ ns).
Proof.
  intros H. apply Node_sort_Permutation in H. split; [done|].
  split; [by rewrite H|]. intros c. by rewrite H.
Qed.

Lemma sort_keeps_the_children_witness :
  names (Node_sort Mock.world (byCTime false) thirteenSiblings)
    = ["g"; "d"; "c"; "a"; "e"; "f"; "b"; "h"; "i"; "j"; "k"; "l"; "m"] ∧
  match Node_sort Mock.world (byCTime false) thirteenSiblings with
  | Ok sorted => sorted ≡ₚ thirteenSiblings ∧ length sorted = 13
  | _ => False
  end.
Proof.
  split; [vm_compute; reflexivity|].
  destruct (Node_sort Mock.world (byCTime false) thirteenSiblings)
    as [sorted| |] eqn:H; [|vm_compute in H; discriminate H..].
  destruct (sort_keeps_the_children Mock.world (byCTime false) thirteenSiblings sorted H)
    as (Hp & Hl & _).
  split; [exact Hp|exact Hl].
Defined.

(** ** The glyphs of the tree *)

(** The number of glyph writes, the [├── ] and [└── ] with their indent. *)
Definition glyphs (out : list Write) : Z :=
  countb (fun w => match w with WGlyph _ => true | _ => false end) out.

Lemma glyphs_app out1 out2 : glyphs (out1 ++ out2) = (glyphs out1 + glyphs out2)%Z.
Proof. apply countb_app. Qed.

Lemma writeProps_glyphs props : glyphs (writeProps props) = 0%Z.
Proof. by destruct props. Qed.

Lemma printContents_glyphs W opts node out :
  printContents W opts node = Ok out -> glyphs out = 0%Z.
Proof.
  unfold printContents. destruct (Contents opts); [|by intros [= <-]].
  destruct (String.length _); [done|]. destruct (String.eqb _ _); [|by intros [= <-]].
  destruct (os_Open_Read W (path node)) as [[buf|]|]; by intros [= <-].
Qed.

(** The glyph writes of a tree: one for each node below the root. *)
Definition glyphsOf (opts : Options) (below : list Node) : Z :=
  if NoIndent opts then 0%Z else Z.of_nat (length below).

Lemma printNodes_glyphs (pr : string -> Node -> gmap string bool -> res PrintResult)
    opts ns :
  Forall (fun c => ∀ ind vp out c' vp',
            pr ind c vp = Ok (out, c', vp') ->
            glyphs out = glyphsOf opts (descendants c)) ns ->
  ∀ indent vp out ns' vp',
    printNodes pr opts indent ns vp = Ok (out, ns', vp') ->
    glyphs out = glyphsOf opts (descendantsOf ns).
Proof.
  induction 1 as [|c ns Hc _ IH]; intros indent vp out ns' vp' H; cbn [printNodes] in H.
  - injection H as <- <- <-. unfold glyphsOf. by destruct (NoIndent opts).
  - inv_bind H. destruct a as [[out1 c'] vp1].
    inv_bind H. destruct a as [[out2 rest] vp2]. injection H as <- <- <-.
    apply Hc in Ha. apply IH in Ha0.
    change (descendantsOf (c :: ns)) with (subtree c ++ descendantsOf ns).
    rewrite !glyphs_app, Ha, Ha0. unfold glyphsOf, subtree.
    destruct (NoIndent opts); [done|].
    rewrite length_app. cbn [length].
    assert (∀ g, glyphs [WGlyph g] = 1%Z) as Hone by done.
    destruct ns; rewrite Hone; lia.
Qed.

Lemma print_glyphs W opts :
  FollowLink opts = false ->
  ∀ fuel node indent vp out node' vp',
    built node = true ->
    print W fuel indent opts node vp = Ok (out, node', vp') ->
    glyphs out = glyphsOf opts (descendants node).
Proof.
  intros Hf fuel. induction fuel as [|fuel IH];
    intros node indent vp out node' vp' Hb H; [done|].
  cbn [print] in H. destruct (err node) as [x|] eqn:He.
  - injection H as <- <- <-.
    assert (nodes node = []) as Hn.
    { destruct node as [[fi|] p d e ns]; cbn [err built info nodes] in *; subst e.
      - apply andb_true_iff in Hb as [_ Hb]. by destruct ns.
      - by destruct ns. }
    rewrite descendants_unfold, Hn. unfold glyphsOf. by destruct (NoIndent opts).
  - inv_bind H. rename a into isDir, Ha into HisDir.
    inv_bind H. rename a into props, Ha into Hprops.
    inv_bind H. rename a into name0, Ha into Hname0.
    inv_bind H. rename a into mode, Ha into Hmode.
    inv_bind H. destruct a as [[name node1] vp1]. rename Ha into Hlink.
    inv_bind H. rename a into contents, Ha into Hcontents.
    inv_bind H. destruct a as [[outc children] vp2]. rename Ha into Hchildren.
    injection H as <- <- <-.
    assert (node1 = node ∧ vp1 = vp) as [-> ->].
    { destruct (Z.land mode ModeSymlink =? ModeSymlink)%Z.
      - unfold printSymlink in Hlink. rewrite Hf in Hlink. by injection Hlink as _ <- <-.
      - by injection Hlink as _ <- <-. }
    apply printNodes_glyphs in Hchildren.
    + change (WName name :: contents ++ WNewline :: outc)
        with ([WName name] ++ contents ++ [WNewline] ++ outc).
      rewrite !glyphs_app, writeProps_glyphs, (printContents_glyphs _ _ _ _ Hcontents),
        Hchildren, descendants_unfold.
      change (glyphs [WName name]) with 0%Z. change (glyphs [WNewline]) with 0%Z. lia.
    + apply Forall_forall. intros c Hc ind v o c' v'. apply IH.
      pose proof (built_children _ Hb) as Hall.
      by apply (proj1 (forallb_forall _ _) Hall), list_elem_of_In.
Qed.

(** X19.  When links are not followed, [Print] writes one glyph for each node
    of the tree of [Visit] below the root, and none with [NoIndent]; the
    root line has no glyph. *)
Theorem Print_one_glyph_per_node_below_root (W : World) (fuel fuel' : nat)
    (opts : Options) (node : Node) (vp : gmap string bool) (T : Node) (d f : Z)
    (vp' : gmap string bool) (out : list Write) (T' : Node) (vp'' : gmap string bool) :
  fresh node -> FollowLink opts = false ->
  Visit W fuel opts node vp = Ok (T, (d, f), vp') ->
  Print W fuel' opts T vp' = Ok (out, T', vp'') ->
  glyphs out = (if NoIndent opts then 0 else Z.of_nat (length (descendants T)))%Z.
Proof.
  intros Hf Hfl H Hp. unfold Print in Hp.
  apply (print_glyphs W opts Hfl) in Hp; [done|].
  apply (tree_built W fuel opts node vp T d f vp' Hf H), subtree_self.
Qed.

Lemma Print_one_glyph_per_node_below_root_witness :
  match Mock.run Mock.world 10 (Mock.mkOpts Mock.simpleFs) "root" with
  | Ok (_, _, out, T) => glyphs out = 10%Z ∧ length (descendants T) = 10
  | _ => False
  end.
Proof.
  assert (isOk (Mock.run Mock.world 10 (Mock.mkOpts Mock.simpleFs) "root") = true)
    as Hret by (vm_compute; reflexivity).
  assert (match Mock.run Mock.world 10 (Mock.mkOpts Mock.simpleFs) "root" with
          | Ok (_, _, _, T) => length (descendants T)
          | _ => 0
          end = 10) as Hrun by (vm_compute; reflexivity).
  unfold Mock.run in *.
  destruct (Visit Mock.world 10 (Mock.mkOpts Mock.simpleFs) (New "root") ∅)
    as [[[T [dirs files]] vp]| |] eqn:Hv; [|discriminate Hret..].
  cbn [mbind res_bind] in *.
  destruct (Print Mock.world 10 (Mock.mkOpts Mock.simpleFs) T vp)
    as [[[out T'] vp']| |] eqn:Hp; [|discriminate Hret..].
  cbn [mbind res_bind] in *.
  pose proof (Print_one_glyph_per_node_below_root Mock.world 10 10
                (Mock.mkOpts Mock.simpleFs) (New "root") ∅ T dirs files vp out T' vp'
                (conj eq_refl (conj eq_refl eq_refl)) eq_refl Hv Hp) as Hg.
  cbn [NoIndent Mock.mkOpts] in Hg.
  assert (T' = T) as ->.
  { apply (print_lines Mock.world (Mock.mkOpts Mock.simpleFs) eq_refl) in Hp; [by destruct Hp|].
    assert (visitPost Mock.world (New "root") ∅ (T, (dirs, files), vp)) as Hpost
      by (by eapply Visit_post).
    destruct Hpost as (_ & _ & _ & _ & Hc). by destruct (Hc eq_refl eq_refl). }
  split; [|exact Hrun]. rewrite Hg. lia.
Defined.

(** ** Directories that cannot be listed *)

(** X20.  A directory that cannot be listed is never filtered out when
    [MatchDirs] is off: in the tree built from a root at depth 0, every
    directory that was listed has, for each name of its listing that is
    not hidden and that [Stat] gives as a directory within the depth limit
    whose own listing fails, a child with that path holding that error,
    even with [Prune] and the patterns. *)
Theorem Visit_keeps_unlisted_directories (W : World) (fuel : nat) (opts : Options)
    (node : Node) (vp : gmap string bool) (T : Node) (d f : Z)
    (vp' : gmap string bool) :
  fresh node -> depth node = 0%Z -> MatchDirs opts = false ->
  Visit W fuel opts node vp = Ok (T, (d, f), vp') ->
  ∀ n name fi e, n ∈ subtree T ->
    isDirNode n = true -> err n = None -> atLimit opts n = false ->
    name ∈ fst (ReadDir (Fs opts) (path n)) -> hidden opts name = false ->
    Stat (Fs opts) (filepath_Join W (path n) name) = (Some fi, None) ->
    fiIsDir fi = true ->
    (0 <? DeepLevel opts)%Z && (DeepLevel opts <=? depth n + 1)%Z = false ->
    snd (ReadDir (Fs opts) (filepath_Join W (path n) name)) = Some e ->
    ∃ c, c ∈ nodes n ∧ path c = filepath_Join W (path n) name ∧ err c = Some e.
Proof.
  intros Hf Hd Hmd H n name fi e Hn Hdir He Hlim Hin Hh HS Hfd Hl HR.
  destruct (tree_complete W fuel opts node vp T d f vp' n Hf Hd H Hn
              (conj Hdir (conj He Hlim))) as [Hk _].
  apply Hk; [done|done|]. right. by exists fi.
Qed.

Lemma Visit_keeps_unlisted_directories_witness :
  match Visit Mock.world 10
          (tuned Mock.unlistedFs false false false true false 0 "zzz" "")
          (New "root") ∅ with
  | Ok (T, _, _) =>
      paths T = ["root"; "root/c"] ∧
      ∃ c, c ∈ nodes T ∧ path c = "root/c" ∧
           err c = Some "open root/c: permission denied"
  | _ => False
  end.
Proof.
  assert (isOk (Visit Mock.world 10
                  (tuned Mock.unlistedFs false false false true false 0 "zzz" "")
                  (New "root") ∅) = true)
    as Hret by (vm_compute; reflexivity).
  assert (match Visit Mock.world 10
                  (tuned Mock.unlistedFs false false false true false 0 "zzz" "")
                  (New "root") ∅ with
          | Ok (T, _, _) => (paths T, isDirNode T, err T, path T)
          | _ => ([], false, None, "")
          end = (["root"; "root/c"], true, None, "root"))
    as Hfacts by (vm_compute; reflexivity).
  destruct (Visit Mock.world 10
              (tuned Mock.unlistedFs false false false true false 0 "zzz" "")
              (New "root") ∅)
    as [[[T [d f]] v]| |] eqn:H; [|discriminate Hret..].
  apply pair_equal_spec in Hfacts as [Hfacts Hpath].
  apply pair_equal_spec in Hfacts as [Hfacts Herr].
  apply pair_equal_spec in Hfacts as [Hpaths Hdir].
  split; [exact Hpaths|].
  assert (filepath_Join Mock.world (path T) "c" = "root/c") as Hj
    by (rewrite Hpath; reflexivity).
  rewrite <- Hj.
  apply (Visit_keeps_unlisted_directories Mock.world 10
           (tuned Mock.unlistedFs false false false true false 0 "zzz" "")
           (New "root") ∅ T d f v (conj eq_refl (conj eq_refl eq_refl)) eq_refl eq_refl H
           T "c" (Mock.file_info (Mock.dir "c" 100
                    [ Mock.plain "d" 50; Mock.plain "e" 50; Mock.plain ".f" 0;
                      Mock.dir "g" 100 [ Mock.plain "h" 50; Mock.plain "i" 50 ];
                      Mock.plain "k" 50 ]))
           "open root/c: permission denied" (subtree_self T) Hdir Herr eq_refl).
  - rewrite Hpath. vm_compute. repeat constructor.
  - reflexivity.
  - rewrite Hj. vm_compute. reflexivity.
  - reflexivity.
  - reflexivity.
  - rewrite Hj. reflexivity.
Defined.

(** ** [Visit] and the visited paths *)

Lemma visitNames_ignores_vpaths W fuel opts node dirMatch :
  (∀ n vp1 vp2 T df vp1',
     Visit W fuel opts n vp1 = Ok (T, df, vp1') ->
     ∃ vp2', Visit W fuel opts n vp2 = Ok (T, df, vp2')) ->
  ∀ names kept dirs files vp1 vp2 r vp1',
    visitNames W (Visit W fuel opts) opts node dirMatch names kept dirs files vp1
      = Ok (r, vp1') ->
    ∃ vp2',
      visitNames W (Visit W fuel opts) opts node dirMatch names kept dirs files vp2
        = Ok (r, vp2').
Proof.
  intros IH names.
  induction names as [|name rest IHn]; intros kept dirs files vp1 vp2 r vp1' H;
    cbn [visitNames] in *.
  - injection H as <- <-. by eexists.
  - destruct (negb (All opts) && HasPrefix name "."); [by eapply IHn|].
    inv_bind H. destruct a as [[nnode [d f]] vpa].
    destruct (IH _ _ vp2 _ _ _ Ha) as [vpb ->]. cbn [mbind res_bind].
    inv_bind H. rewrite Ha0. cbn [mbind res_bind].
    destruct a; by eapply IHn.
Qed.

Lemma Visit_same_tree W fuel opts :
  ∀ n vp1 vp2 T df vp1',
    Visit W fuel opts n vp1 = Ok (T, df, vp1') ->
    ∃ vp2', Visit W fuel opts n vp2 = Ok (T, df, vp2').
Proof.
  induction fuel as [|fuel IH]; intros n vp1 vp2 T df vp1' H; [done|].
  cbn [Visit] in *.
  destruct (Stat (Fs opts) (path n)) as [[fi|] [x|]];
    try (injection H as <- <- <-; by eexists); [|done].
  destruct (negb (fiIsDir fi)); [injection H as <- <- <-; by eexists|].
  destruct (_ && _); [injection H as <- <- <-; by eexists|].
  inv_bind H. rewrite Ha. cbn [mbind res_bind]. destruct a as [dirMatch stop].
  destruct stop; [injection H as <- <- <-; by eexists|].
  destruct (ReadDir (Fs opts) _) as [names [x|]];
    [injection H as <- <- <-; by eexists|].
  inv_bind H. destruct a as [[kept [dirs files]] vpa].
  destruct (visitNames_ignores_vpaths W fuel opts _ dirMatch IH _ _ _ _ _
              (marked W n vp2) _ _ Ha0) as [vpb Hb].
  unfold marked in Hb. rewrite Hb. cbn [mbind res_bind].
  inv_bind H. rewrite Ha1. cbn [mbind res_bind].
  injection H as <- <- <-. by eexists.
Qed.

(** X21.  [Visit] never consults the visited paths: started with any
    other [vpaths] it returns the same tree and the same counters.  The
    map only records, for [Print] to consult when it follows links. *)
Theorem Visit_ignores_vpaths (W : World) (fuel : nat) (opts : Options)
    (node : Node) (vp1 vp2 : gmap string bool) (T : Node) (d f : Z)
    (vp1' : gmap string bool) :
  Visit W fuel opts node vp1 = Ok (T, (d, f), vp1') ->
  ∃ vp2', Visit W fuel opts node vp2 = Ok (T, (d, f), vp2').
Proof. apply Visit_same_tree. Qed.

Lemma Visit_ignores_vpaths_witness :
  match Visit Mock.world 10 (Mock.mkOpts Mock.simpleFs) (New "root") ∅ with
  | Ok (T, (d, f), _) =>
      d = 2%Z ∧ f = 8%Z ∧
      ∃ vp2', Visit Mock.world 10 (Mock.mkOpts Mock.simpleFs) (New "root")
                (<["/cwd/root/c" := true]> ∅) = Ok (T, (d, f), vp2')
  | _ => False
  end.
Proof.
  assert (isOk (Visit Mock.world 10 (Mock.mkOpts Mock.simpleFs) (New "root") ∅) = true)
    as Hret by (vm_compute; reflexivity).
  assert (match Visit Mock.world 10 (Mock.mkOpts Mock.simpleFs) (New "root") ∅ with
          | Ok (_, df, _) => df
          | _ => (0, 0)%Z
          end = (2, 8)%Z) as Hdf by (vm_compute; reflexivity).
  destruct (Visit Mock.world 10 (Mock.mkOpts Mock.simpleFs) (New "root") ∅)
    as [[[T [d f]] v]| |] eqn:H; [|discriminate Hret..].
  apply pair_equal_spec in Hdf as [-> ->].
  split; [done|]. split; [done|].
  exact (Visit_ignores_vpaths Mock.world 10 (Mock.mkOpts Mock.simpleFs) (New "root")
           ∅ (<["/cwd/root/c" := true]> ∅) T 2 8 v H).
Defined.
